(** * Whop analytics dashboard: sync coordinator and metrics engine

    A shallow embedding of [src/lib/analytics/sync.ts], of the store and
    API helpers it calls ([src/lib/supabase/client.ts], the Whop client)
    and of the analytics calculator, followed by the properties the
    specification states about them.

    Conventions.
    - A timestamp is the number of milliseconds since the epoch, in [Z];
      the store's [timestamptz] strings and JavaScript [Date] objects are
      both read as that number, except where the code compares two of
      the strings: there the text of the string is what counts.
    - An upstream currency amount is a binary64 number ([float]); the
      integer minor units the cache holds are in [Z]; the numbers the
      calculator derives from them are exact rationals ([Q]), computed
      on binary64 numbers where the rounding shows in the result.
    - A property that may be missing, [null] or [undefined] is an
      [option]. *)

From Stdlib Require Import ZArith QArith Qround Qpower Qabs List String Ascii Bool.
From Stdlib Require Import Floats Uint63 Lia Lqa Sorted Permutation OrderedTypeEx.
Import ListNotations.

Local Open Scope string_scope.
Local Open Scope list_scope.
Local Open Scope Z_scope.

(* ================================================================== *)
(** ** JavaScript values and control flow *)

Module Js.

(** Truthiness of a string property: missing and [''] are falsy. *)
Definition truthy (s : option string) : bool :=
  match s with
  | Some EmptyString | None => false
  | Some _ => true
  end.

(** [s || null] *)
Definition orNull (s : option string) : option string :=
  if truthy s then s else None.

(** [s || d] for a string default [d] *)
Definition orElse (s : option string) (d : string) : string :=
  match s with
  | Some EmptyString | None => d
  | Some v => v
  end.

(** [b ?? d] and [b || false] on a boolean property *)
Definition boolOr (b : option bool) (d : bool) : bool :=
  match b with Some v => v | None => d end.

(** [x || 0] on a number: [undefined], [NaN], [0] and [-0] give [0]. *)
Definition numberOrZero (x : option float) : float :=
  match x with
  | None => 0%float
  | Some v =>
      if (PrimFloat.eqb v 0 || negb (PrimFloat.eqb v v))%bool
      then 0%float else v
  end.

(** The rational a finite binary64 number stands for. *)
Definition exactValue (x : float) : option Q :=
  match Prim2SF x with
  | S754_zero _ => Some 0%Q
  | S754_finite s m e =>
      Some (inject_Z (if s then Z.neg m else Z.pos m) * 2 ^ e)%Q
  | S754_infinity _ | S754_nan => None
  end.

(** [Math.round] followed by JSON serialisation: the integer
    [floor (x + 1/2)] of a finite number; [JSON.stringify] writes a
    non-finite number as [null]. *)
Definition Math_round (x : float) : option Z :=
  option_map (fun v => Qfloor (v + (1 # 2))) (exactValue x).

(** The same integer, computed on the binary expansion [m * 2^e]. *)
Definition Math_round_bits (x : float) : option Z :=
  match Prim2SF x with
  | S754_zero _ => Some 0
  | S754_finite s m e =>
      let sm := if s then Z.neg m else Z.pos m in
      Some (if 0 <=? e then sm * 2 ^ e
            else (2 * sm + 2 ^ (- e)) / 2 ^ (1 - e))
  | S754_infinity _ | S754_nan => None
  end.

(** The binary64 number nearest to [c / 100]: what the decimal numeral
    of [c] cents parses to, and what dividing [c] by [100] returns. *)
Definition ofCents (c : Z) : float :=
  PrimFloat.div (PrimFloat.of_uint63 (Uint63.of_Z c)) 100.

(** The binary64 number nearest to an integer, and the quotient [n / d]
    of two integers as the division of two numbers computes it: the
    number nearest to the rational [n / d] as long as [n] and [d] are
    below 2^53. *)
Definition ofInteger (z : Z) : float :=
  SF2Prim (binary_normalize prec emax z 0 false).

Definition binary64 (q : Q) : float :=
  PrimFloat.div (ofInteger (Qnum q)) (ofInteger (Z.pos (Qden q))).

(** The rational a number stands for.  [Infinity] and [NaN] stand for
    no rational; no amount below 1.7e308 leads to them, and they read
    as [0] here. *)
Definition rational (x : float) : Q :=
  match exactValue x with
  | Some q => q
  | None => 0%Q
  end.

(** [f] holds of [0], [1], ..., [n - 1]. *)
Definition allBelow (n : N) (f : Z -> bool) : bool :=
  snd (N.iter n
         (fun st : Z * bool => (fst st + 1, snd st && f (fst st))) (0, true)).

(** What a [throw] carries.  [instanceof Error] holds of the first
    kind only; the second stands for every other value, such as the
    [error] object of a store response. *)
Inductive Thrown : Type :=
| ErrorInstance (message : string)
| OtherValue (message : option string).

Inductive Outcome (A : Type) : Type :=
| Returns (a : A)
| Throws (e : Thrown).
Arguments Returns {A} a.
Arguments Throws {A} e.

Class Monad (M : Type -> Type) : Type := {
  ret : forall {A : Type}, A -> M A;
  bind : forall {A B : Type}, M A -> (A -> M B) -> M B
}.

#[global] Instance Outcome_Monad : Monad Outcome := {
  ret := fun A a => Returns a;
  bind := fun A B m k =>
    match m with
    | Returns a => k a
    | Throws e => Throws e
    end
}.

(** [l.map(f)] for a callback that may throw *)
Fixpoint mapM {A B : Type} (f : A -> Outcome B) (l : list A)
  : Outcome (list B) :=
  match l with
  | [] => Returns []
  | x :: l' =>
      match f x with
      | Throws e => Throws e
      | Returns y =>
          match mapM f l' with
          | Throws e => Throws e
          | Returns ys => Returns (y :: ys)
          end
      end
  end.

(** [new Date(ms).toISOString()]: a [RangeError] outside the range of
    time values. *)
Definition toISOString (ms : Z) : Outcome Z :=
  if Z.abs ms <=? 8640000000000000 then Returns ms
  else Throws (ErrorInstance "Invalid time value").

(** [s ? new Date(s * 1000).toISOString() : null] on epoch seconds *)
Definition isoOrNull (seconds : option Z) : Outcome (option Z) :=
  match seconds with
  | None => Returns None
  | Some s =>
      if s =? 0 then Returns None
      else match toISOString (s * 1000) with
           | Returns t => Returns (Some t)
           | Throws e => Throws e
           end
  end.

(** [[...new Set(l)]]: first occurrences, in order *)
Fixpoint Set_of (l : list string) : list string :=
  match l with
  | [] => []
  | x :: l' => x :: filter (fun y => negb (String.eqb x y)) (Set_of l')
  end.

(** [l.filter(Boolean)] on string properties *)
Fixpoint filterBoolean (l : list (option string)) : list string :=
  match l with
  | [] => []
  | x :: l' =>
      if truthy x
      then match x with
           | Some v => v :: filterBoolean l'
           | None => filterBoolean l'
           end
      else filterBoolean l'
  end.

(** [Array.prototype.sort] with a comparator, read by the sign of the
    number it returns ([Gt]: the first argument goes after the
    second).  The sort is stable; this is the insertion sort. *)
Section Sort.
Context {A : Type} (cmp : A -> A -> comparison).

Fixpoint insert (x : A) (l : list A) : list A :=
  match l with
  | [] => [x]
  | y :: l' =>
      match cmp x y with
      | Gt => y :: insert x l'
      | _ => x :: l
      end
  end.

Definition Array_sort (l : list A) : list A := fold_right insert [] l.

(** [a] may stand before [b]: the comparator does not ask for the
    opposite order. *)
Definition inOrder (a b : A) : Prop := cmp a b <> Gt.
End Sort.

(** [l.slice(0, n)]: a negative [n] counts from the end. *)
Definition slice0 {A : Type} (l : list A) (n : Z) : list A :=
  if n <? 0 then firstn (Z.to_nat (Z.of_nat (List.length l) + n)) l
  else firstn (Z.to_nat n) l.

End Js.
Export Js.

Notation "x <- m ;; k" := (bind m (fun x => k))
(at level 61, m at next level, right associativity).

(* ================================================================== *)
(** ** The cache store: rows of the four tables *)

Module Store.

Record Company : Type := {
  c_id : string;
  c_last_sync : option Z
}.

Record PaymentRow : Type := {
  pay_id : string;
  pay_company_id : string;
  pay_product_id : option string;
  pay_membership_id : option string;
  pay_user_id : option string;
  pay_status : string;
  pay_final_amount : option Z;
  pay_currency : string;
  pay_created_at : option Z;
  pay_paid_at : option Z;
  pay_refunded_at : option Z
}.

Record MembershipRow : Type := {
  mem_id : string;
  mem_company_id : string;
  mem_product_id : option string;
  mem_user_id : option string;
  mem_status : string;
  mem_valid : bool;
  mem_created_at : option Z;
  mem_expires_at : option Z;
  mem_renewal_period_start : option Z;
  mem_renewal_period_end : option Z;
  mem_cancel_at_period_end : bool
}.

Record ProductRow : Type := {
  prod_id : string;
  prod_company_id : string;
  prod_name : string;
  prod_created_at : Z;
  prod_visibility : option string;
  prod_stock : option Z;
  prod_initial_stock : option Z
}.

Record t : Type := {
  companies : list Company;
  payments : list PaymentRow;
  memberships : list MembershipRow;
  products : list ProductRow
}.

(** [upsert(rows, { onConflict })]: a row whose key is present replaces
    the stored one in place, any other row is appended. *)
Section Upsert.
Context {R : Type} (same_key : R -> R -> bool).

Fixpoint upsert1 (r : R) (table : list R) : list R :=
  match table with
  | [] => [r]
  | r' :: table' =>
      if same_key r r' then r :: table' else r' :: upsert1 r table'
  end.

Definition upsert (rows table : list R) : list R :=
  fold_left (fun tbl r => upsert1 r tbl) rows table.
End Upsert.

Definition same_payment (a b : PaymentRow) : bool :=
  String.eqb (pay_company_id a) (pay_company_id b)
  && String.eqb (pay_id a) (pay_id b).

Definition same_membership (a b : MembershipRow) : bool :=
  String.eqb (mem_company_id a) (mem_company_id b)
  && String.eqb (mem_id a) (mem_id b).

Definition same_product (a b : ProductRow) : bool :=
  String.eqb (prod_id a) (prod_id b).

Definition find_company (companyId : string) (st : t) : option Company :=
  find (fun c => String.eqb (c_id c) companyId) (companies st).

Definition with_companies (cs : list Company) (st : t) : t :=
  {| companies := cs; payments := payments st;
     memberships := memberships st; products := products st |}.

Definition with_payments (rows : list PaymentRow) (st : t) : t :=
  {| companies := companies st; payments := rows;
     memberships := memberships st; products := products st |}.

Definition with_memberships (rows : list MembershipRow) (st : t) : t :=
  {| companies := companies st; payments := payments st;
     memberships := rows; products := products st |}.

Definition with_products (rows : list ProductRow) (st : t) : t :=
  {| companies := companies st; payments := payments st;
     memberships := memberships st; products := rows |}.

End Store.

(* ================================================================== *)
(** ** The sync coordinator ([lib/analytics/sync.ts]) *)

Module Sync.
Import Store.

(** *** Upstream records

    The Whop client returns untyped records; every property the code
    reads is optional here, except a receipt's [id]. *)

Record UpAccessPass : Type := {
  ap_id : option string;
  ap_name : option string;
  ap_visibility : option string;
  ap_stock : option Z;
  ap_initialStock : option Z
}.

Record UpReceipt : Type := {
  r_id : string;
  r_status : option string;
  r_finalAmount : option float;
  r_currency : option string;
  r_createdAt : option Z;
  r_paidAt : option Z;
  r_refundedAt : option Z;
  r_accessPass : option UpAccessPass;
  r_membership_id : option string;     (* [p.membership?.id] *)
  r_member_user_id : option string     (* [p.member?.user?.id] *)
}.

Record UpMember : Type := {
  m_id : option string;
  m_status : option string;
  m_valid : option bool;
  m_createdAt : option Z;
  m_expiresAt : option Z;
  m_renewalPeriodStart : option Z;
  m_renewalPeriodEnd : option Z;
  m_cancelAtPeriodEnd : option bool;
  m_accessPasses : option (list UpAccessPass);
  m_user_id : option string            (* [m.user?.id] *)
}.

(** What [fetchAllProducts] builds from the receipts. *)
Record UpProduct : Type := {
  p_id : string;
  p_title : option string;
  p_name : option string;
  p_visibility : option string;
  p_stock : option Z;
  p_initialStock : option Z
}.

(** *** The environment of one call *)

(** A call of the Whop SDK throws, or resolves to a response whose
    [nodes] may be missing and may hold [null] entries. *)
Inductive ApiReply (A : Type) : Type :=
| ApiFails
| ApiReplies (nodes : option (list (option A))).
Arguments ApiFails {A}.
Arguments ApiReplies {A} nodes.

Record Upstream : Type := {
  (** the [k]-th call of [listReceiptsForCompany] within this sync *)
  listReceiptsForCompany : nat -> string -> ApiReply UpReceipt;
  listMembers : string -> ApiReply UpMember
}.

(** The readings of the clock: [Date.now()] at the freshness check, and
    [new Date()] in the product rows, in [updateLastSync] and in the
    returned result. *)
Record Clock : Type := {
  atCheck : Z;
  atTransform : Z;
  atUpdate : Z;
  atReturn : Z
}.

(** For each store request, the [error] of the response if it fails. *)
Record Faults : Type := {
  getLastSync_error : option Thrown;
  upsertCompany_error : option Thrown;
  bulkInsertPayments_error : option Thrown;
  bulkInsertMemberships_error : option Thrown;
  bulkInsertProducts_error : option Thrown;
  updateLastSync_error : option Thrown
}.

Record Env : Type := {
  clock : Clock;
  upstream : Upstream;
  faults : Faults;
  (** which rejection of a [Promise.all] settles first *)
  raceFetch : nat;
  raceInsert : nat
}.

(** Requests issued to the store and to the Whop API, in order. *)
Inductive Event : Type :=
| SelectLastSync (companyId : string)
| UpsertCompany (companyId : string)
| ListReceipts (companyId : string)
| ListMembers (companyId : string)
| UpsertPayments (rows : list PaymentRow)
| UpsertMemberships (rows : list MembershipRow)
| UpsertProducts (rows : list ProductRow)
| UpdateLastSync (companyId : string) (at_ : Z).

Record World : Type := {
  store : Store.t;
  trace : list Event;
  receiptCalls : nat
}.

(** *** Asynchronous code: state and exceptions *)

Definition Async (A : Type) : Type := World -> Outcome A * World.

#[global] Instance Async_Monad : Monad Async := {
  ret := fun A a w => (Returns a, w);
  bind := fun A B m k w =>
    match m w with
    | (Returns a, w') => k a w'
    | (Throws e, w') => (Throws e, w')
    end
}.

Definition throw {A : Type} (e : Thrown) : Async A :=
  fun w => (Throws e, w).

Definition try_catch {A : Type} (body : Async A) (handler : Thrown -> Async A)
  : Async A :=
  fun w =>
    match body w with
    | (Returns a, w') => (Returns a, w')
    | (Throws e, w') => handler e w'
    end.

Definition liftOutcome {A : Type} (o : Outcome A) : Async A :=
  fun w => (o, w).

Definition request (ev : Event) : Async unit :=
  fun w => (Returns tt,
            {| store := store w; trace := trace w ++ [ev];
               receiptCalls := receiptCalls w |}).

Definition modifyStore (f : Store.t -> Store.t) : Async unit :=
  fun w => (Returns tt,
            {| store := f (store w); trace := trace w;
               receiptCalls := receiptCalls w |}).

Definition rejections {A : Type} (o : Outcome A) : list Thrown :=
  match o with
  | Returns _ => []
  | Throws e => [e]
  end.

(** [Promise.all([a, b, c])].  The three run to completion whatever the
    others do; they touch disjoint tables or only read, so running them
    one after the other gives the same store.  A rejection of the
    whole is the one that settles first, chosen by [race]. *)
Definition Promise_all3 {A B C : Type} (race : nat)
  (pa : Async A) (pb : Async B) (pc : Async C) : Async (A * B * C) :=
  fun w =>
    let (ra, w1) := pa w in
    let (rb, w2) := pb w1 in
    let (rc, w3) := pc w2 in
    match ra, rb, rc with
    | Returns a, Returns b, Returns c => (Returns (a, b, c), w3)
    | _, _, _ =>
        let rs := rejections ra ++ rejections rb ++ rejections rc in
        (Throws (nth (Nat.modulo race (List.length rs)) rs (OtherValue None)),
         w3)
    end.

(** *** Store helpers ([lib/supabase/client.ts]) *)

Definition failing (err : option Thrown) : Async unit :=
  match err with
  | Some e => throw e
  | None => ret tt
  end.

(** [getLastSync]: a company that has no row is the [PGRST116] answer of
    [.single()] and reads as [null]; any other error is thrown. *)
Definition getLastSync (env : Env) (companyId : string) : Async (option Z) :=
  _ <- request (SelectLastSync companyId) ;;
  _ <- failing (getLastSync_error (faults env)) ;;
  fun w =>
    match find_company companyId (store w) with
    | None => (Returns None, w)
    | Some c => (Returns (c_last_sync c), w)
    end.

Definition insertCompanyIfAbsent (companyId : string) (st : Store.t) : Store.t :=
  match find_company companyId st with
  | Some _ => st
  | None =>
      with_companies
        (companies st ++ [{| c_id := companyId; c_last_sync := None |}]) st
  end.

Definition upsertCompany (env : Env) (companyId : string) : Async unit :=
  _ <- request (UpsertCompany companyId) ;;
  _ <- failing (upsertCompany_error (faults env)) ;;
  modifyStore (insertCompanyIfAbsent companyId).

Definition setLastSync (companyId : string) (now : Z) (st : Store.t) : Store.t :=
  with_companies
    (map (fun c =>
            if String.eqb (c_id c) companyId
            then {| c_id := c_id c; c_last_sync := Some now |}
            else c)
         (companies st)) st.

Definition updateLastSync (env : Env) (companyId : string) : Async unit :=
  _ <- request (UpdateLastSync companyId (atUpdate (clock env))) ;;
  _ <- failing (updateLastSync_error (faults env)) ;;
  modifyStore (setLastSync companyId (atUpdate (clock env))).

Definition bulkInsertPayments (env : Env) (rows : list PaymentRow) : Async unit :=
  match rows with
  | [] => ret tt
  | _ =>
      _ <- request (UpsertPayments rows) ;;
      _ <- failing (bulkInsertPayments_error (faults env)) ;;
      modifyStore (fun st =>
        with_payments (upsert same_payment rows (payments st)) st)
  end.

Definition bulkInsertMemberships (env : Env) (rows : list MembershipRow)
  : Async unit :=
  match rows with
  | [] => ret tt
  | _ =>
      _ <- request (UpsertMemberships rows) ;;
      _ <- failing (bulkInsertMemberships_error (faults env)) ;;
      modifyStore (fun st =>
        with_memberships (upsert same_membership rows (memberships st)) st)
  end.

Definition bulkInsertProducts (env : Env) (rows : list ProductRow) : Async unit :=
  match rows with
  | [] => ret tt
  | _ =>
      _ <- request (UpsertProducts rows) ;;
      _ <- failing (bulkInsertProducts_error (faults env)) ;;
      modifyStore (fun st =>
        with_products (upsert same_product rows (products st)) st)
  end.

(** *** The Whop client *)

Definition nodesOrEmpty {A : Type} (nodes : option (list (option A)))
  : list (option A) :=
  match nodes with
  | Some l => l
  | None => []
  end.

Definition fetchAllPayments (env : Env) (companyId : string)
  : Async (list (option UpReceipt)) :=
  fun w =>
    let w' := {| store := store w;
                 trace := trace w ++ [ListReceipts companyId];
                 receiptCalls := S (receiptCalls w) |} in
    match listReceiptsForCompany (upstream env) (receiptCalls w) companyId with
    | ApiFails =>
        (Throws (ErrorInstance "Failed to fetch receipts from Whop API"), w')
    | ApiReplies nodes => (Returns (nodesOrEmpty nodes), w')
    end.

Definition fetchAllMemberships (env : Env) (companyId : string)
  : Async (list (option UpMember)) :=
  _ <- request (ListMembers companyId) ;;
  match listMembers (upstream env) companyId with
  | ApiFails => throw (ErrorInstance "Failed to fetch members from Whop API")
  | ApiReplies nodes => ret (nodesOrEmpty nodes)
  end.

(** The product a receipt carries: [receipt?.accessPass] with a truthy
    [id]. *)
Definition productOf (receipt : option UpReceipt) : option UpProduct :=
  match receipt with
  | None => None
  | Some r =>
      match r_accessPass r with
      | None => None
      | Some ap =>
          match ap_id ap with
          | Some id =>
              if truthy (Some id)
              then Some {| p_id := id;
                           p_title := None;
                           p_name := Some (orElse (ap_name ap) "Unnamed Product");
                           p_visibility := ap_visibility ap;
                           p_stock := ap_stock ap;
                           p_initialStock := ap_initialStock ap |}
              else None
          | None => None
          end
      end
  end.

(** The loop over the receipts that fills [productMap]; the map keeps
    its keys in insertion order. *)
Definition extractProducts (receipts : list (option UpReceipt))
  : list UpProduct :=
  fold_left
    (fun productMap receipt =>
       match productOf receipt with
       | None => productMap
       | Some product =>
           if existsb (fun q => String.eqb (p_id q) (p_id product)) productMap
           then productMap
           else productMap ++ [product]
       end)
    receipts [].

Definition fetchAllProducts (env : Env) (companyId : string)
  : Async (list UpProduct) :=
  try_catch
    (receipts <- fetchAllPayments env companyId ;;
     ret (extractProducts receipts))
    (fun _ => throw (ErrorInstance "Failed to fetch products from Whop API")).

(** *** Normalisation of the fetched records *)

(** [p.status === 'succeeded' ? 'paid' : p.status || 'unknown'] *)
Definition paymentStatus (status : option string) : string :=
  if match status with
     | Some s => String.eqb s "succeeded"
     | None => false
     end
  then "paid"
  else orElse status "unknown".

(** [Math.round((p.finalAmount || 0) * 100)] *)
Definition minorUnits (finalAmount : option float) : option Z :=
  Math_round (PrimFloat.mul (numberOrZero finalAmount) 100).

(** An upstream amount of [c] cents is stored as [c]. *)
Definition storedAs (c : Z) : bool :=
  match Math_round_bits (PrimFloat.mul (numberOrZero (Some (ofCents c))) 100) with
  | Some c' => c' =? c
  | None => false
  end.

Definition formatPayment (companyId : string) (p : option UpReceipt)
  : Outcome PaymentRow :=
  match p with
  | None =>
      Throws (ErrorInstance "Cannot read properties of null (reading 'id')")
  | Some p =>
      created <- isoOrNull (r_createdAt p) ;;
      paid <- isoOrNull (r_paidAt p) ;;
      refunded <- isoOrNull (r_refundedAt p) ;;
      ret {| pay_id := r_id p;
             pay_company_id := companyId;
             pay_product_id :=
               match r_accessPass p with
               | Some ap => orNull (ap_id ap)
               | None => None
               end;
             pay_membership_id := orNull (r_membership_id p);
             pay_user_id := orNull (r_member_user_id p);
             pay_status := paymentStatus (r_status p);
             pay_final_amount := minorUnits (r_finalAmount p);
             pay_currency := orElse (r_currency p) "usd";
             pay_created_at := created;
             pay_paid_at := paid;
             pay_refunded_at := refunded |}
  end.

(** [(m) => m?.id]: the members kept by the filter *)
Definition hasId (m : option UpMember) : bool :=
  match m with
  | Some m => truthy (m_id m)
  | None => false
  end.

Definition formatMembership (companyId : string) (m : option UpMember)
  : Outcome MembershipRow :=
  match m with
  | None =>
      Throws (ErrorInstance "Cannot read properties of null (reading 'id')")
  | Some m =>
      created <- isoOrNull (m_createdAt m) ;;
      expires <- isoOrNull (m_expiresAt m) ;;
      renewalStart <- isoOrNull (m_renewalPeriodStart m) ;;
      renewalEnd <- isoOrNull (m_renewalPeriodEnd m) ;;
      ret {| mem_id := orElse (m_id m) "";
             mem_company_id := companyId;
             mem_product_id :=
               match m_accessPasses m with
               | Some (first :: _) => orNull (ap_id first)
               | _ => None
               end;
             mem_user_id := orNull (m_user_id m);
             mem_status := orElse (m_status m) "unknown";
             mem_valid := boolOr (m_valid m) false;
             mem_created_at := created;
             mem_expires_at := expires;
             mem_renewal_period_start := renewalStart;
             mem_renewal_period_end := renewalEnd;
             mem_cancel_at_period_end := boolOr (m_cancelAtPeriodEnd m) false |}
  end.

Definition formatProduct (env : Env) (companyId : string) (p : UpProduct)
  : ProductRow :=
  {| prod_id := p_id p;
     prod_company_id := companyId;
     prod_name :=
       match orNull (p_title p) with
       | Some title => title
       | None => orElse (p_name p) "Unnamed Product"
       end;
     prod_created_at := atTransform (clock env);
     prod_visibility := p_visibility p;
     prod_stock := p_stock p;
     prod_initial_stock := p_initialStock p |}.

(** *** [syncCompanyData] *)

Record SyncResult : Type := {
  success : bool;
  paymentsCount : nat;
  membershipsCount : nat;
  productsCount : nat;
  syncedAt : Z;
  error : option string
}.

(** [!force && lastSync && lastSync > oneHourAgo]: the stored timestamp
    when the test holds. *)
Definition freshSince (env : Env) (force : bool) (lastSync : option Z)
  : option Z :=
  let oneHourAgo := atCheck (clock env) - 60 * 60 * 1000 in
  match lastSync with
  | Some t => if negb force && (oneHourAgo <? t) then Some t else None
  | None => None
  end.

(** Step 3: the three fetches, in parallel. *)
Definition fetchAll (env : Env) (companyId : string)
  : Async (list (option UpReceipt) * list (option UpMember) * list UpProduct) :=
  Promise_all3 (raceFetch env)
    (fetchAllPayments env companyId)
    (fetchAllMemberships env companyId)
    (fetchAllProducts env companyId).

(** Step 5: the three bulk upserts, in parallel. *)
Definition insertAll (env : Env) (paymentsFormatted : list PaymentRow)
  (membershipsFormatted : list MembershipRow)
  (productsFormatted : list ProductRow) : Async (unit * unit * unit) :=
  Promise_all3 (raceInsert env)
    (bulkInsertPayments env paymentsFormatted)
    (bulkInsertMemberships env membershipsFormatted)
    (bulkInsertProducts env productsFormatted).

(** Steps 2 to 6 and the result of a completed sync. *)
Definition fullSync (env : Env) (companyId : string) : Async SyncResult :=
  _ <- upsertCompany env companyId ;;
  fetched <- fetchAll env companyId ;;
  let '(payments, memberships, products) := fetched in
  paymentsFormatted <- liftOutcome (mapM (formatPayment companyId) payments) ;;
  membershipsFormatted <-
    liftOutcome (mapM (formatMembership companyId) (filter hasId memberships)) ;;
  let productsFormatted := map (formatProduct env companyId) products in
  _ <- insertAll env paymentsFormatted membershipsFormatted productsFormatted ;;
  _ <- updateLastSync env companyId ;;
  ret {| success := true;
         paymentsCount := List.length payments;
         membershipsCount := List.length memberships;
         productsCount := List.length products;
         syncedAt := atReturn (clock env);
         error := None |}.

(** The body of the [try] block. *)
Definition syncBody (env : Env) (companyId : string) (force : bool)
  : Async SyncResult :=
  lastSync <- getLastSync env companyId ;;
  match freshSince env force lastSync with
  | Some t =>
      ret {| success := true;
             paymentsCount := 0;
             membershipsCount := 0;
             productsCount := 0;
             syncedAt := t;
             error := None |}
  | None => fullSync env companyId
  end.

(** [error instanceof Error ? error.message : 'Unknown error'] *)
Definition errorText (e : Thrown) : string :=
  match e with
  | ErrorInstance message => message
  | OtherValue _ => "Unknown error"
  end.

(** The [catch] block. *)
Definition syncFailed (env : Env) (e : Thrown) : Async SyncResult :=
  ret {| success := false;
         paymentsCount := 0;
         membershipsCount := 0;
         productsCount := 0;
         syncedAt := atReturn (clock env);
         error := Some (errorText e) |}.

Definition syncCompanyData (env : Env) (companyId : string) (force : bool)
  : Async SyncResult :=
  try_catch (syncBody env companyId force) (syncFailed env).

(** *** Observations on a run *)

Definition skipResult (t : Z) : SyncResult :=
  {| success := true;
     paymentsCount := 0;
     membershipsCount := 0;
     productsCount := 0;
     syncedAt := t;
     error := None |}.

(** The [last_sync] column of the company's row, if there is one. *)
Definition storedLastSync (companyId : string) (st : Store.t) : option Z :=
  match find_company companyId st with
  | Some c => c_last_sync c
  | None => None
  end.

Definition logged (ev : Event) (w : World) : World :=
  {| store := store w; trace := trace w ++ [ev];
     receiptCalls := receiptCalls w |}.

(** The number of calls of the Whop API in a trace. *)
Definition upstreamCalls (tr : list Event) : nat :=
  List.length
    (filter (fun ev =>
               match ev with
               | ListReceipts _ | ListMembers _ => true
               | _ => false
               end) tr).

(** The membership rows, and the payment rows, sent to the store. *)
Fixpoint membershipRowsWritten (tr : list Event) : list MembershipRow :=
  match tr with
  | [] => []
  | UpsertMemberships rows :: tr' => rows ++ membershipRowsWritten tr'
  | _ :: tr' => membershipRowsWritten tr'
  end.

Fixpoint paymentRowsWritten (tr : list Event) : list PaymentRow :=
  match tr with
  | [] => []
  | UpsertPayments rows :: tr' => rows ++ paymentRowsWritten tr'
  | _ :: tr' => paymentRowsWritten tr'
  end.

(** The requests of step 5: an empty batch sends none. *)
Definition upsertRequests (rows : list PaymentRow)
  (mrows : list MembershipRow) (prows : list ProductRow) : list Event :=
  match rows with [] => [] | _ => [UpsertPayments rows] end
  ++ match mrows with [] => [] | _ => [UpsertMemberships mrows] end
  ++ match prows with [] => [] | _ => [UpsertProducts prows] end.

(** What the [k]-th call of the receipts listing, and the members
    listing, resolve to. *)
Definition receiptsOf (env : Env) (k : nat) (companyId : string)
  : option (list (option UpReceipt)) :=
  match listReceiptsForCompany (upstream env) k companyId with
  | ApiReplies nodes => Some (nodesOrEmpty nodes)
  | ApiFails => None
  end.

Definition membersOf (env : Env) (companyId : string)
  : option (list (option UpMember)) :=
  match listMembers (upstream env) companyId with
  | ApiReplies nodes => Some (nodesOrEmpty nodes)
  | ApiFails => None
  end.

(** The errors the three bulk upserts answer with; an empty batch sends
    no request and cannot fail. *)
Definition insertFaults (env : Env) (rows : list PaymentRow)
  (mrows : list MembershipRow) (prows : list ProductRow) : list Thrown :=
  match rows, bulkInsertPayments_error (faults env) with
  | _ :: _, Some e => [e]
  | _, _ => []
  end
  ++ match mrows, bulkInsertMemberships_error (faults env) with
     | _ :: _, Some e => [e]
     | _, _ => []
     end
  ++ match prows, bulkInsertProducts_error (faults env) with
     | _ :: _, Some e => [e]
     | _, _ => []
     end.

(** No step of the full cycle fails: the store answers the company
    upsert, the three upstream calls reply, every fetched record can be
    normalised, and the store answers the bulk upserts and the
    timestamp update. *)
Definition stepsSucceed (env : Env) (companyId : string) (w : World) : Prop :=
  upsertCompany_error (faults env) = None
  /\ updateLastSync_error (faults env) = None
  /\ exists payments members receipts rows mrows,
       receiptsOf env (receiptCalls w) companyId = Some payments
       /\ membersOf env companyId = Some members
       /\ receiptsOf env (S (receiptCalls w)) companyId = Some receipts
       /\ mapM (formatPayment companyId) payments = Returns rows
       /\ mapM (formatMembership companyId) (filter hasId members)
          = Returns mrows
       /\ insertFaults env rows mrows
            (map (formatProduct env companyId) (extractProducts receipts)) = [].

(** The statuses the specification enumerates for a cached payment
    (data model, Payment). *)
Definition spec_payment_statuses : list string :=
  ["paid"; "refunded"; "failed"; "pending"; "unknown"].

End Sync.

(* ================================================================== *)
(** ** The metrics engine (the analytics calculator) *)

Module Calculator.
Import Store.

(** What the calculator does with a date.  The two functions of
    [date-fns] it calls: [subDays(date, amount)] and
    [format(date, 'yyyy-MM-dd')], the latter in the time zone of the
    process.  And the text in which a response of the store carries a
    [timestamptz] column, an ISO 8601 string: the calculator parses it
    with [new Date] wherever it reads a date, and compares two of them
    as strings in [getCustomerSegmentation]. *)
Class DateFns : Type := {
  subDays : Z -> Z -> Z;
  format_yyyy_MM_dd : Z -> string;
  timestamptz : Z -> string
}.

(** The cache as one call of the calculator sees it.  A query the store
    cannot answer resolves to [{ data: null, count: null }]; the
    calculator never looks at [error]. *)
Record Db : Type := {
  tables : Store.t;
  reachable : bool
}.

Definition select {R : Type} (db : Db) (table : Store.t -> list R)
  (where_ : R -> bool) : option (list R) :=
  if reachable db then Some (filter where_ (table (tables db))) else None.

Definition count {R : Type} (db : Db) (table : Store.t -> list R)
  (where_ : R -> bool) : option nat :=
  option_map (@List.length R) (select db table where_).

(** Column filters of the query builder; a [null] column fails every
    comparison. *)
Definition gte (column : option Z) (t : Z) : bool :=
  match column with Some v => t <=? v | None => false end.

Definition lte (column : option Z) (t : Z) : bool :=
  match column with Some v => v <=? t | None => false end.

Definition lt (column : option Z) (t : Z) : bool :=
  match column with Some v => v <? t | None => false end.

Definition notNull {A : Type} (column : option A) : bool :=
  match column with Some _ => true | None => false end.

Definition oneOf (column : string) (values : list string) : bool :=
  existsb (String.eqb column) values.

Record MetricResult : Type := {
  value : Q;
  change : Q
}.

Record TimeSeriesPoint : Type := {
  date : string;
  point_value : Q
}.

Record ProductMetric : Type := {
  productId : string;
  productName : string;
  revenue : Q;
  count_ : nat
}.

Inductive Segment : Type := new | active | at_risk | churned.

Record CustomerSegment : Type := {
  segment : Segment;
  seg_count : nat;
  percentage : Q;
  color : string
}.

Definition Qltb (x y : Q) : bool := negb (Qle_bool y x).

(** [previous > 0 ? ((current - previous) / previous) * 100 : 0] *)
Definition percentChange (current previous : Q) : Q :=
  if Qltb 0 previous
  then ((current - previous) / previous) * 100
  else 0.

(** [Math.round(x * 100) / 100] *)
Definition round2 (x : Q) : Q :=
  inject_Z (Qfloor (x * 100 + (1 # 2))) / 100.

(** [p.final_amount || 0] *)
Definition amountOrZero (amount : option Z) : Z :=
  match amount with Some v => v | None => 0 end.

(** [data?.reduce((sum, p) => sum + (p.final_amount || 0), 0) || 0] *)
Definition sumAmounts (data : option (list PaymentRow)) : Z :=
  match data with
  | Some rows =>
      fold_left (fun sum p => sum + amountOrZero (pay_final_amount p)) rows 0
  | None => 0
  end.

(** [Math.ceil((end - start) / (1000 * 60 * 60 * 24))] *)
Definition daysBetween (startDate endDate : Z) : Z :=
  - ((- (endDate - startDate)) / (1000 * 60 * 60 * 24)).

Definition paidBetween (companyId : string) (startDate endDate : Z)
  (p : PaymentRow) : bool :=
  String.eqb (pay_company_id p) companyId
  && String.eqb (pay_status p) "paid"
  && gte (pay_paid_at p) startDate
  && lte (pay_paid_at p) endDate.

(** The sum of a period, in minor units. *)
Definition periodRevenue (db : Db) (companyId : string) (startDate endDate : Z)
  : Z :=
  sumAmounts (select db payments (paidBetween companyId startDate endDate)).

Definition calculateRevenue `{DateFns} (db : Db) (companyId : string)
  (startDate endDate : Z) : MetricResult :=
  let currentRevenue := periodRevenue db companyId startDate endDate in
  let daysDiff := daysBetween startDate endDate in
  let prevStartDate := subDays startDate daysDiff in
  let prevEndDate := subDays endDate daysDiff in
  let previousRevenue := periodRevenue db companyId prevStartDate prevEndDate in
  {| value := inject_Z currentRevenue / 100;
     change := percentChange (inject_Z currentRevenue) (inject_Z previousRevenue) |}.

Definition isActiveMember (companyId : string) (m : MembershipRow) : bool :=
  String.eqb (mem_company_id m) companyId
  && mem_valid m
  && oneOf (mem_status m) ["active"; "trialing"].

(** [count || 0] *)
Definition countOrZero (c : option nat) : nat :=
  match c with Some n => n | None => O end.

Definition getActiveMemberCount `{DateFns} (db : Db) (companyId : string)
  (now : Z) : MetricResult :=
  let currentCount := count db memberships (isActiveMember companyId) in
  let thirtyDaysAgo := subDays now 30 in
  let previousCount :=
    count db memberships
      (fun m => isActiveMember companyId m
                && lt (mem_created_at m) thirtyDaysAgo) in
  {| value := inject_Z (Z.of_nat (countOrZero currentCount));
     change :=
       percentChange (inject_Z (Z.of_nat (countOrZero currentCount)))
                     (inject_Z (Z.of_nat (countOrZero previousCount))) |}.

Definition calculateChurnRate `{DateFns} (db : Db) (companyId : string)
  (now : Z) : Q :=
  let thirtyDaysAgo := subDays now 30 in
  let activeThirtyDaysAgo :=
    count db memberships
      (fun m => String.eqb (mem_company_id m) companyId
                && mem_valid m
                && lt (mem_created_at m) thirtyDaysAgo) in
  let churned :=
    count db memberships
      (fun m => String.eqb (mem_company_id m) companyId
                && negb (mem_valid m)
                && oneOf (mem_status m) ["cancelled"; "expired"]
                && gte (mem_expires_at m) thirtyDaysAgo
                && lte (mem_expires_at m) now) in
  match countOrZero activeThirtyDaysAgo with
  | O => 0
  | S _ as n =>
      (inject_Z (Z.of_nat (countOrZero churned)) / inject_Z (Z.of_nat n)) * 100
  end.

(** A JavaScript object used as a dictionary, as the list of its
    entries in the order they were first set. *)
Definition Dict (V : Type) : Type := list (string * V).

Fixpoint lookup {V : Type} (key : string) (d : Dict V) : option V :=
  match d with
  | [] => None
  | (k, v) :: d' => if String.eqb k key then Some v else lookup key d'
  end.

(** [d[key] = f(d[key])], where [f] sees [None] for a key not yet set *)
Fixpoint update {V : Type} (key : string) (f : option V -> V) (d : Dict V)
  : Dict V :=
  match d with
  | [] => [(key, f None)]
  | (k, v) :: d' =>
      if String.eqb k key then (k, f (Some v)) :: d'
      else (k, v) :: update key f d'
  end.

Definition keys {V : Type} (d : Dict V) : list string := map fst d.

(** The properties an object literal inherits from [Object.prototype].
    Read through [d[key]] each of them is a function, and ['__proto__']
    the prototype itself: a truthy value that is no entry of [d] and
    that [Object.entries] and [Object.keys] do not list. *)
Definition Object_prototype : list string :=
  ["constructor"; "__defineGetter__"; "__defineSetter__"; "hasOwnProperty";
   "__lookupGetter__"; "__lookupSetter__"; "isPrototypeOf";
   "propertyIsEnumerable"; "toString"; "valueOf"; "__proto__";
   "toLocaleString"].

Definition inherited (key : string) : bool :=
  existsb (String.eqb key) Object_prototype.

(** The order in which an object lists its own keys: first the array
    indices (canonical decimal numerals below 2^32 - 1) in ascending
    numeric order, then the other strings in the order they were set. *)
Definition isDigit (c : ascii) : bool :=
  ((48 <=? N_of_ascii c) && (N_of_ascii c <=? 57))%N.

Fixpoint decimal (s : string) (acc : N) : option N :=
  match s with
  | EmptyString => Some acc
  | String c s' =>
      if isDigit c then decimal s' (10 * acc + (N_of_ascii c - 48))%N
      else None
  end.

Definition arrayIndex (s : string) : option N :=
  match s with
  | EmptyString => None
  | String c s' =>
      if Ascii.eqb c "0" && negb (String.eqb s' EmptyString) then None
      else match decimal s 0 with
           | Some n => if (n <? 4294967295)%N then Some n else None
           | None => None
           end
  end.

Definition indexed {V : Type} (d : Dict V) : list (N * (string * V)) :=
  flat_map (fun entry =>
              match arrayIndex (fst entry) with
              | Some n => [(n, entry)]
              | None => []
              end) d.

Definition byIndex {V : Type} (a b : N * (string * V)) : comparison :=
  (fst a ?= fst b)%N.

(** [Object.entries(d)] and [Object.keys(d)] *)
Definition Object_entries {V : Type} (d : Dict V) : Dict V :=
  map snd (Array_sort byIndex (indexed d))
  ++ filter (fun entry => match arrayIndex (fst entry) with
                          | Some _ => false
                          | None => true
                          end) d.

Definition Object_keys {V : Type} (d : Dict V) : list string :=
  keys (Object_entries d).

(** [.order(column, { ascending: true })] on a timestamp column *)
Definition byTimestamp {R : Type} (column : R -> option Z) (a b : R)
  : comparison :=
  match column a, column b with
  | Some x, Some y => x ?= y
  | _, _ => Eq
  end.

Definition inWindow (companyId : string) (startDate : Z) (p : PaymentRow)
  : bool :=
  String.eqb (pay_company_id p) companyId
  && String.eqb (pay_status p) "paid"
  && gte (pay_paid_at p) startDate
  && notNull (pay_paid_at p).

(** The callback of the [reduce] of [getRevenueTimeSeries], and the
    [reduce]: revenue per calendar date *)
Definition addToDate `{DateFns} (acc : Dict Q) (payment : PaymentRow) : Dict Q :=
  match pay_paid_at payment with
  | None => acc
  | Some paid_at =>
      update (format_yyyy_MM_dd paid_at)
        (fun old : option Q =>
           ((match old with Some v => v | None => 0 end)
            + inject_Z (amountOrZero (pay_final_amount payment)) / 100)%Q)
        acc
  end.

Definition groupByDate `{DateFns} (data : list PaymentRow) : Dict Q :=
  fold_left addToDate data [].

(** [(a, b) => a.date.localeCompare(b.date)]; on the ten characters of
    a formatted date the collation is the order of the code units. *)
Definition byDate (a b : TimeSeriesPoint) : comparison :=
  String.compare (date a) (date b).

(** [([date, value]) => ({ date, value: Math.round(value * 100) / 100 })] *)
Definition toPoint (entry : string * Q) : TimeSeriesPoint :=
  {| date := fst entry; point_value := round2 (snd entry) |}.

Definition getRevenueTimeSeries `{DateFns} (db : Db) (companyId : string)
  (days : Z) (now : Z) : list TimeSeriesPoint :=
  let startDate := subDays now days in
  match select db payments (inWindow companyId startDate) with
  | None | Some [] => []
  | Some rows =>
      let data := Array_sort (byTimestamp pay_paid_at) rows in
      Array_sort byDate (map toPoint (Object_entries (groupByDate data)))
  end.

Definition withProduct (companyId : string) (p : PaymentRow) : bool :=
  String.eqb (pay_company_id p) companyId
  && String.eqb (pay_status p) "paid"
  && notNull (pay_product_id p).

(** The callback of the [reduce] of [getTopProducts], and the [reduce]:
    revenue and count per product.  [acc] is an object literal: for a
    product id that names an inherited property, [acc[productId]] is
    that property, so that [!acc[productId]] is false, no entry is
    made, and [revenue] and [count] are set on the inherited value and
    not on [acc]. *)
Definition addToProduct (acc : Dict (Q * nat)) (payment : PaymentRow)
  : Dict (Q * nat) :=
  match orNull (pay_product_id payment) with
  | None => acc
  | Some productId =>
      if inherited productId then acc
      else
        update productId
          (fun old : option (Q * nat) =>
             let stats := match old with Some s => s | None => (0%Q, O) end in
             ((fst stats
               + inject_Z (amountOrZero (pay_final_amount payment)) / 100)%Q,
              S (snd stats)))
          acc
  end.

Definition groupByProduct (payments : list PaymentRow) : Dict (Q * nat) :=
  fold_left addToProduct payments [].

(** [new Map(products?.map((p) => [p.id, p.name]) || [])]: of two rows
    with one id the later wins. *)
Definition productNames (products : option (list ProductRow)) : Dict string :=
  match products with
  | Some rows => rev (map (fun p => (prod_id p, prod_name p)) rows)
  | None => []
  end.

(** [(a, b) => b.revenue - a.revenue] *)
Definition byRevenueDesc (a b : ProductMetric) : comparison :=
  (revenue b - revenue a ?= 0)%Q.

(** The callback of the [map] over [Object.entries(grouped)] *)
Definition toMetric (productMap : Dict string) (entry : string * (Q * nat))
  : ProductMetric :=
  {| productId := fst entry;
     productName := orElse (lookup (fst entry) productMap) "Unknown Product";
     revenue := round2 (fst (snd entry));
     count_ := snd (snd entry) |}.

Definition getTopProducts (db : Db) (companyId : string) (limit : Z)
  : list ProductMetric :=
  match select db payments (withProduct companyId) with
  | None | Some [] => []
  | Some payments =>
      let grouped := groupByProduct payments in
      let productIds := Object_keys grouped in
      let productMap :=
        productNames
          (select db products (fun p => oneOf (prod_id p) productIds)) in
      slice0
        (Array_sort byRevenueDesc
           (map (toMetric productMap) (Object_entries grouped)))
        limit
  end.

(** [members.value > 0 ? revenue.value / members.value : 0] *)
Definition perMember (revenue members : MetricResult) : Q :=
  if Qltb 0 (value members) then value revenue / value members else 0.

(** The ARPU of the comparison period, as [calculateARPU] computes it. *)
Definition previousARPU `{DateFns} (db : Db) (companyId : string) (now : Z)
  (startDate endDate : Z) : Q :=
  let daysDiff := daysBetween startDate endDate in
  let prevStart := subDays startDate daysDiff in
  let prevEnd := subDays endDate daysDiff in
  let prevRevenue := calculateRevenue db companyId prevStart prevEnd in
  let prevMembers := getActiveMemberCount db companyId now in
  perMember prevRevenue prevMembers.

Definition calculateARPU `{DateFns} (db : Db) (companyId : string) (now : Z)
  (startDate endDate : Z) : MetricResult :=
  let revenue := calculateRevenue db companyId startDate endDate in
  let members := getActiveMemberCount db companyId now in
  let arpu := perMember revenue members in
  let prevARPU := previousARPU db companyId now startDate endDate in
  {| value := arpu; change := percentChange arpu prevARPU |}.

(** [(revenue.value / 30) * 30] is computed on binary64 numbers: the
    two roundings do not always cancel. *)
Definition calculateMRR `{DateFns} (db : Db) (companyId : string) (now : Z)
  : MetricResult :=
  match select db memberships (isActiveMember companyId) with
  | None | Some [] => {| value := 0; change := 0 |}
  | Some _ =>
      let thirtyDaysAgo := subDays now 30 in
      let revenue := calculateRevenue db companyId thirtyDaysAgo now in
      let mrr :=
        PrimFloat.mul (PrimFloat.div (binary64 (value revenue)) 30) 30 in
      {| value := rational mrr; change := change revenue |}
  end.

Definition calculateCLV `{DateFns} (db : Db) (companyId : string) (now : Z)
  : MetricResult :=
  let arpu := calculateARPU db companyId now (subDays now 90) now in
  let churnRate := calculateChurnRate db companyId now in
  {| value :=
       if Qltb 0 churnRate then value arpu / (churnRate / 100)
       else value arpu * 12;
     change := change arpu |}.

(** *** Customer segmentation *)

Definition zeroSegments : list CustomerSegment :=
  [ {| segment := new; seg_count := 0; percentage := 0; color := "#10b981" |};
    {| segment := active; seg_count := 0; percentage := 0; color := "#3b82f6" |};
    {| segment := at_risk; seg_count := 0; percentage := 0; color := "#f59e0b" |};
    {| segment := churned; seg_count := 0; percentage := 0; color := "#ef4444" |} ].

(** [[...new Set(payments.map((p) => p.user_id).filter(Boolean))]] *)
Definition uniqueCustomerIdsOf (payments : list PaymentRow) : list string :=
  Set_of (filterBoolean (map pay_user_id payments)).

(** [m.created_at] as the response of the store carries it *)
Definition created_at `{DateFns} (m : MembershipRow) : option string :=
  option_map timestamptz (mem_created_at m).

(** [m.created_at && existing.created_at && m.created_at > existing.created_at]:
    [>] compares the two strings, code unit by code unit. *)
Definition moreRecent `{DateFns} (m existing : MembershipRow) : bool :=
  match orNull (created_at m), orNull (created_at existing) with
  | Some a, Some b => String.ltb b a
  | _, _ => false
  end.

(** The callback of the [forEach] that fills [customersByUserId], and
    the loop: one membership per user, the most recently created. *)
Definition keepMostRecent `{DateFns} (customersByUserId : Dict MembershipRow)
  (m : MembershipRow) : Dict MembershipRow :=
  match orNull (mem_user_id m) with
  | None => customersByUserId
  | Some user_id =>
      match lookup user_id customersByUserId with
      | None => customersByUserId ++ [(user_id, m)]
      | Some existing =>
          if moreRecent m existing
          then update user_id (fun _ => m) customersByUserId
          else customersByUserId
      end
  end.

Definition groupByUser `{DateFns} (customerMemberships : list MembershipRow)
  : Dict MembershipRow :=
  fold_left keepMostRecent customerMemberships [].

Definition isNew (thirtyDaysAgo : Z) (m : MembershipRow) : bool :=
  match mem_created_at m with
  | Some created_at => (thirtyDaysAgo <? created_at) && mem_valid m
  | None => false
  end.

Definition isActive (thirtyDaysAgo : Z) (m : MembershipRow) : bool :=
  mem_valid m
  && String.eqb (mem_status m) "active"
  && match mem_created_at m with
     | Some created_at => created_at <=? thirtyDaysAgo
     | None => false
     end.

Definition isAtRisk `{DateFns} (now : Z) (m : MembershipRow) : bool :=
  mem_valid m
  && match mem_expires_at m with
     | Some expires_at => (now <? expires_at) && (expires_at <? subDays now (-7))
     | None => false
     end.

Definition isChurned (m : MembershipRow) : bool :=
  negb (mem_valid m)
  || String.eqb (mem_status m) "cancelled"
  || String.eqb (mem_status m) "expired".

(** [total > 0 ? (n / total) * 100 : 0] *)
Definition percentOf (n total : nat) : Q :=
  match total with
  | O => 0
  | S _ => (inject_Z (Z.of_nat n) / inject_Z (Z.of_nat total)) * 100
  end.

Definition countWhere {R : Type} (f : R -> bool) (l : list R) : nat :=
  List.length (filter f l).

Definition getCustomerSegmentation `{DateFns} (db : Db) (companyId : string)
  (now : Z) : list CustomerSegment :=
  let thirtyDaysAgo := subDays now 30 in
  match select db payments
          (fun p => String.eqb (pay_company_id p) companyId
                    && String.eqb (pay_status p) "paid") with
  | None | Some [] => zeroSegments
  | Some payments =>
      let uniqueCustomerIds := uniqueCustomerIdsOf payments in
      match select db memberships
              (fun m => String.eqb (mem_company_id m) companyId
                        && match mem_user_id m with
                           | Some u => oneOf u uniqueCustomerIds
                           | None => false
                           end) with
      | None | Some [] => zeroSegments
      | Some customerMemberships =>
          let total := List.length uniqueCustomerIds in
          let uniqueCustomers := map snd (groupByUser customerMemberships) in
          let newCustomers := countWhere (isNew thirtyDaysAgo) uniqueCustomers in
          let activeCustomers :=
            countWhere (isActive thirtyDaysAgo) uniqueCustomers in
          let atRiskCustomers := countWhere (isAtRisk now) uniqueCustomers in
          let churnedCustomers := countWhere isChurned uniqueCustomers in
          [ {| segment := new; seg_count := newCustomers;
               percentage := percentOf newCustomers total;
               color := "#10b981" |};
            {| segment := active; seg_count := activeCustomers;
               percentage := percentOf activeCustomers total;
               color := "#3b82f6" |};
            {| segment := at_risk; seg_count := atRiskCustomers;
               percentage := percentOf atRiskCustomers total;
               color := "#f59e0b" |};
            {| segment := churned; seg_count := churnedCustomers;
               percentage := percentOf churnedCustomers total;
               color := "#ef4444" |} ]
      end
  end.

(** *** What the operations read, for the statements below *)

(** The rows [getRevenueTimeSeries] reads, and the calendar date of a
    row. *)
Definition windowRows `{DateFns} (db : Db) (companyId : string) (days now : Z)
  : list PaymentRow :=
  match select db payments (inWindow companyId (subDays now days)) with
  | Some rows => rows
  | None => []
  end.

Definition hasDate `{DateFns} (d : string) (p : PaymentRow) : Prop :=
  exists t, pay_paid_at p = Some t /\ format_yyyy_MM_dd t = d.

(** The rows [getTopProducts] reads, those of them that name product
    [k], and their revenue in major units, summed as the [reduce] does. *)
Definition productRows (db : Db) (companyId : string) : list PaymentRow :=
  match select db payments (withProduct companyId) with
  | Some rows => rows
  | None => []
  end.

Definition ofProduct (k : string) (p : PaymentRow) : bool :=
  match orNull (pay_product_id p) with
  | Some k' => String.eqb k' k
  | None => false
  end.

Definition sumMajor (rows : list PaymentRow) : Q :=
  fold_left
    (fun sum p => (sum + inject_Z (amountOrZero (pay_final_amount p)) / 100)%Q)
    rows 0%Q.

(** One step of the [reduce] of [getTopProducts] on the entry of a
    product *)
Definition bump (old : option (Q * nat)) (p : PaymentRow) : option (Q * nat) :=
  let stats := match old with Some s => s | None => (0%Q, O) end in
  Some ((fst stats + inject_Z (amountOrZero (pay_final_amount p)) / 100)%Q,
        S (snd stats)).



(** The paid payments of the company, as [getCustomerSegmentation]
    reads them *)
Definition paidRows (db : Db) (companyId : string) : list PaymentRow :=
  match select db payments
          (fun p => String.eqb (pay_company_id p) companyId
                    && String.eqb (pay_status p) "paid") with
  | Some rows => rows
  | None => []
  end.

(** The payments of a period, and their total in minor units *)
Definition periodRows (db : Db) (companyId : string) (startDate endDate : Z)
  : list PaymentRow :=
  match select db payments (paidBetween companyId startDate endDate) with
  | Some rows => rows
  | None => []
  end.

Definition totalMinor (rows : list PaymentRow) : Z :=
  fold_right (fun p total => amountOrZero (pay_final_amount p) + total) 0 rows.



End Calculator.

(* ================================================================== *)
(** ** Example data *)

Module Fixtures.
Import Store Sync Calculator.

Definition hour : Z := 60 * 60 * 1000.
Definition day : Z := 24 * hour.

(** [date-fns] for a process in UTC: a day is 86 400 000 ms, and the
    calendar date is the proleptic Gregorian one. *)
Definition digit (n : Z) : string :=
  String (ascii_of_nat (48 + Z.to_nat (n mod 10))) EmptyString.

Definition pad2 (n : Z) : string := digit (n / 10) ++ digit n.

Definition pad4 (n : Z) : string := pad2 (n / 100) ++ pad2 (n mod 100).

Definition utcDate (t : Z) : string :=
  let z := t / day + 719468 in
  let era := z / 146097 in
  let doe := z mod 146097 in
  let yoe := (doe - doe / 1460 + doe / 36524 - doe / 146096) / 365 in
  let doy := doe - (365 * yoe + yoe / 4 - yoe / 100) in
  let mp := (5 * doy + 2) / 153 in
  let d := doy - (153 * mp + 2) / 5 + 1 in
  let m := if mp <? 10 then mp + 3 else mp - 9 in
  let y := yoe + era * 400 + (if m <=? 2 then 1 else 0) in
  pad4 y ++ "-" ++ pad2 m ++ "-" ++ pad2 d.

(** The text of a timestamp of a store whose session runs in UTC, to
    the second: ['2023-11-15T00:00:00+00:00']. *)
Definition utcText (t : Z) : string :=
  let s := (t / 1000) mod 86400 in
  utcDate t ++ "T" ++ pad2 (s / 3600) ++ ":" ++ pad2 (s / 60 mod 60) ++ ":"
  ++ pad2 (s mod 60) ++ "+00:00".

Definition utc : DateFns :=
  {| subDays := fun t n => t - n * day;
     format_yyyy_MM_dd := utcDate;
     timestamptz := utcText |}.

(** 2023-11-15T00:00:00Z *)
Definition t0 : Z := 1700006400000.

Definition quiet : Faults :=
  {| getLastSync_error := None;
     upsertCompany_error := None;
     bulkInsertPayments_error := None;
     bulkInsertMemberships_error := None;
     bulkInsertProducts_error := None;
     updateLastSync_error := None |}.

Definition aClock : Clock :=
  {| atCheck := t0; atTransform := t0 + 800;
     atUpdate := t0 + 900; atReturn := t0 + 950 |}.

Definition proPass : UpAccessPass :=
  {| ap_id := Some "prod_pro"; ap_name := Some "Pro Annual";
     ap_visibility := Some "visible"; ap_stock := None;
     ap_initialStock := None |}.

(** The double nearest to 19.99 *)
Definition amount_19_99 : float := 0x1.3fd70a3d70a3dp+4%float.

Definition aReceipt : UpReceipt :=
  {| r_id := "pay_1";
     r_status := Some "succeeded";
     r_finalAmount := Some amount_19_99;
     r_currency := Some "usd";
     r_createdAt := Some 1700000000;
     r_paidAt := Some 1700000000;
     r_refundedAt := None;
     r_accessPass := Some proPass;
     r_membership_id := Some "mem_1";
     r_member_user_id := Some "user_1" |}.

Definition openReceipt : UpReceipt :=
  {| r_id := "pay_2";
     r_status := Some "open";
     r_finalAmount := Some 5%float;
     r_currency := None;
     r_createdAt := Some 1700000100;
     r_paidAt := None;
     r_refundedAt := None;
     r_accessPass := None;
     r_membership_id := None;
     r_member_user_id := None |}.

Definition aMember : UpMember :=
  {| m_id := Some "mem_1";
     m_status := Some "active";
     m_valid := Some true;
     m_createdAt := Some 1699000000;
     m_expiresAt := Some 1702000000;
     m_renewalPeriodStart := None;
     m_renewalPeriodEnd := None;
     m_cancelAtPeriodEnd := None;
     m_accessPasses := Some [proPass];
     m_user_id := Some "user_1" |}.

(** A member record that carries no id *)
Definition idlessMember : UpMember :=
  {| m_id := None;
     m_status := Some "active";
     m_valid := Some true;
     m_createdAt := Some 1699500000;
     m_expiresAt := None;
     m_renewalPeriodStart := None;
     m_renewalPeriodEnd := None;
     m_cancelAtPeriodEnd := None;
     m_accessPasses := None;
     m_user_id := Some "user_2" |}.

Definition anUpstream : Upstream :=
  {| listReceiptsForCompany :=
       fun _ _ => ApiReplies (Some [Some aReceipt; Some openReceipt]);
     listMembers :=
       fun _ => ApiReplies (Some [Some aMember; Some idlessMember]) |}.

Definition anEnv : Env :=
  {| clock := aClock; upstream := anUpstream; faults := quiet;
     raceFetch := 0; raceInsert := 0 |}.

(** The same, with a store that answers the last-sync lookup with an
    error object. *)
Definition storeDown : Env :=
  {| clock := aClock; upstream := anUpstream;
     faults :=
       {| getLastSync_error := Some (OtherValue (Some "connection refused"));
          upsertCompany_error := None;
          bulkInsertPayments_error := None;
          bulkInsertMemberships_error := None;
          bulkInsertProducts_error := None;
          updateLastSync_error := None |};
     raceFetch := 0; raceInsert := 0 |}.

Definition emptyStore : Store.t :=
  {| companies := []; payments := []; memberships := []; products := [] |}.

(** A first call, and a call ten minutes after a sync. *)
Definition neverSynced : World :=
  {| store := emptyStore; trace := []; receiptCalls := 0 |}.

Definition syncedTenMinutesAgo : World :=
  {| store :=
       {| companies := [{| c_id := "biz_1"; c_last_sync := Some (t0 - 600000) |}];
          payments := []; memberships := []; products := [] |};
     trace := []; receiptCalls := 0 |}.

(** A cache with two paid payments of one customer, on two days, and
    the membership of that customer: created five days ago, valid, and
    expiring in three days. *)
Definition firstPayment : PaymentRow :=
  {| pay_id := "pay_1"; pay_company_id := "biz_1";
     pay_product_id := Some "prod_pro"; pay_membership_id := Some "mem_1";
     pay_user_id := Some "user_1"; pay_status := "paid";
     pay_final_amount := Some 1999; pay_currency := "usd";
     pay_created_at := Some (t0 - 5 * day); pay_paid_at := Some (t0 - 5 * day);
     pay_refunded_at := None |}.

Definition secondPayment : PaymentRow :=
  {| pay_id := "pay_2"; pay_company_id := "biz_1";
     pay_product_id := Some "prod_pro"; pay_membership_id := Some "mem_1";
     pay_user_id := Some "user_1"; pay_status := "paid";
     pay_final_amount := Some 999; pay_currency := "usd";
     pay_created_at := Some (t0 - 3 * day); pay_paid_at := Some (t0 - 3 * day);
     pay_refunded_at := None |}.

Definition recentMembership : MembershipRow :=
  {| mem_id := "mem_1"; mem_company_id := "biz_1";
     mem_product_id := Some "prod_pro"; mem_user_id := Some "user_1";
     mem_status := "active"; mem_valid := true;
     mem_created_at := Some (t0 - 5 * day);
     mem_expires_at := Some (t0 + 3 * day);
     mem_renewal_period_start := None; mem_renewal_period_end := None;
     mem_cancel_at_period_end := false |}.

Definition aCache : Db :=
  {| tables :=
       {| companies := [{| c_id := "biz_1"; c_last_sync := Some t0 |}];
          payments := [firstPayment; secondPayment];
          memberships := [recentMembership];
          products := [] |};
     reachable := true |}.

(** The same cache with the membership dated a year earlier *)
Definition oldMembership : MembershipRow :=
  {| mem_id := "mem_1"; mem_company_id := "biz_1";
     mem_product_id := Some "prod_pro"; mem_user_id := Some "user_1";
     mem_status := "active"; mem_valid := true;
     mem_created_at := Some (t0 - 365 * day);
     mem_expires_at := Some (t0 + 3 * day);
     mem_renewal_period_start := None; mem_renewal_period_end := None;
     mem_cancel_at_period_end := false |}.


(** A call exactly one hour after a sync, and one a millisecond earlier *)
Definition syncedAt_ (t : Z) : World :=
  {| store :=
       {| companies := [{| c_id := "biz_1"; c_last_sync := Some t |}];
          payments := []; memberships := []; products := [] |};
     trace := []; receiptCalls := 0 |}.

End Fixtures.

(* ================================================================== *)
(** ** The sync status, and the stages of a sync *)

Module Status.
Import Store Sync.


(** The two readings of the clock in [getSyncStatus]: [Date.now()] in
    [oneHourAgo] and in [minutesSinceSync]. *)
Record StatusClock : Type := {
  atThreshold : Z;
  atElapsed : Z
}.

Record SyncStatus : Type := {
  lastSync : option Z;
  needsSync : bool;
  minutesSinceSync : option Z
}.

(** [getSyncStatus]: no [try] around the lookup. *)
Definition getSyncStatus (env : Env) (sc : StatusClock) (companyId : string)
  : Async SyncStatus :=
  lastSync <- getLastSync env companyId ;;
  let oneHourAgo := atThreshold sc - 60 * 60 * 1000 in
  ret {| lastSync := lastSync;
         needsSync :=
           match lastSync with
           | None => true
           | Some t => t <? oneHourAgo
           end;
         minutesSinceSync :=
           match lastSync with
           | Some t => Some ((atElapsed sc - t) / (1000 * 60))
           | None => None
           end |}.

(** The world once the company row is ensured, and once the three
    fetches are issued. *)
Definition ensured (companyId : string) (w : World) : World :=
  {| store := insertCompanyIfAbsent companyId (store w);
     trace := trace w ++ [UpsertCompany companyId];
     receiptCalls := receiptCalls w |}.

Definition fetched (companyId : string) (w : World) : World :=
  {| store := insertCompanyIfAbsent companyId (store w);
     trace := trace w ++ [UpsertCompany companyId; ListReceipts companyId;
                          ListMembers companyId; ListReceipts companyId];
     receiptCalls := S (S (receiptCalls w)) |}.

(** The product rows sent to the store. *)
Fixpoint productRowsWritten (tr : list Event) : list ProductRow :=
  match tr with
  | [] => []
  | UpsertProducts rows :: tr' => rows ++ productRowsWritten tr'
  | _ :: tr' => productRowsWritten tr'
  end.

(** A table after a bulk upsert that the store answered with [err]. *)
Definition upserted {R : Type} (same_key : R -> R -> bool)
  (err : option Thrown) (rows table : list R) : list R :=
  match err with
  | None => upsert same_key rows table
  | Some _ => table
  end.

(** The rows of the other companies. *)
Definition paymentsOfOthers (companyId : string) (st : Store.t)
  : list PaymentRow :=
  filter (fun p => negb (String.eqb (pay_company_id p) companyId)) (payments st).

Definition membershipsOfOthers (companyId : string) (st : Store.t)
  : list MembershipRow :=
  filter (fun m => negb (String.eqb (mem_company_id m) companyId))
    (memberships st).

(** A time value in epoch seconds that [new Date(s * 1000)] can hold. *)
Definition inDateRange (seconds : option Z) : bool :=
  match seconds with
  | None => true
  | Some s => Z.abs (s * 1000) <=? 8640000000000000
  end.

(** A node of the receipts listing that [formatPayment] can normalise. *)
Definition formattable (p : option UpReceipt) : bool :=
  match p with
  | None => false
  | Some p =>
      inDateRange (r_createdAt p) && inDateRange (r_paidAt p)
      && inDateRange (r_refundedAt p)
  end.

(** [s ? s * 1000 : null] *)
Definition millisOrNull (seconds : option Z) : option Z :=
  match seconds with
  | None => None
  | Some s => if s =? 0 then None else Some (s * 1000)
  end.

(** The first node of a receipts listing that carries product [id]. *)
Definition firstCarrying (id : string) (receipts : list (option UpReceipt))
  : option (option UpReceipt) :=
  find (fun receipt =>
          match productOf receipt with
          | Some q => String.eqb (p_id q) id
          | None => false
          end) receipts.

(** Where a row sent to the store comes from: a receipt, a member that
    carries an id, the access pass of a receipt. *)
Definition fromReceipt (companyId : string) (row : PaymentRow) : Prop :=
  exists p, formatPayment companyId (Some p) = Returns row.

Definition fromMember (companyId : string) (row : MembershipRow) : Prop :=
  exists m, truthy (m_id m) = true
            /\ formatMembership companyId (Some m) = Returns row.

Definition fromAccessPass (env : Env) (companyId : string) (row : ProductRow)
  : Prop :=
  exists r ap id,
    r_accessPass r = Some ap /\ ap_id ap = Some id /\ id <> ""
    /\ row = {| prod_id := id;
                prod_company_id := companyId;
                prod_name := orElse (ap_name ap) "Unnamed Product";
                prod_created_at := atTransform (clock env);
                prod_visibility := ap_visibility ap;
                prod_stock := ap_stock ap;
                prod_initial_stock := ap_initialStock ap |}.

(** The three texts the Whop client wrappers throw. *)
Definition fetchErrors : list string :=
  ["Failed to fetch receipts from Whop API";
   "Failed to fetch members from Whop API";
   "Failed to fetch products from Whop API"].

(** The body of the loop of [fetchAllProducts] *)
Definition addProduct (productMap : list UpProduct) (receipt : option UpReceipt)
  : list UpProduct :=
  match productOf receipt with
  | None => productMap
  | Some product =>
      if existsb (fun q => String.eqb (p_id q) (p_id product)) productMap
      then productMap
      else productMap ++ [product]
  end.

(** The company rows after the company upsert and, when the cycle has
    returned, after the timestamp update *)
Definition stamped (o : Outcome SyncResult) (cid : string) (t : Z)
  (st : Store.t) : list Company :=
  match o with
  | Returns _ => companies (setLastSync cid t (insertCompanyIfAbsent cid st))
  | Throws _ => companies (insertCompanyIfAbsent cid st)
  end.

End Status.

(* ================================================================== *)
(** ** The other reports of the calculator *)

Module Reports.
Import Store Calculator.


(** *** [getMemberGrowthTimeSeries] *)

Definition createdSince (companyId : string) (startDate : Z) (m : MembershipRow)
  : bool :=
  String.eqb (mem_company_id m) companyId
  && gte (mem_created_at m) startDate
  && notNull (mem_created_at m).

(** The callback of the [reduce], and the [reduce]: memberships per
    calendar date of creation *)
Definition countOnDate `{DateFns} (acc : Dict nat) (membership : MembershipRow)
  : Dict nat :=
  match mem_created_at membership with
  | None => acc
  | Some created_at =>
      update (format_yyyy_MM_dd created_at)
        (fun old : option nat => S (match old with Some v => v | None => O end))
        acc
  end.

Definition groupByCreationDate `{DateFns} (data : list MembershipRow) : Dict nat :=
  fold_left countOnDate data [].

(** [([date, value]) => ({ date, value })] *)
Definition toCountPoint (entry : string * nat) : TimeSeriesPoint :=
  {| date := fst entry; point_value := inject_Z (Z.of_nat (snd entry)) |}.

Definition getMemberGrowthTimeSeries `{DateFns} (db : Db) (companyId : string)
  (days : Z) (now : Z) : list TimeSeriesPoint :=
  let startDate := subDays now days in
  match select db memberships (createdSince companyId startDate) with
  | None | Some [] => []
  | Some rows =>
      let data := Array_sort (byTimestamp mem_created_at) rows in
      Array_sort byDate
        (map toCountPoint (Object_entries (groupByCreationDate data)))
  end.

(** The rows [getMemberGrowthTimeSeries] reads, and the memberships
    created on a calendar date *)
Definition growthRows `{DateFns} (db : Db) (companyId : string) (days now : Z)
  : list MembershipRow :=
  match select db memberships (createdSince companyId (subDays now days)) with
  | Some rows => rows
  | None => []
  end.

Definition createdOn `{DateFns} (d : string) (m : MembershipRow) : bool :=
  match mem_created_at m with
  | Some t => String.eqb (format_yyyy_MM_dd t) d
  | None => false
  end.

(** The payments paid on a calendar date *)
Definition paidOn `{DateFns} (d : string) (p : PaymentRow) : bool :=
  match pay_paid_at p with
  | Some t => String.eqb (format_yyyy_MM_dd t) d
  | None => false
  end.

(** The sum of the values of a series *)
Definition sumValues (series : list TimeSeriesPoint) : Q :=
  fold_right (fun pt total => (point_value pt + total)%Q) 0%Q series.

(** The sum of the counters of a dictionary *)
Definition totalCount (d : Dict nat) : nat := list_sum (map snd d).

(** The amount of a payment in major units, and the sum of the values
    of a dictionary *)
Definition major (p : PaymentRow) : Q :=
  (inject_Z (amountOrZero (pay_final_amount p)) / 100)%Q.

Definition Qtotal (d : Dict Q) : Q :=
  fold_right (fun entry sum => (snd entry + sum)%Q) 0%Q d.

Definition orZero (v : option Q) : Q :=
  match v with Some x => x | None => 0%Q end.





(** The products that [getTopProducts] ranks, the whole ranking before
    [slice], and the revenue it shows for product [k] *)
Definition rankedProducts (db : Db) (companyId : string) : list string :=
  keys (groupByProduct (productRows db companyId)).

Definition ranking (db : Db) (companyId : string) : list ProductMetric :=
  let grouped := groupByProduct (productRows db companyId) in
  Array_sort byRevenueDesc
    (map (toMetric
            (productNames
               (select db products
                  (fun p => oneOf (prod_id p) (Object_keys grouped)))))
       (Object_entries grouped)).

Definition productRevenue (db : Db) (companyId : string) (k : string) : Q :=
  round2 (sumMajor (filter (ofProduct k) (productRows db companyId))).

(** The range [getDashboardSummary] works with: the end defaults to the
    current time, the start to the first day of the month of the end. *)
Definition rangeOf (startOfMonth : Z -> Z) (startDate endDate : option Z)
  (now : Z) : Z * Z :=
  let defaultEndDate := match endDate with Some e => e | None => now end in
  (match startDate with
   | Some s => s
   | None => startOfMonth defaultEndDate
   end,
   defaultEndDate).

(** The memberships of a user, as [keepMostRecent] reads the user *)
Definition ofUser (u : string) (m : MembershipRow) : bool :=
  match orNull (mem_user_id m) with
  | Some k => String.eqb k u
  | None => false
  end.

(** What [groupByUser] keeps for user [u] out of [ms]: a membership of
    the user; the first one if that carries no creation date, and
    otherwise one whose [created_at] text no membership of the user
    exceeds in the order of strings. *)
Definition keptFor `{DateFns} (u : string) (m : MembershipRow)
  (ms : list MembershipRow) : Prop :=
  In m ms /\ ofUser u m = true
  /\ exists first,
       find (ofUser u) ms = Some first
       /\ match orNull (created_at first) with
          | None => m = first
          | Some s0 =>
              exists s, orNull (created_at m) = Some s
                        /\ String.leb s0 s = true
                        /\ forall m' s', In m' ms -> ofUser u m' = true ->
                                         orNull (created_at m') = Some s' ->
                                         String.leb s' s = true
          end.

(** The texts of the creation dates of [ms] are in the order of the
    instants they stand for, and none is empty: so it is for ISO 8601
    texts of one UTC offset and one precision whose years have four
    digits. *)
Definition textsInOrder `{DateFns} (ms : list MembershipRow) : Prop :=
  forall m t, In m ms -> mem_created_at m = Some t ->
    timestamptz t <> ""
    /\ forall m' t', In m' ms -> mem_created_at m' = Some t' -> t < t' ->
                     String.ltb (timestamptz t) (timestamptz t') = true.

End Reports.

(** *** [getDashboardSummary] *)

Module Summary.
Import Store Calculator.

Record DashboardSummary : Type := {
  revenue : MetricResult;
  memberCount : MetricResult;
  churnRate : Q;
  arpu : MetricResult;
  mrr : MetricResult;
  clv : MetricResult;
  revenueTimeSeries : list TimeSeriesPoint;
  topProducts : list ProductMetric;
  customerSegments : list CustomerSegment;
  generatedAt : Z
}.

(** [startOfMonth] stands for
    [new Date(d.getFullYear(), d.getMonth(), 1)], the first day of the
    month of [d] in the time zone of the process. *)
Definition getDashboardSummary `{DateFns} (startOfMonth : Z -> Z) (db : Db)
  (companyId : string) (startDate endDate : option Z) (now : Z)
  : DashboardSummary :=
  let defaultEndDate := match endDate with Some e => e | None => now end in
  let defaultStartDate :=
    match startDate with
    | Some s => s
    | None => startOfMonth defaultEndDate
    end in
  let daysDiff := daysBetween defaultStartDate defaultEndDate in
  {| revenue := calculateRevenue db companyId defaultStartDate defaultEndDate;
     memberCount := getActiveMemberCount db companyId now;
     churnRate := calculateChurnRate db companyId now;
     arpu := calculateARPU db companyId now defaultStartDate defaultEndDate;
     mrr := calculateMRR db companyId now;
     clv := calculateCLV db companyId now;
     revenueTimeSeries :=
       getRevenueTimeSeries db companyId
         (if 365 <? daysDiff then 365 else daysDiff) now;
     topProducts := getTopProducts db companyId 5;
     customerSegments := getCustomerSegmentation db companyId now;
     generatedAt := now |}.

End Summary.

(* ================================================================== *)
(** ** The route handlers that call the sync *)

Module Webhook.
Import Store Sync.

(** The body of a webhook once parsed, as far as the handler reads it:
    [event.type], [event.data?.company?.id] and
    [event.data?.companyId].  A body that parses to [null] has no
    properties to read. *)
Record WebhookEvent : Type := {
  ev_type : option string;
  ev_company_id : option string;
  ev_companyId : option string
}.

Inductive ParsedBody : Type :=
| NullBody
| Body (event : WebhookEvent).

Record Request : Type := {
  text : Outcome string;
  signature : option string          (* the [x-whop-signature] header *)
}.

(** A row of [webhook_events] *)
Record StoredEvent : Type := {
  se_company_id : string;
  se_event_type : option string;
  se_event_data : WebhookEvent;
  se_received_at : Z
}.

Record HandlerEnv : Type := {
  syncEnv : Env;
  JSON_parse : string -> Outcome ParsedBody;
  receivedAt : Z;
  (** the insert into [webhook_events] is refused or rejected *)
  auditFails : bool
}.

Record HandlerWorld : Type := {
  world : World;
  webhook_events : list StoredEvent
}.

Inductive Response : Type :=
| InvalidSignature
| NoCompanyId
| Processed (eventType : option string)
| Failed (message : string).

Definition status (r : Response) : Z :=
  match r with
  | InvalidSignature => 401
  | NoCompanyId => 400
  | Processed _ => 200
  | Failed _ => 500
  end.

(** [verifyWebhookSignature]: the payload is not looked at. *)
Definition verifyWebhookSignature (payload : string) (signature : option string)
  : bool :=
  truthy signature.

(** The company of an event: [data.company.id] if truthy, else
    [data.companyId] if truthy. *)
Definition companyOf (event : WebhookEvent) : option string :=
  match orNull (ev_company_id event) with
  | Some id => Some id
  | None => orNull (ev_companyId event)
  end.

(** The event types with a [case] of their own; each forces a sync. *)
Definition syncingEvents : list string :=
  ["payment.succeeded"; "payment.failed"; "payment.refunded";
   "membership.created"; "membership.updated"; "membership.cancelled";
   "membership.expired"].

Definition forcesSync (eventType : option string) : bool :=
  match eventType with
  | Some ty => existsb (String.eqb ty) syncingEvents
  | None => false
  end.

Definition recordEvent (env : HandlerEnv) (companyId : string)
  (event : WebhookEvent) (hw : HandlerWorld) : HandlerWorld :=
  if auditFails env then hw
  else {| world := world hw;
          webhook_events :=
            webhook_events hw
            ++ [{| se_company_id := companyId;
                   se_event_type := ev_type event;
                   se_event_data := event;
                   se_received_at := receivedAt env |}] |}.

Definition POST (env : HandlerEnv) (req : Request) (hw : HandlerWorld)
  : Response * HandlerWorld :=
  match text req with
  | Throws e => (Failed (errorText e), hw)
  | Returns body =>
      if negb (verifyWebhookSignature body (signature req))
      then (InvalidSignature, hw)
      else
        match JSON_parse env body with
        | Throws e => (Failed (errorText e), hw)
        | Returns NullBody =>
            (Failed "Cannot read properties of null (reading 'type')", hw)
        | Returns (Body event) =>
            match companyOf event with
            | None => (NoCompanyId, hw)
            | Some companyId =>
                let hw1 := recordEvent env companyId event hw in
                if forcesSync (ev_type event)
                then
                  match syncCompanyData (syncEnv env) companyId true (world hw1) with
                  | (Returns _, w') =>
                      (Processed (ev_type event),
                       {| world := w'; webhook_events := webhook_events hw1 |})
                  | (Throws e, w') =>
                      (Failed (errorText e),
                       {| world := w'; webhook_events := webhook_events hw1 |})
                  end
                else (Processed (ev_type event), hw1)
            end
        end
  end.

End Webhook.

Module AnalyticsRoute.
Import Store Sync Calculator.

(** [verifyUserToken] throws, or resolves to a user id that may be
    missing; the two date parameters are absent or hold a text. *)
Record Request : Type := {
  userToken : Outcome (option string);
  startDateParam : option string;
  endDateParam : option string
}.

Record RouteEnv : Type := {
  companyId : string;                 (* [NEXT_PUBLIC_WHOP_COMPANY_ID] *)
  syncEnv : Env;
  (** [new Date(text)]: [None] is an invalid date *)
  Date_parse : string -> option Z;
  startOfMonth : Z -> Z;
  (** the clock of the calculator, and of [generatedAt] *)
  atSummary : Z;
  atResponse : Z;
  (** the store answers the queries of the calculator *)
  cacheReachable : bool
}.

Record SyncInfo : Type := {
  lastSynced : Z;
  paymentsCount : nat;
  membershipsCount : nat;
  productsCount : nat
}.

Inductive Response : Type :=
| Unauthorized
| Analytics (data : Summary.DashboardSummary) (sync : SyncInfo)
    (dateRange : option Z * option Z) (generatedAt : Z)
| Failed (message : string).

Definition status (r : Response) : Z :=
  match r with
  | Unauthorized => 401
  | Analytics _ _ _ _ => 200
  | Failed _ => 500
  end.

(** [param ? new Date(param) : undefined]: absent, a date, or an
    invalid date *)
Inductive DateParam : Type :=
| Absent
| Valid (t : Z)
| Invalid.

Definition dateOf (parse : string -> option Z) (param : option string)
  : DateParam :=
  match orNull param with
  | None => Absent
  | Some text =>
      match parse text with
      | Some t => Valid t
      | None => Invalid
      end
  end.

(** [date?.toISOString() || null] in the response: an invalid date
    throws a [RangeError]. *)
Definition isoOf (date : DateParam) : Outcome (option Z) :=
  match date with
  | Absent => Returns None
  | Valid t => Returns (Some t)
  | Invalid => Throws (ErrorInstance "Invalid time value")
  end.

(** The handler, for any [getDashboardSummary]: the summary is computed
    on the store as the sync has left it, and may throw.  A rejection
    of [verifyUserToken] is not caught: it reaches the framework. *)
Definition GET (env : RouteEnv)
  (getDashboardSummary :
     World -> DateParam -> DateParam -> Outcome Summary.DashboardSummary)
  (req : Request) (w : World) : Outcome Response * World :=
  match userToken req with
  | Throws e => (Throws e, w)
  | Returns userId =>
      if negb (truthy userId) then (Returns Unauthorized, w)
      else
        let startDate := dateOf (Date_parse env) (startDateParam req) in
        let endDate := dateOf (Date_parse env) (endDateParam req) in
        match syncCompanyData (syncEnv env) (companyId env) false w with
        | (Throws e, w') => (Returns (Failed (errorText e)), w')
        | (Returns syncResult, w') =>
            match getDashboardSummary w' startDate endDate with
            | Throws e => (Returns (Failed (errorText e)), w')
            | Returns summary =>
                match isoOf startDate, isoOf endDate with
                | Returns start_, Returns end_ =>
                    (Returns
                       (Analytics summary
                          {| lastSynced := syncedAt syncResult;
                             paymentsCount := Sync.paymentsCount syncResult;
                             membershipsCount := Sync.membershipsCount syncResult;
                             productsCount := Sync.productsCount syncResult |}
                          (start_, end_) (atResponse env)),
                     w')
                | Throws e, _ | _, Throws e =>
                    (Returns (Failed (errorText e)), w')
                end
            end
        end
  end.

(** The calculator's summary on the cache of a world: it throws on an
    invalid date, at the first [toISOString]. *)
Definition summaryOf `{DateFns} (env : RouteEnv) (w : World)
  (startDate endDate : DateParam) : Outcome Summary.DashboardSummary :=
  match isoOf startDate, isoOf endDate with
  | Returns start_, Returns end_ =>
      Returns
        (Summary.getDashboardSummary (startOfMonth env)
           {| tables := store w; reachable := cacheReachable env |}
           (companyId env) start_ end_ (atSummary env))
  | Throws e, _ | _, Throws e => Throws e
  end.

End AnalyticsRoute.

(* ================================================================== *)
(** ** More example data *)

Module MoreFixtures.
Import Store Sync Calculator Fixtures Status.

(** A status check and a sync that read the same clock *)
Definition aStatusClock : StatusClock :=
  {| atThreshold := t0; atElapsed := t0 + 5 |}.

(** The Whop API is down. *)
Definition whopDown : Env :=
  {| clock := aClock;
     upstream := {| listReceiptsForCompany := fun _ _ => ApiFails;
                    listMembers := fun _ => ApiFails |};
     faults := quiet; raceFetch := 1; raceInsert := 0 |}.

(** A receipts listing with a [null] node *)
Definition holedUpstream : Upstream :=
  {| listReceiptsForCompany := fun _ _ => ApiReplies (Some [Some aReceipt; None]);
     listMembers := fun _ => ApiReplies (Some [Some aMember]) |}.

Definition holedEnv : Env :=
  {| clock := aClock; upstream := holedUpstream; faults := quiet;
     raceFetch := 0; raceInsert := 0 |}.

(** The next call, ten minutes after [anEnv]'s *)
Definition tenMinutesLater : Env :=
  {| clock := {| atCheck := t0 + 600000; atTransform := t0 + 600800;
                 atUpdate := t0 + 600900; atReturn := t0 + 600950 |};
     upstream := anUpstream; faults := quiet; raceFetch := 0; raceInsert := 0 |}.

(** A cache that holds rows of another company *)
Definition otherPayment : PaymentRow :=
  {| pay_id := "pay_1"; pay_company_id := "biz_2";
     pay_product_id := None; pay_membership_id := None;
     pay_user_id := Some "user_9"; pay_status := "paid";
     pay_final_amount := Some 500; pay_currency := "usd";
     pay_created_at := Some (t0 - day); pay_paid_at := Some (t0 - day);
     pay_refunded_at := None |}.

Definition sharedStore : World :=
  {| store := {| companies := [{| c_id := "biz_2"; c_last_sync := Some (t0 - day) |}];
                 payments := [otherPayment]; memberships := []; products := [] |};
     trace := []; receiptCalls := 0 |}.

(** A cache with paid payments for three products, and one for a
    product whose id is the name of a method of every object *)
Definition paymentFor (id productId : string) (amount : Z) : PaymentRow :=
  {| pay_id := id; pay_company_id := "biz_1";
     pay_product_id := Some productId; pay_membership_id := None;
     pay_user_id := Some "user_1"; pay_status := "paid";
     pay_final_amount := Some amount; pay_currency := "usd";
     pay_created_at := Some (t0 - day); pay_paid_at := Some (t0 - day);
     pay_refunded_at := None |}.

Definition threeProducts : Db :=
  {| tables :=
       {| companies := [{| c_id := "biz_1"; c_last_sync := Some t0 |}];
          payments := [paymentFor "pay_a" "prod_a" 1000;
                       paymentFor "pay_b" "prod_b" 3000;
                       paymentFor "pay_c" "prod_c" 2000;
                       paymentFor "pay_d" "prod_b" 500;
                       paymentFor "pay_e" "toString" 9000];
          memberships := [recentMembership];
          products :=
            [{| prod_id := "prod_b"; prod_company_id := "biz_1";
                prod_name := "Pro Annual"; prod_created_at := t0;
                prod_visibility := None; prod_stock := None;
                prod_initial_stock := None |}] |};
     reachable := true |}.






(** A webhook for a payment of [biz_1], as the parser of the example
    reads the body [event-1]; any other body does not parse. *)
Definition paymentEvent : Webhook.WebhookEvent :=
  {| Webhook.ev_type := Some "payment.succeeded";
     Webhook.ev_company_id := Some "biz_1";
     Webhook.ev_companyId := None |}.

Definition aHandlerEnv : Webhook.HandlerEnv :=
  {| Webhook.syncEnv := whopDown;
     Webhook.JSON_parse :=
       fun body =>
         if String.eqb body "event-1" then Returns (Webhook.Body paymentEvent)
         else Throws (ErrorInstance "Unexpected end of JSON input");
     Webhook.receivedAt := t0;
     Webhook.auditFails := false |}.

Definition aWebhook : Webhook.Request :=
  {| Webhook.text := Returns "event-1";
     Webhook.signature := Some "not-checked" |}.

Definition freshCache : Webhook.HandlerWorld :=
  {| Webhook.world := syncedTenMinutesAgo; Webhook.webhook_events := [] |}.

(** A request of a signed-in user, without dates, while the Whop API is
    down *)
Definition aRouteEnv : AnalyticsRoute.RouteEnv :=
  {| AnalyticsRoute.companyId := "biz_1";
     AnalyticsRoute.syncEnv := whopDown;
     AnalyticsRoute.Date_parse := fun _ => None;
     AnalyticsRoute.startOfMonth := fun _ => t0 - 14 * day;
     AnalyticsRoute.atSummary := t0 + 1000;
     AnalyticsRoute.atResponse := t0 + 2000;
     AnalyticsRoute.cacheReachable := true |}.

Definition aRequest : AnalyticsRoute.Request :=
  {| AnalyticsRoute.userToken := Returns (Some "user_1");
     AnalyticsRoute.startDateParam := None;
     AnalyticsRoute.endDateParam := None |}.

End MoreFixtures.

(* ================================================================== *)
(** * Properties of the sync coordinator *)

Module SyncFacts.
Import Store Sync Fixtures Status.

Lemma getLastSync_run env cid w :
  getLastSync env cid w =
  match getLastSync_error (faults env) with
  | Some e => (Throws e, logged (SelectLastSync cid) w)
  | None => (Returns (storedLastSync cid (store w)), logged (SelectLastSync cid) w)
  end.
Proof.
  unfold getLastSync, request, failing, throw, logged, storedLastSync. cbn.
  destruct (getLastSync_error (faults env)); cbn; [reflexivity|].
  destruct (find_company cid (store w)); reflexivity.
Qed.

Lemma upsertCompany_run env cid w :
  upsertCompany env cid w =
  match upsertCompany_error (faults env) with
  | Some e => (Throws e, logged (UpsertCompany cid) w)
  | None => (Returns tt,
             {| store := insertCompanyIfAbsent cid (store w);
                trace := trace w ++ [UpsertCompany cid];
                receiptCalls := receiptCalls w |})
  end.
Proof.
  unfold upsertCompany, request, failing, throw, modifyStore, logged. cbn.
  destruct (upsertCompany_error (faults env)); reflexivity.
Qed.

Lemma updateLastSync_run env cid w :
  updateLastSync env cid w =
  match updateLastSync_error (faults env) with
  | Some e => (Throws e, logged (UpdateLastSync cid (atUpdate (clock env))) w)
  | None => (Returns tt,
             {| store := setLastSync cid (atUpdate (clock env)) (store w);
                trace := trace w ++ [UpdateLastSync cid (atUpdate (clock env))];
                receiptCalls := receiptCalls w |})
  end.
Proof.
  unfold updateLastSync, request, failing, throw, modifyStore, logged. cbn.
  destruct (updateLastSync_error (faults env)); reflexivity.
Qed.

(** The fetches: all three calls are issued whatever they answer. *)
Lemma fetchAll_world env cid w :
  snd (fetchAll env cid w) =
  {| store := store w;
     trace := trace w ++ [ListReceipts cid; ListMembers cid; ListReceipts cid];
     receiptCalls := S (S (receiptCalls w)) |}.
Proof.
  unfold fetchAll, Promise_all3, fetchAllProducts, fetchAllPayments,
    fetchAllMemberships, try_catch, request, throw.
  cbn [bind ret Async_Monad store trace receiptCalls].
  destruct (listReceiptsForCompany (upstream env) (receiptCalls w) cid);
    destruct (listMembers (upstream env) cid);
    cbn [bind ret Async_Monad store trace receiptCalls];
    destruct (listReceiptsForCompany (upstream env) (S (receiptCalls w)) cid);
    cbn [rejections fst snd app]; rewrite <- ?app_assoc; reflexivity.
Qed.

Lemma fetchAll_returns env cid w x :
  fst (fetchAll env cid w) = Returns x ->
  exists payments members receipts,
    receiptsOf env (receiptCalls w) cid = Some payments /\
    membersOf env cid = Some members /\
    receiptsOf env (S (receiptCalls w)) cid = Some receipts /\
    x = (payments, members, extractProducts receipts).
Proof.
  unfold fetchAll, Promise_all3, fetchAllProducts, fetchAllPayments,
    fetchAllMemberships, try_catch, request, throw, receiptsOf, membersOf.
  cbn [bind ret Async_Monad store trace receiptCalls].
  destruct (listReceiptsForCompany (upstream env) (receiptCalls w) cid);
    destruct (listMembers (upstream env) cid);
    cbn [bind ret Async_Monad store trace receiptCalls];
    destruct (listReceiptsForCompany (upstream env) (S (receiptCalls w)) cid);
    cbn [rejections fst snd app]; intros H; try discriminate.
  inversion H; subst. eauto 10.
Qed.

Lemma fetchAll_complete env cid w payments members receipts :
  receiptsOf env (receiptCalls w) cid = Some payments ->
  membersOf env cid = Some members ->
  receiptsOf env (S (receiptCalls w)) cid = Some receipts ->
  fst (fetchAll env cid w) = Returns (payments, members, extractProducts receipts).
Proof.
  unfold fetchAll, Promise_all3, fetchAllProducts, fetchAllPayments,
    fetchAllMemberships, try_catch, request, throw, receiptsOf, membersOf.
  cbn [bind ret Async_Monad store trace receiptCalls].
  destruct (listReceiptsForCompany (upstream env) (receiptCalls w) cid);
    destruct (listMembers (upstream env) cid);
    cbn [bind ret Async_Monad store trace receiptCalls];
    destruct (listReceiptsForCompany (upstream env) (S (receiptCalls w)) cid);
    cbn [rejections fst snd app]; intros H1 H2 H3; try discriminate.
  inversion H1; inversion H2; inversion H3; subst. reflexivity.
Qed.

Ltac case_faults :=
  repeat match goal with
  | |- context [match ?f (faults ?env) with _ => _ end] =>
      destruct (f (faults env));
      cbn [bind ret Async_Monad store trace receiptCalls rejections fst snd]
  end.

Lemma insertAll_trace env rows mrows prows w :
  trace (snd (insertAll env rows mrows prows w)) =
    trace w ++ upsertRequests rows mrows prows
  /\ receiptCalls (snd (insertAll env rows mrows prows w)) = receiptCalls w.
Proof.
  unfold insertAll, Promise_all3, bulkInsertPayments, bulkInsertMemberships,
    bulkInsertProducts, request, failing, throw, modifyStore, upsertRequests.
  destruct rows, mrows, prows;
    cbn [bind ret Async_Monad store trace receiptCalls rejections fst snd];
    case_faults; cbn; rewrite <- ?app_assoc, ?app_nil_r; split; reflexivity.
Qed.

Lemma insertAll_returns env rows mrows prows w :
  insertFaults env rows mrows prows = [] <->
  fst (insertAll env rows mrows prows w) = Returns (tt, tt, tt).
Proof.
  unfold insertAll, Promise_all3, bulkInsertPayments, bulkInsertMemberships,
    bulkInsertProducts, request, failing, throw, modifyStore, insertFaults.
  destruct rows, mrows, prows;
    cbn [bind ret Async_Monad store trace receiptCalls rejections fst snd];
    case_faults; cbn; split; intros H; try reflexivity; try discriminate.
Qed.

Lemma insertAll_store env rows mrows prows w :
  fst (insertAll env rows mrows prows w) = Returns (tt, tt, tt) ->
  store (snd (insertAll env rows mrows prows w)) =
    with_products (upsert same_product prows (products (store w)))
      (with_memberships (upsert same_membership mrows (memberships (store w)))
         (with_payments (upsert same_payment rows (payments (store w))) (store w))).
Proof.
  unfold insertAll, Promise_all3, bulkInsertPayments, bulkInsertMemberships,
    bulkInsertProducts, request, failing, throw, modifyStore.
  destruct w as [[cs ps ms qs] tr k].
  destruct rows, mrows, prows;
    cbn [bind ret Async_Monad store trace receiptCalls rejections fst snd];
    case_faults; cbn; intros H; try reflexivity; try discriminate.
Qed.

(** After the company upsert and the timestamp update the company has
    a row, and the row carries the new timestamp. *)
Lemma find_company_setLastSync cid t cs :
  (exists c, find (fun c => String.eqb (c_id c) cid) cs = Some c) ->
  exists c,
    find (fun c => String.eqb (c_id c) cid)
      (map (fun c => if String.eqb (c_id c) cid
                     then {| c_id := c_id c; c_last_sync := Some t |}
                     else c) cs) = Some c
    /\ c_last_sync c = Some t.
Proof.
  induction cs as [|c0 cs IH]; cbn [find map]; intros (c & Hc);
    [discriminate|].
  destruct (String.eqb (c_id c0) cid) eqn:E; cbn [c_id].
  - rewrite E. eexists. split; reflexivity.
  - rewrite E. apply IH. eauto.
Qed.

Lemma find_company_inserted cid (st : Store.t) :
  exists c, find_company cid (insertCompanyIfAbsent cid st) = Some c.
Proof.
  unfold insertCompanyIfAbsent.
  destruct (find_company cid st) as [c|] eqn:E; [eauto|].
  unfold find_company, with_companies in *. cbn [companies].
  induction (companies st) as [|c0 cs IH]; cbn [find app] in *.
  - rewrite String.eqb_refl. eauto.
  - destruct (String.eqb (c_id c0) cid); [discriminate|]. apply IH. exact E.
Qed.

Lemma storedLastSync_after_update cid t (st : Store.t) rows mrows prows :
  storedLastSync cid
    (setLastSync cid t
       (with_products prows
          (with_memberships mrows
             (with_payments rows (insertCompanyIfAbsent cid st)))))
  = Some t.
Proof.
  unfold storedLastSync, find_company, setLastSync, with_companies,
    with_products, with_memberships, with_payments. cbn [companies].
  destruct (find_company_setLastSync cid t
              (companies (insertCompanyIfAbsent cid st))
              (find_company_inserted cid st)) as (c & Hc & Ht).
  rewrite Hc. exact Ht.
Qed.

(** A sync that ran to completion: what was fetched, what was sent, what
    is reported. *)
Lemma fullSync_returns env cid w r w' :
  fullSync env cid w = (Returns r, w') ->
  exists payments members receipts rows mrows,
    receiptsOf env (receiptCalls w) cid = Some payments /\
    membersOf env cid = Some members /\
    receiptsOf env (S (receiptCalls w)) cid = Some receipts /\
    mapM (formatPayment cid) payments = Returns rows /\
    mapM (formatMembership cid) (filter hasId members) = Returns mrows /\
    r = {| success := true;
           paymentsCount := List.length payments;
           membershipsCount := List.length members;
           productsCount := List.length (extractProducts receipts);
           syncedAt := atReturn (clock env);
           error := None |} /\
    trace w' =
      trace w
      ++ [UpsertCompany cid; ListReceipts cid; ListMembers cid; ListReceipts cid]
      ++ upsertRequests rows mrows
           (map (formatProduct env cid) (extractProducts receipts))
      ++ [UpdateLastSync cid (atUpdate (clock env))] /\
    memberships (store w') =
      upsert same_membership mrows (memberships (store w)) /\
    storedLastSync cid (store w') = Some (atUpdate (clock env)) /\
    stepsSucceed env cid w.
Proof.
  unfold fullSync. cbn [bind Async_Monad].
  rewrite upsertCompany_run.
  destruct (upsertCompany_error (faults env)) eqn:Hupsert; [discriminate|].
  match goal with
  | |- context [fetchAll env cid ?w1] =>
      pose proof (fetchAll_world env cid w1) as Hw;
      pose proof (fetchAll_returns env cid w1) as Hr;
      destruct (fetchAll env cid w1) as [o w2]
  end.
  cbn [fst snd store trace receiptCalls] in Hw, Hr.
  destruct o as [[[payments members] products]|]; [|discriminate].
  destruct (Hr _ eq_refl) as (p & m & rc & Hp & Hm & Hrc & Hx).
  inversion Hx; subst payments members products; clear Hx Hr.
  unfold liftOutcome.
  destruct (mapM (formatPayment cid) p) as [rows|] eqn:Erows; [|discriminate].
  destruct (mapM (formatMembership cid) (filter hasId m)) as [mrows|] eqn:Em;
    [|discriminate].
  match goal with
  | |- context [insertAll env ?a ?b ?c ?w3] =>
      pose proof (insertAll_trace env a b c w3) as [Ht Hk];
      pose proof (insertAll_store env a b c w3) as Hs;
      pose proof (insertAll_returns env a b c w3) as Hi;
      destruct (insertAll env a b c w3) as [oi w4]
  end.
  cbn [fst snd] in Ht, Hk, Hs, Hi.
  destruct oi as [[[[] []] []]|]; [|discriminate].
  specialize (Hs eq_refl). apply proj2 in Hi. specialize (Hi eq_refl).
  rewrite updateLastSync_run.
  destruct (updateLastSync_error (faults env)) eqn:Hupdate; [discriminate|].
  intros H; inversion H; subst r w'; clear H.
  exists p, m, rc, rows, mrows.
  split; [exact Hp|]. split; [exact Hm|]. split; [exact Hrc|].
  split; [exact Erows|]. split; [exact Em|]. split; [reflexivity|].
  split; [|split; [|split]].
  - cbn [trace]. rewrite Ht, Hw. cbn [trace]. rewrite <- !app_assoc. reflexivity.
  - cbn [store]. rewrite Hs, Hw. cbn. unfold insertCompanyIfAbsent.
    destruct (find_company cid (store w)); reflexivity.
  - cbn [store]. rewrite Hs, Hw. cbn [store].
    apply storedLastSync_after_update.
  - split; [exact Hupsert|]. split; [exact Hupdate|].
    exists p, m, rc, rows, mrows. auto 10.
Qed.

(** Conversely, a cycle in which no step fails returns. *)
Lemma fullSync_complete env cid w :
  stepsSucceed env cid w -> exists r w', fullSync env cid w = (Returns r, w').
Proof.
  intros (Hupsert & Hupdate & p & m & rc & rows & mrows
          & Hp & Hm & Hrc & Hrows & Hmrows & Hfaults).
  unfold fullSync. cbn [bind Async_Monad].
  rewrite upsertCompany_run, Hupsert.
  match goal with
  | |- context [fetchAll env cid ?w1] =>
      pose proof (fetchAll_complete env cid w1 p m rc Hp Hm Hrc) as Hf;
      destruct (fetchAll env cid w1) as [o w2]
  end.
  cbn [fst] in Hf. subst o. unfold liftOutcome. rewrite Hrows, Hmrows.
  match goal with
  | |- context [insertAll env ?a ?b ?c ?w3] =>
      pose proof (proj1 (insertAll_returns env a b c w3) Hfaults) as Hi;
      destruct (insertAll env a b c w3) as [oi w4]
  end.
  cbn [fst] in Hi. subst oi.
  rewrite updateLastSync_run, Hupdate. cbn [ret Async_Monad].
  do 2 eexists. reflexivity.
Qed.

(** Nothing thrown inside the [try] block escapes. *)
Lemma syncCompanyData_run env cid force w :
  syncCompanyData env cid force w =
  match syncBody env cid force w with
  | (Returns r, w') => (Returns r, w')
  | (Throws e, w') =>
      (Returns {| success := false; paymentsCount := 0; membershipsCount := 0;
                  productsCount := 0; syncedAt := atReturn (clock env);
                  error := Some (errorText e) |}, w')
  end.
Proof.
  unfold syncCompanyData, try_catch, syncFailed.
  destruct (syncBody env cid force w) as [[r|e] w']; reflexivity.
Qed.

Lemma syncBody_run env cid force w :
  syncBody env cid force w =
  match getLastSync_error (faults env) with
  | Some e => (Throws e, logged (SelectLastSync cid) w)
  | None =>
      match freshSince env force (storedLastSync cid (store w)) with
      | Some t => (Returns (skipResult t), logged (SelectLastSync cid) w)
      | None => fullSync env cid (logged (SelectLastSync cid) w)
      end
  end.
Proof.
  unfold syncBody. cbn [bind Async_Monad]. rewrite getLastSync_run.
  destruct (getLastSync_error (faults env)); [reflexivity|].
  destruct (freshSince env force (storedLastSync cid (store w))); reflexivity.
Qed.

Lemma freshSince_Some env force lastSync t :
  freshSince env force lastSync = Some t <->
  force = false /\ lastSync = Some t /\ atCheck (clock env) - t < 60 * 60 * 1000.
Proof.
  unfold freshSince. destruct lastSync as [t'|].
  - destruct force; cbn [negb andb].
    + split; [discriminate|]. intros (H & _); discriminate.
    + destruct (Z.ltb_spec (atCheck (clock env) - 60 * 60 * 1000) t').
      * split.
        -- intros H'; inversion H'; subst. repeat split; lia || reflexivity.
        -- intros (_ & H' & _). exact H'.
      * split; [discriminate|].
        intros (_ & H' & Hlt). inversion H'; subst. lia.
  - split; [discriminate|]. intros (_ & H & _); discriminate.
Qed.

Lemma upstreamCalls_app tr tr' :
  upstreamCalls (tr ++ tr') = (upstreamCalls tr + upstreamCalls tr')%nat.
Proof. unfold upstreamCalls. rewrite filter_app, length_app. reflexivity. Qed.

Lemma upstreamCalls_upsertRequests rows mrows prows :
  upstreamCalls (upsertRequests rows mrows prows) = O.
Proof. destruct rows, mrows, prows; reflexivity. Qed.

(** Once the company row is ensured, the three fetches are issued,
    however the rest of the sync goes. *)
Lemma fullSync_upstreamCalls env cid w :
  upsertCompany_error (faults env) = None ->
  upstreamCalls (trace (snd (fullSync env cid w)))
  = (upstreamCalls (trace w) + 3)%nat.
Proof.
  intros Hu. unfold fullSync. cbn [bind Async_Monad].
  rewrite upsertCompany_run, Hu.
  match goal with
  | |- context [fetchAll env cid ?w1] =>
      pose proof (fetchAll_world env cid w1) as Hw;
      destruct (fetchAll env cid w1) as [o w2]
  end.
  cbn [fst snd store trace receiptCalls] in Hw.
  assert (Hc : upstreamCalls (trace w2) = (upstreamCalls (trace w) + 3)%nat).
  { rewrite Hw. cbn [trace]. rewrite !upstreamCalls_app. cbn. lia. }
  destruct o as [[[payments members] products]|]; [|exact Hc].
  unfold liftOutcome.
  destruct (mapM (formatPayment cid) payments) as [rows|]; [|exact Hc].
  destruct (mapM (formatMembership cid) (filter hasId members)) as [mrows|];
    [|exact Hc].
  match goal with
  | |- context [insertAll env ?a ?b ?c ?w3] =>
      pose proof (insertAll_trace env a b c w3) as [Ht Hk];
      destruct (insertAll env a b c w3) as [oi w4]
  end.
  cbn [fst snd] in Ht, Hk.
  assert (Hc4 : upstreamCalls (trace w4) = (upstreamCalls (trace w) + 3)%nat).
  { rewrite Ht, upstreamCalls_app, upstreamCalls_upsertRequests. lia. }
  destruct oi as [x|]; [|exact Hc4].
  rewrite updateLastSync_run.
  destruct (updateLastSync_error (faults env)); unfold logged;
    cbn [snd trace ret Async_Monad];
    rewrite upstreamCalls_app, Hc4; cbn; lia.
Qed.


Lemma fullSync_upsert_fails env cid w e :
  upsertCompany_error (faults env) = Some e ->
  fullSync env cid w = (Throws e, logged (UpsertCompany cid) w).
Proof.
  intros Hu. unfold fullSync. cbn [bind Async_Monad].
  rewrite upsertCompany_run, Hu. reflexivity.
Qed.

(** The freshness window is open at its far end: data exactly one hour
    old is synced again, data one millisecond younger is not. *)
Example one_hour_old_data_is_synced :
  upstreamCalls
    (trace (snd (syncCompanyData anEnv "biz_1" false (syncedAt_ (t0 - hour)))))
  = 3%nat
  /\ fst (syncCompanyData anEnv "biz_1" false (syncedAt_ (t0 - hour + 1)))
     = Returns (skipResult (t0 - hour + 1)).
Proof. split; vm_compute; reflexivity. Qed.

Lemma syncBody_returns_success env cid force w r w' :
  syncBody env cid force w = (Returns r, w') -> success r = true.
Proof.
  rewrite syncBody_run.
  destruct (getLastSync_error (faults env)); [discriminate|].
  destruct (freshSince env force (storedLastSync cid (store w))).
  - intros H; inversion H; reflexivity.
  - intros H. apply fullSync_returns in H.
    destruct H as (p & m & rc & rows & mrows & _ & _ & _ & _ & _ & Hr & _).
    subst r. reflexivity.
Qed.

(** C7, as amended.  [syncCompanyData] always returns a result.  When
    anything is thrown inside the [try] block the result has
    [success = false], zero counts, and as [error] the message of the
    thrown value if it is an [Error] instance and the text
    ['Unknown error'] otherwise.  A result with [success = false]
    arises in no other way, and a result with [success = true] means
    that the last-sync lookup answered and, unless the data was fresh,
    that no step of the full cycle failed. *)
Theorem sync_never_throws env cid force w :
  exists r,
    fst (syncCompanyData env cid force w) = Returns r
    /\ (forall e w', syncBody env cid force w = (Throws e, w') ->
        r = {| success := false;
               paymentsCount := 0;
               membershipsCount := 0;
               productsCount := 0;
               syncedAt := atReturn (clock env);
               error := Some match e with
                             | ErrorInstance message => message
                             | OtherValue _ => "Unknown error"
                             end |})
    /\ (success r = false <->
        exists e w', syncBody env cid force w = (Throws e, w'))
    /\ (success r = true ->
        getLastSync_error (faults env) = None
        /\ (freshSince env force (storedLastSync cid (store w)) = None ->
            stepsSucceed env cid w)).
Proof.
  rewrite syncCompanyData_run.
  destruct (syncBody env cid force w) as [[r|e] w'] eqn:Hbody.
  - exists r. split; [reflexivity|]. split; [|split].
    + intros e w'' H; discriminate.
    + apply syncBody_returns_success in Hbody. rewrite Hbody. split.
      * discriminate.
      * intros (e & w'' & H); discriminate.
    + intros _. rewrite syncBody_run in Hbody.
      destruct (getLastSync_error (faults env)); [discriminate|].
      split; [reflexivity|]. intros Hstale. rewrite Hstale in Hbody.
      apply fullSync_returns in Hbody.
      destruct Hbody as (p & m & rc & rows & mrows
                         & _ & _ & _ & _ & _ & _ & _ & _ & _ & Hsteps).
      exact Hsteps.
  - eexists. split; [reflexivity|]. split; [|split].
    + intros e' w'' H. inversion H; subst. destruct e'; reflexivity.
    + cbn [success]. split; eauto.
    + cbn [success]. discriminate.
Qed.

Lemma sync_never_throws_witness :
  syncBody storeDown "biz_1" false syncedTenMinutesAgo
  = (Throws (OtherValue (Some "connection refused")),
     logged (SelectLastSync "biz_1") syncedTenMinutesAgo)
  /\ fst (syncCompanyData storeDown "biz_1" false syncedTenMinutesAgo)
     = Returns {| success := false; paymentsCount := 0; membershipsCount := 0;
                  productsCount := 0; syncedAt := t0 + 950;
                  error := Some "Unknown error" |}.
Proof.
  assert (Hbody : syncBody storeDown "biz_1" false syncedTenMinutesAgo
                  = (Throws (OtherValue (Some "connection refused")),
                     logged (SelectLastSync "biz_1") syncedTenMinutesAgo))
    by reflexivity.
  split; [exact Hbody|].
  destruct (sync_never_throws storeDown "biz_1" false syncedTenMinutesAgo)
    as (r & Hr & Hthrown & _).
  rewrite Hr, (Hthrown _ _ Hbody). reflexivity.
Defined.

(** The failures the body can meet; each of them is thrown. *)
Lemma lookup_failure_is_thrown env cid force w e :
  getLastSync_error (faults env) = Some e ->
  syncBody env cid force w = (Throws e, logged (SelectLastSync cid) w).
Proof. intros H. rewrite syncBody_run, H. reflexivity. Qed.

Lemma sync_error_is_not_the_message :
  fst (syncCompanyData storeDown "biz_1" false syncedTenMinutesAgo)
  = Returns {| success := false;
               paymentsCount := 0;
               membershipsCount := 0;
               productsCount := 0;
               syncedAt := t0 + 950;
               error := Some "Unknown error" |}
  /\ getLastSync_error (faults storeDown)
     = Some (OtherValue (Some "connection refused"))
  /\ ~ (forall env cid force w e message,
          getLastSync_error (faults env) = Some e ->
          e = OtherValue (Some message) \/ e = ErrorInstance message ->
          exists r, fst (syncCompanyData env cid force w) = Returns r
                    /\ success r = false /\ error r = Some message).
Proof.
  split; [reflexivity|]. split; [reflexivity|].
  intros H.
  destruct (H storeDown "biz_1" false syncedTenMinutesAgo
              (OtherValue (Some "connection refused")) "connection refused"
              eq_refl (or_introl eq_refl)) as (r & Hr & _ & He).
  vm_compute in Hr. inversion Hr; subst r. discriminate.
Qed.

Lemma mapM_length {A B : Type} (f : A -> Outcome B) l l' :
  mapM f l = Returns l' -> List.length l' = List.length l.
Proof.
  revert l'. induction l as [|x l IH]; intros l' H; cbn in H.
  - inversion H. reflexivity.
  - destruct (f x); [|discriminate].
    destruct (mapM f l); [|discriminate].
    inversion H. cbn. f_equal. apply IH. reflexivity.
Qed.

Lemma mapM_In {A B : Type} (f : A -> Outcome B) l l' y :
  mapM f l = Returns l' -> In y l' -> exists x, In x l /\ f x = Returns y.
Proof.
  revert l'. induction l as [|x l IH]; intros l' H Hy; cbn in H.
  - inversion H; subst. destruct Hy.
  - destruct (f x) as [b|] eqn:Ex; [|discriminate].
    destruct (mapM f l) as [bs|]; [|discriminate].
    inversion H; subst. destruct Hy as [<-|Hy].
    + exists x. split; [left; reflexivity|exact Ex].
    + destruct (IH bs eq_refl Hy) as (x' & Hin & Hx'). exists x'. split; [right|]; assumption.
Qed.

Lemma filter_length_lt {A : Type} (f : A -> bool) (l : list A) :
  Exists (fun x => f x = false) l ->
  (List.length (filter f l) < List.length l)%nat.
Proof.
  induction 1 as [x l Hx|x l _ IH]; cbn.
  - rewrite Hx. pose proof (filter_length_le f l). lia.
  - destruct (f x); cbn; lia.
Qed.

Lemma membershipRowsWritten_app tr tr' :
  membershipRowsWritten (tr ++ tr')
  = membershipRowsWritten tr ++ membershipRowsWritten tr'.
Proof.
  induction tr as [|ev tr IH]; [reflexivity|].
  destruct ev; cbn; rewrite IH, <- ?app_assoc; reflexivity.
Qed.

Lemma membershipRowsWritten_upsertRequests rows mrows prows :
  membershipRowsWritten (upsertRequests rows mrows prows) = mrows.
Proof.
  destruct rows, mrows, prows; cbn; rewrite ?app_nil_r; reflexivity.
Qed.

(** C10.  After a full sync that succeeded, [membershipsCount] is the
    number of member records fetched, while the rows sent to the store
    (and upserted into the memberships table) are the normalised
    records that have an id; if some fetched record has none, the
    reported count is strictly larger than the number of rows written. *)
Theorem membershipsCount_counts_fetched_members env cid force w r w' :
  syncCompanyData env cid force w = (Returns r, w') ->
  success r = true ->
  freshSince env force (storedLastSync cid (store w)) = None ->
  exists members mrows,
    membersOf env cid = Some members
    /\ membershipsCount r = List.length members
    /\ mapM (formatMembership cid) (filter hasId members) = Returns mrows
    /\ membershipRowsWritten (trace w') = membershipRowsWritten (trace w) ++ mrows
    /\ memberships (store w') = upsert same_membership mrows (memberships (store w))
    /\ List.length mrows = List.length (filter hasId members)
    /\ (Exists (fun m => hasId m = false) members ->
        (List.length mrows < membershipsCount r)%nat).
Proof.
  intros Hrun Hok Hstale.
  rewrite syncCompanyData_run, syncBody_run in Hrun.
  destruct (getLastSync_error (faults env)).
  { inversion Hrun; subst r. discriminate. }
  rewrite Hstale in Hrun.
  destruct (fullSync env cid (logged (SelectLastSync cid) w)) as [[r0|e] w0] eqn:Hf.
  2:{ inversion Hrun; subst r. discriminate. }
  inversion Hrun; subst r0 w0; clear Hrun.
  apply fullSync_returns in Hf.
  destruct Hf as (p & m & rc & rows & mrows & _ & Hm & _ & _ & Hmr & Hr & Ht & Hs & _).
  exists m, mrows.
  assert (Hlen : List.length mrows = List.length (filter hasId m))
    by (eapply mapM_length; eassumption).
  repeat split; try assumption.
  - subst r. reflexivity.
  - rewrite Ht. cbn [logged trace].
    rewrite !membershipRowsWritten_app, membershipRowsWritten_upsertRequests.
    cbn. rewrite !app_nil_r. reflexivity.
  - intros Hex. subst r. cbn [membershipsCount]. rewrite Hlen.
    apply filter_length_lt. exact Hex.
Qed.

Lemma membershipsCount_witness :
  syncCompanyData anEnv "biz_1" false neverSynced
  = (Returns {| success := true; paymentsCount := 2; membershipsCount := 2;
                productsCount := 1; syncedAt := t0 + 950; error := None |},
     snd (syncCompanyData anEnv "biz_1" false neverSynced))
  /\ freshSince anEnv false (storedLastSync "biz_1" (store neverSynced)) = None
  /\ List.length
       (membershipRowsWritten
          (trace (snd (syncCompanyData anEnv "biz_1" false neverSynced))))
     = 1%nat.
Proof.
  assert (Hrun : syncCompanyData anEnv "biz_1" false neverSynced
    = (Returns {| success := true; paymentsCount := 2; membershipsCount := 2;
                  productsCount := 1; syncedAt := t0 + 950; error := None |},
       snd (syncCompanyData anEnv "biz_1" false neverSynced)))
    by (vm_compute; reflexivity).
  split; [exact Hrun|]. split; [reflexivity|].
  destruct (membershipsCount_counts_fetched_members anEnv "biz_1" false neverSynced
              _ _ Hrun eq_refl eq_refl)
    as (members & mrows & Hm & _ & _ & Hw & _ & Hlen & _).
  rewrite Hw. cbn [neverSynced trace membershipRowsWritten app].
  rewrite Hlen. inversion Hm. reflexivity.
Defined.

(** The fields of a normalised payment. *)
Lemma formatPayment_fields cid p row :
  formatPayment cid (Some p) = Returns row ->
  pay_id row = r_id p
  /\ pay_company_id row = cid
  /\ pay_status row = paymentStatus (r_status p)
  /\ pay_final_amount row = minorUnits (r_finalAmount p)
  /\ isoOrNull (r_paidAt p) = Returns (pay_paid_at row).
Proof.
  unfold formatPayment. cbn [bind ret Outcome_Monad].
  destruct (isoOrNull (r_createdAt p)); [|discriminate].
  destruct (isoOrNull (r_paidAt p)); [|discriminate].
  destruct (isoOrNull (r_refundedAt p)); [|discriminate].
  intros H; inversion H; subst; cbn. repeat split; reflexivity.
Qed.

Lemma formattable_returns cid p :
  formattable (Some p) = true -> exists row, formatPayment cid (Some p) = Returns row.
Proof.
  assert (Hiso : forall s, inDateRange s = true ->
                           isoOrNull s = Returns (millisOrNull s)).
  { intros s. unfold isoOrNull, millisOrNull, inDateRange, toISOString.
    destruct s as [s|]; [|reflexivity].
    destruct (s =? 0); [reflexivity|]. intros ->. reflexivity. }
  cbn [formattable]. rewrite !andb_true_iff. intros ((Ha & Hb) & Hc).
  unfold formatPayment. cbn [bind ret Outcome_Monad].
  rewrite (Hiso _ Ha), (Hiso _ Hb), (Hiso _ Hc). eexists. reflexivity.
Qed.

Lemma paymentStatus_cases status :
  (status = Some "succeeded" /\ paymentStatus status = "paid")
  \/ ((status = None \/ status = Some "") /\ paymentStatus status = "unknown")
  \/ (exists s, status = Some s /\ s <> "succeeded" /\ s <> ""
                /\ paymentStatus status = s).
Proof.
  unfold paymentStatus. destruct status as [s|].
  - destruct (String.eqb_spec s "succeeded") as [->|Hs].
    + left. split; reflexivity.
    + right. destruct s as [|c s].
      * left. split; [right|]; reflexivity.
      * right. exists (String c s). repeat split; try assumption. discriminate.
  - right. left. split; [left|]; reflexivity.
Qed.

(** C6, as amended.  The status of a normalised payment is ['paid'] for
    the upstream status ['succeeded'], ['unknown'] for a missing or
    empty one, and the upstream status itself otherwise; so it is one
    of the five enumerated values exactly when the upstream status is
    missing, empty, ['succeeded'] or one of the five. *)
Theorem payment_status_of_formatted_row cid p row :
  formatPayment cid (Some p) = Returns row ->
  (r_status p = Some "succeeded" -> pay_status row = "paid")
  /\ (r_status p = None \/ r_status p = Some "" -> pay_status row = "unknown")
  /\ (forall s, r_status p = Some s -> s <> "succeeded" -> s <> "" ->
      pay_status row = s)
  /\ (In (pay_status row) spec_payment_statuses <->
      r_status p = None
      \/ exists s, r_status p = Some s
                   /\ In s ("" :: "succeeded" :: spec_payment_statuses)).
Proof.
  intros H. apply formatPayment_fields in H.
  destruct H as (_ & _ & -> & _).
  destruct (paymentStatus_cases (r_status p))
    as [(Hs & ->)|[(Hs & ->)|(s & Hs & Hn1 & Hn2 & ->)]].
  - repeat split.
    + intros [H|H]; rewrite H in Hs; discriminate.
    + intros s H N1 _. rewrite H in Hs. inversion Hs. contradiction.
    + intros _. right. exists "succeeded". split; [exact Hs|]. cbn. tauto.
    + intros _. cbn. tauto.
  - repeat split.
    + intros H. destruct Hs as [Hs|Hs]; rewrite Hs in H; discriminate.
    + intros s H _ N2. destruct Hs as [Hs|Hs]; rewrite Hs in H;
        [discriminate|inversion H; subst; contradiction].
    + intros _. destruct Hs as [Hs|Hs]; [left; exact Hs|].
      right. exists "". split; [exact Hs|]. cbn. tauto.
    + intros _. cbn. tauto.
  - repeat split.
    + intros H. rewrite H in Hs. inversion Hs; subst. contradiction.
    + intros [H|H]; rewrite H in Hs; [discriminate|].
      inversion Hs; subst. contradiction.
    + intros s' H _ _. rewrite H in Hs. inversion Hs. reflexivity.
    + intros Hin. right. exists s. split; [exact Hs|]. right. right. exact Hin.
    + intros [H|(s' & H & Hin)]; rewrite H in Hs; [discriminate|].
      inversion Hs; subst s'.
      destruct Hin as [Hin|[Hin|Hin]]; [symmetry in Hin; contradiction
                                        |symmetry in Hin; contradiction|exact Hin].
Qed.

Lemma payment_status_witness :
  formatPayment "biz_1" (Some aReceipt)
  = Returns {| pay_id := "pay_1"; pay_company_id := "biz_1";
               pay_product_id := Some "prod_pro";
               pay_membership_id := Some "mem_1";
               pay_user_id := Some "user_1";
               pay_status := "paid";
               pay_final_amount := Some 1999;
               pay_currency := "usd";
               pay_created_at := Some 1700000000000;
               pay_paid_at := Some 1700000000000;
               pay_refunded_at := None |}
  /\ In "paid" spec_payment_statuses.
Proof.
  assert (H : formatPayment "biz_1" (Some aReceipt)
  = Returns {| pay_id := "pay_1"; pay_company_id := "biz_1";
               pay_product_id := Some "prod_pro";
               pay_membership_id := Some "mem_1";
               pay_user_id := Some "user_1";
               pay_status := "paid";
               pay_final_amount := Some 1999;
               pay_currency := "usd";
               pay_created_at := Some 1700000000000;
               pay_paid_at := Some 1700000000000;
               pay_refunded_at := None |}) by (vm_compute; reflexivity).
  split; [exact H|].
  apply (payment_status_of_formatted_row _ _ _ H).
  right. exists "succeeded". split; [reflexivity|]. cbn. tauto.
Defined.

Lemma open_receipt_keeps_its_status :
  exists row,
    In row (paymentRowsWritten
              (trace (snd (syncCompanyData anEnv "biz_1" false neverSynced))))
    /\ formatPayment "biz_1" (Some openReceipt) = Returns row
    /\ pay_status row = "open"
    /\ ~ In (pay_status row) spec_payment_statuses.
Proof.
  eexists. split; [|split; [|split]].
  - vm_compute. right. left. reflexivity.
  - vm_compute. reflexivity.
  - reflexivity.
  - cbn. intros [H|[H|[H|[H|[H|[]]]]]]; discriminate.
Qed.

Lemma paymentRowsWritten_app tr tr' :
  paymentRowsWritten (tr ++ tr')
  = paymentRowsWritten tr ++ paymentRowsWritten tr'.
Proof.
  induction tr as [|ev tr IH]; [reflexivity|].
  destruct ev; cbn; rewrite IH, <- ?app_assoc; reflexivity.
Qed.

Lemma paymentRowsWritten_upsertRequests rows mrows prows :
  paymentRowsWritten (upsertRequests rows mrows prows) = rows.
Proof.
  destruct rows, mrows, prows; cbn; rewrite ?app_nil_r; reflexivity.
Qed.

Lemma formatPayment_of_record cid x row :
  formatPayment cid x = Returns row ->
  exists p, x = Some p /\ formatPayment cid (Some p) = Returns row.
Proof. destruct x as [p|]; [eauto|discriminate]. Qed.

(** Whatever becomes of a sync, the payment rows it sends to the store
    are normalised receipts. *)
Lemma fullSync_payment_rows env cid w :
  exists rows,
    paymentRowsWritten (trace (snd (fullSync env cid w)))
    = paymentRowsWritten (trace w) ++ rows
    /\ forall row, In row rows ->
       exists p, formatPayment cid (Some p) = Returns row.
Proof.
  assert (Hnil : forall tr, tr = tr ++ @nil PaymentRow)
    by (intros; rewrite app_nil_r; reflexivity).
  unfold fullSync. cbn [bind Async_Monad].
  rewrite upsertCompany_run.
  destruct (upsertCompany_error (faults env)).
  { exists []. cbn [snd logged trace].
    rewrite paymentRowsWritten_app. cbn. split; [reflexivity|intros ? []]. }
  match goal with
  | |- context [fetchAll env cid ?w1] =>
      pose proof (fetchAll_world env cid w1) as Hw;
      destruct (fetchAll env cid w1) as [o w2]
  end.
  cbn [fst snd store trace receiptCalls] in Hw.
  assert (H2 : paymentRowsWritten (trace w2) = paymentRowsWritten (trace w) ++ []).
  { rewrite Hw. cbn [trace]. rewrite !paymentRowsWritten_app. cbn.
    rewrite !app_nil_r. reflexivity. }
  destruct o as [[[payments members] products]|];
    [|exists []; split; [exact H2|intros ? []]].
  unfold liftOutcome.
  destruct (mapM (formatPayment cid) payments) as [rows|] eqn:Erows;
    [|exists []; split; [exact H2|intros ? []]].
  destruct (mapM (formatMembership cid) (filter hasId members)) as [mrows|];
    [|exists []; split; [exact H2|intros ? []]].
  match goal with
  | |- context [insertAll env ?a ?b ?c ?w3] =>
      pose proof (insertAll_trace env a b c w3) as [Ht Hk];
      destruct (insertAll env a b c w3) as [oi w4]
  end.
  cbn [fst snd] in Ht, Hk.
  assert (H4 : paymentRowsWritten (trace w4)
               = paymentRowsWritten (trace w) ++ rows).
  { rewrite Ht, paymentRowsWritten_app, paymentRowsWritten_upsertRequests, H2.
    rewrite app_nil_r. reflexivity. }
  exists rows. split.
  - destruct oi as [x|]; [|exact H4].
    rewrite updateLastSync_run.
    destruct (updateLastSync_error (faults env)); unfold logged;
      cbn [snd trace ret Async_Monad];
      rewrite paymentRowsWritten_app, H4; cbn; rewrite app_nil_r; reflexivity.
  - intros row Hin.
    destruct (mapM_In _ _ _ _ Erows Hin) as (x & _ & Hx).
    apply formatPayment_of_record in Hx. destruct Hx as (p & _ & Hp). eauto.
Qed.

Lemma sync_writes_formatted_payments env cid force w :
  exists rows,
    paymentRowsWritten (trace (snd (syncCompanyData env cid force w)))
    = paymentRowsWritten (trace w) ++ rows
    /\ forall row, In row rows ->
       exists p, formatPayment cid (Some p) = Returns row.
Proof.
  rewrite syncCompanyData_run, syncBody_run.
  assert (Hl : paymentRowsWritten (trace (logged (SelectLastSync cid) w))
               = paymentRowsWritten (trace w)).
  { cbn [logged trace]. rewrite paymentRowsWritten_app. cbn.
    apply app_nil_r. }
  destruct (getLastSync_error (faults env)).
  { exists []. cbn [snd]. rewrite Hl, app_nil_r. split; [reflexivity|intros ? []]. }
  destruct (freshSince env force (storedLastSync cid (store w))).
  { exists []. cbn [snd]. rewrite Hl, app_nil_r. split; [reflexivity|intros ? []]. }
  destruct (fullSync_payment_rows env cid (logged (SelectLastSync cid) w))
    as (rows & Hrows & Hfmt).
  exists rows. split; [|exact Hfmt].
  rewrite Hl in Hrows.
  destruct (fullSync env cid (logged (SelectLastSync cid) w)) as [[r|e] w'];
    exact Hrows.
Qed.

End SyncFacts.

(* ================================================================== *)
(** * Properties of the metrics engine *)

Module CalculatorFacts.
Import Store Calculator Fixtures Reports MoreFixtures.

(** ** [Array.prototype.sort] *)
Section SortFacts.
Context {A : Type} (cmp : A -> A -> comparison).

Lemma insert_perm x l : Permutation (insert cmp x l) (x :: l).
Proof.
  induction l as [|y l IH]; cbn; [reflexivity|].
  destruct (cmp x y); try reflexivity.
  rewrite IH. apply perm_swap.
Qed.

Lemma Array_sort_perm l : Permutation (Array_sort cmp l) l.
Proof.
  induction l as [|x l IH]; cbn; [reflexivity|].
  rewrite insert_perm. constructor. exact IH.
Qed.

Lemma Array_sort_In x l : In x (Array_sort cmp l) <-> In x l.
Proof.
  split; apply Permutation_in; [|symmetry]; apply Array_sort_perm.
Qed.

Hypothesis cmp_asym : forall a b, cmp a b = Gt -> cmp b a <> Gt.

Lemma insert_sorted x l :
  Sorted (inOrder cmp) l -> Sorted (inOrder cmp) (insert cmp x l).
Proof.
  induction 1 as [|y l Hl IH Hy]; cbn.
  - repeat constructor.
  - destruct (cmp x y) eqn:E.
    + constructor; [constructor; assumption|]. constructor. unfold inOrder.
      rewrite E. discriminate.
    + constructor; [constructor; assumption|]. constructor. unfold inOrder.
      rewrite E. discriminate.
    + constructor; [exact IH|].
      destruct l as [|z l]; cbn.
      * constructor. apply cmp_asym. exact E.
      * destruct (cmp x z); constructor;
          try (apply cmp_asym; exact E); inversion Hy; assumption.
Qed.

Lemma Array_sort_sorted l : Sorted (inOrder cmp) (Array_sort cmp l).
Proof.
  induction l as [|x l IH]; cbn; [constructor|].
  apply insert_sorted. exact IH.
Qed.
End SortFacts.

Lemma allBelow_spec n f :
  allBelow n f = true -> forall c, 0 <= c < Z.of_N n -> f c = true.
Proof.
  unfold allBelow.
  set (step := fun st : Z * bool => (fst st + 1, (snd st && f (fst st))%bool)).
  assert (Hinv : forall k,
             fst (N.iter k step (0, true)) = Z.of_N k
             /\ (snd (N.iter k step (0, true)) = true ->
                 forall c, 0 <= c < Z.of_N k -> f c = true)).
  { induction k as [|k [IH1 IH2]] using N.peano_ind.
    - split; [reflexivity|]. cbn. intros _ c Hc. lia.
    - rewrite N.iter_succ. unfold step at 1. unfold step at 2.
      cbn [fst snd]. rewrite IH1. split; [lia|].
      intros Hb c Hc. apply andb_prop in Hb. destruct Hb as [Hb Hf].
      rewrite IH1 in Hf.
      destruct (Z.eq_dec c (Z.of_N k)) as [->|Hne]; [exact Hf|].
      apply IH2; [exact Hb|lia]. }
  intros Hall. apply (proj2 (Hinv n)). exact Hall.
Qed.

Lemma firstn_Sorted {A : Type} (R : A -> A -> Prop) n l :
  Sorted R l -> Sorted R (firstn n l).
Proof.
  revert l. induction n as [|n IH]; intros l Hl; cbn; [constructor|].
  destruct Hl as [|x l Hl Hx]; [constructor|].
  constructor; [apply IH; exact Hl|].
  destruct n; cbn; [constructor|].
  destruct Hx; constructor. assumption.
Qed.

Lemma firstn_In {A : Type} n (l : list A) x : In x (firstn n l) -> In x l.
Proof.
  intros H. rewrite <- (firstn_skipn n l). apply in_or_app. left. exact H.
Qed.

Lemma slice0_incl {A : Type} (l : list A) n x : In x (slice0 l n) -> In x l.
Proof. unfold slice0. destruct (n <? 0); apply firstn_In. Qed.

Lemma slice0_length {A : Type} (l : list A) n :
  0 <= n -> Z.of_nat (List.length (slice0 l n)) <= n.
Proof.
  intros Hn. unfold slice0. destruct (Z.ltb_spec n 0); [lia|].
  rewrite length_firstn. lia.
Qed.

Lemma slice0_Sorted {A : Type} (R : A -> A -> Prop) (l : list A) n :
  Sorted R l -> Sorted R (slice0 l n).
Proof. unfold slice0. destruct (n <? 0); apply firstn_Sorted. Qed.

(** ** Dictionaries *)
Section DictFacts.
Context {V : Type}.

Lemma lookup_None key (d : Dict V) : lookup key d = None <-> ~ In key (keys d).
Proof.
  induction d as [|[k v] d IH]; cbn; [tauto|].
  destruct (String.eqb_spec k key) as [->|Hk].
  - split; [discriminate|]. intros H; exfalso; apply H; left; reflexivity.
  - rewrite IH. split; [intros H [E|Hin]; [contradiction|exact (H Hin)]|tauto].
Qed.

Lemma keys_update_In key f (d : Dict V) k :
  In k (keys (update key f d)) <-> k = key \/ In k (keys d).
Proof.
  induction d as [|[k0 v] d IH]; cbn.
  - split; [intros [H|[]]; left; symmetry; exact H|].
    intros [H|[]]; left; symmetry; exact H.
  - destruct (String.eqb_spec k0 key) as [->|Hk]; cbn.
    + split; [tauto|]. intros [->|H]; [left; reflexivity|exact H].
    + fold (keys (update key f d)). fold (keys d). rewrite IH. tauto.
Qed.

Lemma keys_update_NoDup key f (d : Dict V) :
  NoDup (keys d) -> NoDup (keys (update key f d)).
Proof.
  induction d as [|[k0 v] d IH]; cbn; intros Hd.
  - repeat constructor. intros [].
  - destruct (String.eqb_spec k0 key) as [->|Hk]; cbn; [exact Hd|].
    inversion Hd as [|? ? Hk0 Hd']; subst.
    constructor; [|apply IH; exact Hd'].
    fold (keys (update key f d)). rewrite keys_update_In.
    intros [H|H]; [contradiction|]. apply Hk0. exact H.
Qed.

Lemma lookup_update key f (d : Dict V) k :
  lookup k (update key f d)
  = if String.eqb key k then Some (f (lookup key d)) else lookup k d.
Proof.
  induction d as [|[k0 v] d IH]; cbn.
  - destruct (String.eqb key k); reflexivity.
  - destruct (String.eqb_spec k0 key) as [->|Hk]; cbn.
    + destruct (String.eqb_spec key k); reflexivity.
    + rewrite IH. destruct (String.eqb_spec key k) as [->|Hkk].
      * destruct (String.eqb_spec k0 k); [contradiction|reflexivity].
      * reflexivity.
Qed.
Lemma partition_perm {A : Type} (f : A -> bool) (l : list A) :
  Permutation (filter f l ++ filter (fun x => negb (f x)) l) l.
Proof.
  induction l as [|x l IH]; cbn; [reflexivity|].
  destruct (f x); cbn.
  - constructor. exact IH.
  - rewrite <- Permutation_middle. constructor. exact IH.
Qed.

Lemma indexed_entries (d : Dict V) :
  map snd (indexed d)
  = filter (fun entry => match arrayIndex (fst entry) with
                         | Some _ => true
                         | None => false
                         end) d.
Proof.
  induction d as [|entry d IH]; [reflexivity|].
  unfold indexed in *. cbn [flat_map filter]. rewrite map_app, IH.
  destruct (arrayIndex (fst entry)); reflexivity.
Qed.

(** An object lists each of its entries once, whatever the order. *)
Lemma Object_entries_perm (d : Dict V) : Permutation (Object_entries d) d.
Proof.
  unfold Object_entries.
  set (isIndex := fun entry : string * V =>
                    match arrayIndex (fst entry) with
                    | Some _ => true
                    | None => false
                    end).
  apply Permutation_trans
    with (filter isIndex d ++ filter (fun x => negb (isIndex x)) d);
    [|apply partition_perm].
  apply Permutation_app.
  - rewrite <- indexed_entries. apply Permutation_map, Array_sort_perm.
  - erewrite filter_ext; [reflexivity|].
    intros entry. unfold isIndex. destruct (arrayIndex (fst entry)); reflexivity.
Qed.

Lemma Object_keys_perm (d : Dict V) : Permutation (Object_keys d) (keys d).
Proof. apply Permutation_map, Object_entries_perm. Qed.

Lemma Object_entries_In entry (d : Dict V) :
  In entry (Object_entries d) <-> In entry d.
Proof.
  split; apply Permutation_in; [|symmetry]; apply Object_entries_perm.
Qed.
End DictFacts.

Lemma string_lt_trans a b c :
  String.compare a b = Lt -> String.compare b c = Lt -> String.compare a c = Lt.
Proof.
  intros H1 H2. apply String_as_OT.cmp_lt.
  apply String_as_OT.cmp_lt in H1. apply String_as_OT.cmp_lt in H2.
  eapply String_as_OT.lt_trans; eassumption.
Qed.

Lemma string_compare_asym a b :
  String.compare a b = Gt -> String.compare b a <> Gt.
Proof.
  intros H. rewrite String.compare_antisym, H. discriminate.
Qed.

(** A sorted list without repetition is strictly increasing. *)
Lemma Sorted_strict {A : Type} (key : A -> string) (l : list A) :
  Sorted (fun a b => String.compare (key a) (key b) <> Gt) l ->
  NoDup (map key l) ->
  StronglySorted (fun a b => String.compare (key a) (key b) = Lt) l.
Proof.
  intros Hs Hn. apply Sorted_StronglySorted.
  { intros a b c. apply string_lt_trans. }
  induction Hs as [|x l Hl IH Hx]; [constructor|].
  cbn in Hn. inversion Hn as [|? ? Hnotin Hn']; subst.
  constructor; [apply IH; exact Hn'|].
  destruct Hx as [|y l Hxy]; constructor.
  destruct (String.compare (key x) (key y)) eqn:E.
  - apply String.compare_eq_iff in E. exfalso. apply Hnotin. left.
    symmetry. exact E.
  - reflexivity.
  - contradiction.
Qed.

Section TimeSeries.
Context `{DateFns}.

Lemma addToDate_keys (acc : Dict Q) p :
  NoDup (keys acc) ->
  NoDup (keys (addToDate acc p))
  /\ forall d, In d (keys (addToDate acc p)) <-> In d (keys acc) \/ hasDate d p.
Proof.
  intros Hacc. unfold addToDate, hasDate. destruct (pay_paid_at p) as [t|].
  - split; [apply keys_update_NoDup; exact Hacc|].
    intros d. rewrite keys_update_In. split.
    + intros [->|Hd]; [right; eauto|left; exact Hd].
    + intros [Hd|(t' & Ht' & <-)]; [right; exact Hd|].
      inversion Ht'. left. reflexivity.
  - split; [exact Hacc|]. intros d. split; [tauto|].
    intros [Hd|(t & Ht & _)]; [exact Hd|discriminate].
Qed.

Lemma groupByDate_keys_gen (data : list PaymentRow) : forall (acc : Dict Q),
  NoDup (keys acc) ->
  NoDup (keys (fold_left addToDate data acc))
  /\ forall d, In d (keys (fold_left addToDate data acc))
               <-> In d (keys acc) \/ exists p, In p data /\ hasDate d p.
Proof.
  induction data as [|p data IH]; intros acc Hacc; cbn [fold_left].
  - split; [exact Hacc|]. intros d. split; [tauto|].
    intros [Hd|(p & [] & _)]. exact Hd.
  - destruct (addToDate_keys acc p Hacc) as [Hn Hk].
    destruct (IH (addToDate acc p) Hn) as [Hn' Hk'].
    split; [exact Hn'|]. intros d. rewrite Hk', Hk. cbn [In]. split.
    + intros [[Hd|Hd]|(q & Hq & Hd)]; eauto.
    + intros [Hd|(q & [<-|Hq] & Hd)]; eauto.
Qed.

Lemma groupByDate_keys (data : list PaymentRow) :
  NoDup (keys (groupByDate data))
  /\ forall d, In d (keys (groupByDate data))
               <-> exists p, In p data /\ hasDate d p.
Proof.
  destruct (groupByDate_keys_gen data [] (NoDup_nil _)) as [Hn Hk].
  split; [exact Hn|]. intros d. unfold groupByDate. rewrite Hk. cbn.
  split; [intros [[]|H']; exact H'|auto].
Qed.

Lemma series_dates (db : Db) cid days now :
  map date (getRevenueTimeSeries db cid days now)
  = map date
      (Array_sort byDate
         (map toPoint
            (Object_entries
               (groupByDate
                  (Array_sort (byTimestamp pay_paid_at)
                     (windowRows db cid days now)))))).
Proof.
  unfold getRevenueTimeSeries, windowRows.
  destruct (select db payments (inWindow cid (subDays now days))) as [[|p rows]|];
    reflexivity.
Qed.

(** C9.  The dates of [getRevenueTimeSeries] are exactly the calendar
    dates on which some paid payment of the window was paid, each once
    (no date without a payment appears), in strictly ascending order;
    when the payments of the window fall on exactly two distinct dates
    the series has exactly two entries. *)
Theorem revenue_time_series_is_sparse_and_sorted (db : Db) cid days now :
  let series := getRevenueTimeSeries db cid days now in
  let paidOn d :=
    exists p, In p (windowRows db cid days now) /\ hasDate d p in
  (forall d, In d (map date series) <-> paidOn d)
  /\ NoDup (map date series)
  /\ StronglySorted
       (fun a b => String.compare (date a) (date b) = Lt) series
  /\ (forall d1 d2, d1 <> d2 -> paidOn d1 -> paidOn d2 ->
      (forall d, paidOn d -> d = d1 \/ d = d2) ->
      List.length series = 2%nat).
Proof.
  intros series paidOn.
  set (data := Array_sort (byTimestamp pay_paid_at) (windowRows db cid days now)).
  set (points := map toPoint (Object_entries (groupByDate data))).
  assert (Hpoints : map date points = Object_keys (groupByDate data)).
  { unfold points, Object_keys, keys. rewrite map_map. reflexivity. }
  assert (Hseries : Permutation (map date series) (keys (groupByDate data))).
  { unfold series. rewrite series_dates. fold data. fold points.
    rewrite <- (Object_keys_perm (groupByDate data)), <- Hpoints.
    apply Permutation_map, Array_sort_perm. }
  destruct (groupByDate_keys data) as [Hn Hk].
  assert (Hdates : forall d, In d (map date series) <-> paidOn d).
  { intros d. split.
    - intros Hd. apply (Permutation_in _ Hseries) in Hd. apply Hk in Hd.
      destruct Hd as (p & Hp & Hd). exists p. split; [|exact Hd].
      apply (Array_sort_In (byTimestamp pay_paid_at)). exact Hp.
    - intros (p & Hp & Hd).
      apply (Permutation_in _ (Permutation_sym Hseries)). apply Hk.
      exists p. split; [|exact Hd].
      apply (Array_sort_In (byTimestamp pay_paid_at)). exact Hp. }
  assert (Hnodup : NoDup (map date series)).
  { eapply Permutation_NoDup; [symmetry; exact Hseries|exact Hn]. }
  split; [exact Hdates|]. split; [exact Hnodup|]. split.
  - apply Sorted_strict; [|exact Hnodup].
    assert (Hsorted : Sorted (inOrder byDate) series).
    { unfold series, getRevenueTimeSeries.
      destruct (select db payments (inWindow cid (subDays now days)))
        as [[|p rows]|]; try constructor.
      apply Array_sort_sorted. intros a b. apply string_compare_asym. }
    exact Hsorted.
  - intros d1 d2 Hne H1 H2 Hall.
    rewrite <- (length_map date series).
    assert (Hp : Permutation (map date series) [d1; d2]).
    { apply NoDup_Permutation; [exact Hnodup| |].
      - repeat constructor; cbn; [intros [E|[]]; auto|intros []].
      - intros d. rewrite Hdates. cbn. split.
        + intros Hd. destruct (Hall d Hd) as [->| ->]; auto.
        + intros [<-|[<-|[]]]; assumption. }
    apply Permutation_length in Hp. exact Hp.
Qed.
End TimeSeries.

(** ** Top products *)

Section DictMore.
Context {V : Type}.

Lemma In_lookup key (v : V) (d : Dict V) :
  NoDup (keys d) -> In (key, v) d -> lookup key d = Some v.
Proof.
  induction d as [|[k0 v0] d IH]; cbn; intros Hn Hin; [destruct Hin|].
  inversion Hn as [|? ? Hk0 Hn']; subst.
  destruct Hin as [E|Hin].
  - inversion E; subst. rewrite String.eqb_refl. reflexivity.
  - destruct (String.eqb_spec k0 key) as [->|Hk].
    + exfalso. apply Hk0. change (In (fst (key, v)) (map fst d)).
      apply in_map. exact Hin.
    + apply IH; assumption.
Qed.
End DictMore.

Lemma addToProduct_keys acc p :
  NoDup (keys acc) ->
  NoDup (keys (addToProduct acc p))
  /\ forall k, In k (keys (addToProduct acc p))
               <-> In k (keys acc)
                   \/ (orNull (pay_product_id p) = Some k /\ inherited k = false).
Proof.
  intros Hacc. unfold addToProduct.
  destruct (orNull (pay_product_id p)) as [k0|].
  - destruct (inherited k0) eqn:Hi.
    + split; [exact Hacc|]. intros k. split; [tauto|].
      intros [Hk|[E Hk]]; [exact Hk|]. inversion E; subst. congruence.
    + split; [apply keys_update_NoDup; exact Hacc|].
      intros k. rewrite keys_update_In. split.
      * intros [->|Hk]; auto.
      * intros [Hk|[E _]]; [auto|inversion E; auto].
  - split; [exact Hacc|]. intros k. split; [tauto|].
    intros [Hk|[E _]]; [exact Hk|discriminate].
Qed.

Lemma addToProduct_lookup acc p k :
  inherited k = false ->
  lookup k (addToProduct acc p)
  = if ofProduct k p then bump (lookup k acc) p else lookup k acc.
Proof.
  intros Hi. unfold addToProduct, ofProduct.
  destruct (orNull (pay_product_id p)) as [k0|]; [|reflexivity].
  destruct (inherited k0) eqn:Hi0.
  - destruct (String.eqb_spec k0 k) as [->|Hk]; [congruence|reflexivity].
  - rewrite lookup_update.
    destruct (String.eqb_spec k0 k) as [->|Hk]; reflexivity.
Qed.

Lemma groupByProduct_gen (ps : list PaymentRow) : forall acc,
  NoDup (keys acc) ->
  NoDup (keys (fold_left addToProduct ps acc))
  /\ (forall k, In k (keys (fold_left addToProduct ps acc))
                <-> In k (keys acc)
                    \/ exists p, In p ps /\ orNull (pay_product_id p) = Some k
                                 /\ inherited k = false)
  /\ (forall k, inherited k = false ->
                lookup k (fold_left addToProduct ps acc)
                = fold_left bump (filter (ofProduct k) ps) (lookup k acc)).
Proof.
  induction ps as [|p ps IH]; intros acc Hacc; cbn [fold_left filter].
  - split; [exact Hacc|]. split; [|reflexivity].
    intros k. split; [tauto|]. intros [Hk|(p & [] & _)]. exact Hk.
  - destruct (addToProduct_keys acc p Hacc) as [Hn Hk].
    destruct (IH (addToProduct acc p) Hn) as (Hn' & Hk' & Hl').
    split; [exact Hn'|]. split.
    + intros k. rewrite Hk', Hk. cbn [In]. split.
      * intros [[H|[H Hi]]|(q & Hq & H)]; eauto 6.
      * intros [H|(q & [<-|Hq] & H)]; eauto 6.
    + intros k Hi. rewrite (Hl' k Hi), (addToProduct_lookup _ _ _ Hi).
      destruct (ofProduct k p); reflexivity.
Qed.

Lemma fold_bump rows : forall s n,
  fold_left bump rows (Some (s, n))
  = Some (fold_left
            (fun sum p =>
               (sum + inject_Z (amountOrZero (pay_final_amount p)) / 100)%Q)
            rows s,
          (n + List.length rows)%nat).
Proof.
  induction rows as [|p rows IH]; intros s n; cbn [fold_left List.length].
  - rewrite Nat.add_0_r. reflexivity.
  - unfold bump at 2. cbn [fst snd]. rewrite IH. f_equal. f_equal. lia.
Qed.

Lemma groupByProduct_entry ps k stats :
  In (k, stats) (groupByProduct ps) ->
  (exists p, In p ps /\ orNull (pay_product_id p) = Some k)
  /\ stats = (sumMajor (filter (ofProduct k) ps),
              List.length (filter (ofProduct k) ps)).
Proof.
  intros Hin. unfold groupByProduct in *.
  destruct (groupByProduct_gen ps [] (NoDup_nil _)) as (Hn & Hk & Hl).
  assert (Hkey : In k (keys (fold_left addToProduct ps []))).
  { change k with (fst (k, stats)). apply in_map. exact Hin. }
  apply Hk in Hkey. destruct Hkey as [[]|(p & Hp & Hpk & Hi)].
  split; [eauto|].
  apply (In_lookup _ _ _ Hn) in Hin. rewrite (Hl k Hi) in Hin.
  cbn [lookup] in Hin.
  assert (Hf : In p (filter (ofProduct k) ps)).
  { apply filter_In. split; [exact Hp|]. unfold ofProduct. rewrite Hpk.
    apply String.eqb_refl. }
  destruct (filter (ofProduct k) ps) as [|q rows] eqn:E; [destruct Hf|].
  cbn [fold_left] in Hin. unfold bump at 2 in Hin. cbn [fst snd] in Hin.
  rewrite fold_bump in Hin. inversion Hin. reflexivity.
Qed.

Lemma byRevenueDesc_inOrder a b :
  inOrder byRevenueDesc a b <-> (revenue b <= revenue a)%Q.
Proof.
  unfold inOrder, byRevenueDesc. rewrite <- Qgt_alt. split; intros H'.
  - apply Qnot_lt_le. intros Hlt. apply H'. lra.
  - intros Hgt. lra.
Qed.

Lemma byRevenueDesc_asym a b :
  byRevenueDesc a b = Gt -> byRevenueDesc b a <> Gt.
Proof.
  unfold byRevenueDesc. rewrite <- !Qgt_alt. intros H1 H2. lra.
Qed.

Lemma Sorted_weaken {A : Type} (R R' : A -> A -> Prop) l :
  (forall a b, R a b -> R' a b) -> Sorted R l -> Sorted R' l.
Proof.
  intros HR. induction 1 as [|x l Hl IH Hx]; constructor; [exact IH|].
  destruct Hx; constructor. apply HR. assumption.
Qed.

Lemma getTopProducts_entries db cid limit m :
  In m (getTopProducts db cid limit) ->
  exists stats,
    In (productId m, stats) (groupByProduct (productRows db cid))
    /\ m = toMetric
             (productNames
                (select db products
                   (fun p => oneOf (prod_id p)
                               (Object_keys (groupByProduct (productRows db cid))))))
             (productId m, stats).
Proof.
  unfold getTopProducts, productRows.
  destruct (select db payments (withProduct cid)) as [[|p rows]|];
    try (intros []).
  intros Hin. apply slice0_incl in Hin.
  apply (proj1 (Array_sort_In byRevenueDesc _ _)) in Hin.
  apply in_map_iff in Hin. destruct Hin as ([k stats] & <- & Hin).
  apply (proj1 (Object_entries_In _ _)) in Hin.
  exists stats. split; [exact Hin|reflexivity].
Qed.

Lemma productNames_lookup_None products k :
  (forall row, In row products -> prod_id row <> k) ->
  forall f, lookup k (productNames (if true then Some (filter f products) else None))
            = None.
Proof.
  intros Hno f. apply lookup_None. unfold productNames, keys.
  rewrite map_rev, map_map. cbn [fst]. intros Hin. apply in_rev in Hin.
  apply in_map_iff in Hin. destruct Hin as (row & Hid & Hrow).
  apply filter_In in Hrow. destruct Hrow as [Hrow _].
  exact (Hno row Hrow Hid).
Qed.

Lemma NoDup_firstn {A : Type} n (l : list A) : NoDup l -> NoDup (firstn n l).
Proof.
  intros Hn. rewrite <- (firstn_skipn n l) in Hn.
  apply NoDup_app_remove_r in Hn. exact Hn.
Qed.

Lemma slice0_firstn {A : Type} (l : list A) n :
  exists k, slice0 l n = firstn k l
            /\ Z.of_nat k = if n <? 0 then Z.max 0 (Z.of_nat (List.length l) + n)
                            else n.
Proof.
  unfold slice0. destruct (Z.ltb_spec n 0).
  - eexists. split; [reflexivity|]. lia.
  - eexists. split; [reflexivity|]. lia.
Qed.

Lemma top_products_unfold db cid limit :
  getTopProducts db cid limit = slice0 (ranking db cid) limit.
Proof.
  unfold getTopProducts, ranking, productRows.
  destruct (select db payments (withProduct cid)) as [[|p rows]|];
    try reflexivity; unfold slice0; cbn; destruct (limit <? 0); rewrite ?firstn_nil;
    reflexivity.
Qed.

Lemma StronglySorted_app_cross {A : Type} (R : A -> A -> Prop) l1 : forall l2,
  StronglySorted R (l1 ++ l2) ->
  forall a b, In a l1 -> In b l2 -> R a b.
Proof.
  induction l1 as [|x l1 IH]; intros l2 Hs a b Ha Hb; [destruct Ha|].
  cbn [app] in Hs. inversion Hs as [|? ? Hs' Hall]; subst.
  destruct Ha as [<-|Ha].
  - rewrite Forall_forall in Hall. apply Hall. apply in_app_iff. right. exact Hb.
  - eapply IH; eassumption.
Qed.

Lemma StronglySorted_app_l {A : Type} (R : A -> A -> Prop) l1 : forall l2,
  StronglySorted R (l1 ++ l2) -> StronglySorted R l1.
Proof.
  induction l1 as [|x l1 IH]; intros l2 Hs; [constructor|].
  cbn [app] in Hs. inversion Hs as [|? ? Hs' Hall]; subst.
  constructor; [eapply IH; exact Hs'|].
  rewrite Forall_forall in *. intros y Hy. apply Hall. apply in_app_iff.
  left. exact Hy.
Qed.

Lemma revenue_order_trans (a b c : ProductMetric) :
  (revenue b <= revenue a)%Q -> (revenue c <= revenue b)%Q ->
  (revenue c <= revenue a)%Q.
Proof. intros Hab Hbc. lra. Qed.

(** The whole ranking: one entry for each product of the grouping, in
    descending order of revenue. *)
Lemma ranking_facts db cid :
  Permutation (map productId (ranking db cid)) (rankedProducts db cid)
  /\ NoDup (rankedProducts db cid)
  /\ StronglySorted (fun a b => (revenue b <= revenue a)%Q) (ranking db cid)
  /\ (forall m, In m (ranking db cid) ->
        revenue m = productRevenue db cid (productId m))
  /\ (forall k, In k (rankedProducts db cid) <->
        exists p, In p (productRows db cid)
                  /\ orNull (pay_product_id p) = Some k
                  /\ inherited k = false).
Proof.
  unfold ranking, rankedProducts.
  set (grouped := groupByProduct (productRows db cid)).
  set (pm := productNames _).
  destruct (groupByProduct_gen (productRows db cid) [] (NoDup_nil _))
    as (Hn & Hk & _).
  fold (groupByProduct (productRows db cid)) in Hn, Hk. fold grouped in Hn, Hk.
  split; [|split; [exact Hn|split; [|split]]].
  - eapply Permutation_trans; [apply Permutation_map, Array_sort_perm|].
    rewrite map_map. cbn [toMetric productId]. apply (Object_keys_perm grouped).
  - apply Sorted_StronglySorted.
    { intros a b c. apply revenue_order_trans. }
    eapply Sorted_weaken; [apply byRevenueDesc_inOrder|].
    apply Array_sort_sorted. exact byRevenueDesc_asym.
  - intros m Hin. apply (proj1 (Array_sort_In byRevenueDesc _ _)) in Hin.
    apply in_map_iff in Hin. destruct Hin as ([k stats] & <- & Hin).
    apply (proj1 (Object_entries_In _ _)) in Hin.
    destruct (groupByProduct_entry _ _ _ Hin) as (_ & ->).
    reflexivity.
  - intros k. rewrite Hk. cbn [keys map In].
    split; [intros [[]|Hp]; exact Hp|auto].
Qed.

(** C8, as amended.  For a limit that is not negative, [getTopProducts]
    returns at most [limit] entries: the first [limit] of the ranking,
    or all of it when it is shorter.  The entries are in descending
    order of revenue; each stands for a product named by some paid
    payment of the company and carries the count and the rounded
    revenue of the paid payments that name it; an entry whose product
    has no row in the products table is called ['Unknown Product'].
    The ranking holds one entry for each product id that a paid payment
    of the company carries, the names inherited from [Object.prototype]
    apart, and a product that is left out has at most the revenue of
    each entry that is returned. *)
Theorem top_products_limited_sorted_restricted db cid limit :
  0 <= limit ->
  let top := getTopProducts db cid limit in
  let ranked := rankedProducts db cid in
  Z.of_nat (List.length top) <= limit
  /\ Z.of_nat (List.length top) = Z.min limit (Z.of_nat (List.length ranked))
  /\ StronglySorted (fun a b => (revenue b <= revenue a)%Q) top
  /\ (forall m, In m top ->
      let paidFor := filter (ofProduct (productId m)) (productRows db cid) in
      (exists p, In p (payments (tables db))
                 /\ pay_company_id p = cid
                 /\ pay_status p = "paid"
                 /\ pay_product_id p = Some (productId m))
      /\ count_ m = List.length paidFor
      /\ revenue m = round2 (sumMajor paidFor))
  /\ (forall m, In m top ->
      (forall row, In row (products (tables db)) -> prod_id row <> productId m) ->
      productName m = "Unknown Product")
  /\ (forall k, In k ranked <->
        exists p, In p (productRows db cid)
                  /\ orNull (pay_product_id p) = Some k
                  /\ inherited k = false)
  /\ (forall k, In k ranked ->
        In k (map productId top)
        \/ forall m, In m top -> (productRevenue db cid k <= revenue m)%Q).
Proof.
  intros Hlimit top ranked.
  destruct (ranking_facts db cid) as (Hperm & Hnd & Hsorted & Hrev & Hranked).
  assert (Htop : exists k, top = firstn k (ranking db cid) /\ Z.of_nat k = limit).
  { unfold top. rewrite top_products_unfold.
    destruct (slice0_firstn (ranking db cid) limit) as (k & Hk & Hkn).
    exists k. split; [exact Hk|].
    destruct (Z.ltb_spec limit 0); [lia|exact Hkn]. }
  destruct Htop as (k & Htop & Hk).
  assert (Hlen : List.length (ranking db cid) = List.length ranked).
  { rewrite <- (length_map productId). apply Permutation_length. exact Hperm. }
  split; [|split; [|split; [|split; [|split; [|split]]]]].
  - rewrite Htop, length_firstn. lia.
  - rewrite Htop, length_firstn, Hlen. lia.
  - rewrite Htop. rewrite <- (firstn_skipn k (ranking db cid)) in Hsorted.
    eapply StronglySorted_app_l. exact Hsorted.
  - intros m Hm paidFor.
    destruct (getTopProducts_entries _ _ _ _ Hm) as (stats & Hin & Hmk).
    destruct (groupByProduct_entry _ _ _ Hin) as ((p & Hp & Hpk) & Hstats).
    split.
    + exists p. unfold productRows, select in Hp.
      destruct (reachable db); [|destruct Hp].
      apply filter_In in Hp. destruct Hp as [Hp Hw]. unfold withProduct in Hw.
      apply andb_prop in Hw. destruct Hw as [Hw _].
      apply andb_prop in Hw. destruct Hw as [Hc Hs].
      apply String.eqb_eq in Hc. apply String.eqb_eq in Hs.
      repeat split; try assumption.
      unfold orNull in Hpk. destruct (truthy (pay_product_id p)); [exact Hpk|].
      discriminate.
    + rewrite Hmk, Hstats. split; reflexivity.
  - intros m Hm Hno.
    destruct (getTopProducts_entries _ _ _ _ Hm) as (stats & _ & Hmk).
    rewrite Hmk. cbn [productName toMetric fst]. unfold select.
    destruct (reachable db); [|reflexivity].
    rewrite (productNames_lookup_None _ _ Hno). reflexivity.
  - exact Hranked.
  - intros k' Hin.
    apply (Permutation_in _ (Permutation_sym Hperm)) in Hin.
    apply in_map_iff in Hin. destruct Hin as (m' & Hid & Hm').
    rewrite <- (firstn_skipn k (ranking db cid)) in Hm'.
    apply in_app_iff in Hm'. destruct Hm' as [Hm'|Hm'].
    + left. rewrite Htop, <- Hid. apply in_map. exact Hm'.
    + right. intros m Hm. rewrite Htop in Hm.
      rewrite <- (firstn_skipn k (ranking db cid)) in Hsorted.
      pose proof (StronglySorted_app_cross _ _ _ Hsorted m m' Hm Hm') as Hle.
      cbv beta in Hle. rewrite <- Hid, <- (Hrev m'); [exact Hle|].
      rewrite <- (firstn_skipn k (ranking db cid)). apply in_app_iff.
      right. exact Hm'.
Qed.

(** ** Percentage change *)




Lemma inject_nat_pos n : (0 < n)%nat -> (0 < inject_Z (Z.of_nat n))%Q.
Proof. intros Hn. rewrite <- (Zlt_Qlt 0). lia. Qed.

Section Change.
Context `{DateFns}.

End Change.

(** ** ARPU *)



Section ARPU.
Context `{DateFns}.



End ARPU.

(** ** Customer segmentation *)

Lemma keys_app {V : Type} (d d' : Dict V) : keys (d ++ d') = keys d ++ keys d'.
Proof. apply map_app. Qed.

Section Grouping.
Context `{DateFns}.

Lemma keepMostRecent_keys acc m :
  NoDup (keys acc) ->
  NoDup (keys (keepMostRecent acc m))
  /\ forall k, In k (keys (keepMostRecent acc m)) ->
               In k (keys acc) \/ mem_user_id m = Some k.
Proof.
  intros Hacc. unfold keepMostRecent.
  destruct (orNull (mem_user_id m)) as [u|] eqn:Eu; [|split; [exact Hacc|auto]].
  assert (Hu : mem_user_id m = Some u).
  { unfold orNull in Eu. destruct (truthy (mem_user_id m)); [exact Eu|discriminate]. }
  destruct (lookup u acc) as [existing|] eqn:El.
  - destruct (moreRecent m existing).
    + split; [apply keys_update_NoDup; exact Hacc|].
      intros k Hk. apply keys_update_In in Hk.
      destruct Hk as [->|Hk]; auto.
    + split; [exact Hacc|auto].
  - apply lookup_None in El. rewrite keys_app. cbn [keys map fst]. split.
    + apply NoDup_app; [exact Hacc|repeat constructor; intros []|].
      intros k Hk [<-|[]]. contradiction.
    + intros k Hk. apply in_app_or in Hk.
      destruct Hk as [Hk|[<-|[]]]; auto.
Qed.

Lemma groupByUser_keys_gen ms : forall acc,
  NoDup (keys acc) ->
  NoDup (keys (fold_left keepMostRecent ms acc))
  /\ forall k, In k (keys (fold_left keepMostRecent ms acc)) ->
               In k (keys acc) \/ exists m, In m ms /\ mem_user_id m = Some k.
Proof.
  induction ms as [|m ms IH]; intros acc Hacc; cbn [fold_left].
  - split; [exact Hacc|auto].
  - destruct (keepMostRecent_keys acc m Hacc) as [Hn Hk].
    destruct (IH _ Hn) as [Hn' Hk'].
    split; [exact Hn'|]. intros k Hin.
    destruct (Hk' k Hin) as [Hin'|(m' & Hm' & Hu)].
    + destruct (Hk k Hin') as [Hacc'|Hu]; [auto|].
      right. exists m. split; [left; reflexivity|exact Hu].
    + right. exists m'. split; [right; exact Hm'|exact Hu].
Qed.

Lemma oneOf_In s values : oneOf s values = true -> In s values.
Proof.
  unfold oneOf. intros Hex. apply existsb_exists in Hex.
  destruct Hex as (v & Hv & Heq). apply String.eqb_eq in Heq. subst. exact Hv.
Qed.

Lemma countWhere_le {R : Type} (f : R -> bool) l :
  (countWhere f l <= List.length l)%nat.
Proof. apply filter_length_le. Qed.

(** At most one customer is kept per paying user. *)
Lemma uniqueCustomers_bound cid ids (ms : list MembershipRow) :
  let customerMemberships :=
    filter (fun m => String.eqb (mem_company_id m) cid
                     && match mem_user_id m with
                        | Some u => oneOf u ids
                        | None => false
                        end) ms in
  NoDup ids ->
  (List.length (map snd (groupByUser customerMemberships)) <= List.length ids)%nat.
Proof.
  intros customerMemberships Hids. rewrite length_map.
  rewrite <- (length_map fst). fold (keys (groupByUser customerMemberships)).
  destruct (groupByUser_keys_gen customerMemberships [] (NoDup_nil _))
    as [Hn Hk].
  apply NoDup_incl_length; [exact Hn|].
  intros k Hin. destruct (Hk k Hin) as [[]|(m & Hm & Hu)].
  apply filter_In in Hm. destruct Hm as [_ Hm].
  apply andb_prop in Hm. destruct Hm as [_ Hm]. rewrite Hu in Hm.
  apply oneOf_In. exact Hm.
Qed.

End Grouping.

Lemma Set_of_NoDup l : NoDup (Set_of l).
Proof.
  induction l as [|x l IH]; cbn; [constructor|].
  constructor; [|apply NoDup_filter; exact IH].
  intros Hin. apply filter_In in Hin. destruct Hin as [_ Hx].
  rewrite String.eqb_refl in Hx. discriminate.
Qed.

Ltac each_of_four tac :=
  apply Forall_cons; [tac|apply Forall_cons; [tac|apply Forall_cons;
    [tac|apply Forall_cons; [tac|apply Forall_nil]]]].

Section Segmentation.
Context `{DateFns}.

(** C4, as amended.  [getCustomerSegmentation] returns four entries,
    for new, active, at_risk and churned in this order; with no paid
    payment each has count 0 and percentage 0; and each of the four
    counts, taken alone, is at most the number of unique paying
    customers (so that their sum is at most four times that number). *)
Theorem segmentation_has_four_rows_bounded_by_customers (db : Db) cid now :
  let segments := getCustomerSegmentation db cid now in
  let total := List.length (uniqueCustomerIdsOf (paidRows db cid)) in
  map segment segments = [new; active; at_risk; churned]
  /\ (paidRows db cid = [] ->
      Forall (fun s => seg_count s = O /\ percentage s = 0%Q) segments)
  /\ Forall (fun s => (seg_count s <= total)%nat) segments
  /\ (list_sum (map seg_count segments) <= 4 * total)%nat.
Proof.
  intros segments total.
  assert (Hzero : Forall (fun s => seg_count s = O /\ percentage s = 0%Q)
                    zeroSegments).
  { each_of_four ltac:(split; reflexivity). }
  assert (Hbound : map segment segments = [new; active; at_risk; churned]
                   /\ Forall (fun s => (seg_count s <= total)%nat) segments).
  { unfold segments, total, getCustomerSegmentation, paidRows, select.
    destruct (reachable db);
      [|split; [reflexivity|each_of_four ltac:(apply Nat.le_0_l)]].
    destruct (filter _ (payments (tables db))) as [|p rows];
      [split; [reflexivity|each_of_four ltac:(apply Nat.le_0_l)]|].
    set (ids := uniqueCustomerIdsOf (p :: rows)).
    pose proof (uniqueCustomers_bound cid ids (memberships (tables db))
                  (Set_of_NoDup _)) as Hu.
    cbv zeta in Hu.
    destruct (filter _ (memberships (tables db))) as [|m ms];
      [split; [reflexivity|each_of_four ltac:(apply Nat.le_0_l)]|].
    split; [reflexivity|].
    each_of_four ltac:(cbn [seg_count];
      eapply Nat.le_trans; [apply countWhere_le|exact Hu]). }
  destruct Hbound as [Hshape Hle].
  split; [exact Hshape|]. split; [|split; [exact Hle|]].
  - intros Hnone. unfold segments, getCustomerSegmentation.
    unfold paidRows in Hnone.
    destruct (select db payments _) as [[|p rows]|];
      [exact Hzero|discriminate|exact Hzero].
  - destruct segments as [|s1 [|s2 [|s3 [|s4 [|s5 l]]]]]; try discriminate.
    inversion Hle as [|? ? H1 Hle1]; subst.
    inversion Hle1 as [|? ? H2 Hle2]; subst.
    inversion Hle2 as [|? ? H3 Hle3]; subst.
    inversion Hle3 as [|? ? H4 _]; subst.
    cbn. lia.
Qed.
End Segmentation.

(** ** The operations on the example cache *)

Example segmentation_of_the_example :
  map (fun s => (segment s, seg_count s))
      (getCustomerSegmentation (H := utc) aCache "biz_1" t0)
  = [(new, 1%nat); (active, O); (at_risk, 1%nat); (churned, O)].
Proof. vm_compute. reflexivity. Qed.

(** The one paying customer of the example is both new and at risk:
    the four counts add up to two. *)
Lemma overlapping_segments_exceed_the_customers :
  let segments := getCustomerSegmentation (H := utc) aCache "biz_1" t0 in
  let total := List.length (uniqueCustomerIdsOf (paidRows aCache "biz_1")) in
  map seg_count segments = [1; 0; 1; 0]%nat
  /\ total = 1%nat
  /\ ~ (list_sum (map seg_count segments) <= total)%nat.
Proof.
  cbv zeta. split; [vm_compute; reflexivity|].
  split; [vm_compute; reflexivity|].
  vm_compute. intros Hle. inversion Hle as [|? Hle']. inversion Hle'.
Qed.

Example top_products_of_the_example :
  getTopProducts aCache "biz_1" 5
  = [{| productId := "prod_pro"; productName := "Unknown Product";
        revenue := 29.98; count_ := 2 |}].
Proof. vm_compute. reflexivity. Qed.

Example top_products_of_three :
  map (fun m => (productId m, productName m, revenue m, count_ m))
      (getTopProducts threeProducts "biz_1" 2)
  = [("prod_b", "Pro Annual", 35.00%Q, 2%nat);
     ("prod_c", "Unknown Product", 20.00%Q, 1%nat)].
Proof. vm_compute. reflexivity. Qed.

Lemma top_products_witness :
  0 <= 2
  /\ Z.of_nat (List.length (getTopProducts threeProducts "biz_1" 2)) = 2
  /\ (In "prod_a" (map productId (getTopProducts threeProducts "biz_1" 2))
      \/ forall m, In m (getTopProducts threeProducts "biz_1" 2) ->
                   (10 <= revenue m)%Q).
Proof.
  split; [lia|].
  destruct (top_products_limited_sorted_restricted threeProducts "biz_1" 2)
    as (_ & Hlen & _ & _ & _ & Hranked & Hrest); [lia|].
  split.
  - rewrite Hlen. vm_compute. reflexivity.
  - destruct (Hrest "prod_a") as [Hin|Hle].
    + apply Hranked. exists (paymentFor "pay_a" "prod_a" 1000).
      split; [left; reflexivity|]. split; reflexivity.
    + left. exact Hin.
    + right. intros m Hm. specialize (Hle m Hm).
      assert (Hten : (productRevenue threeProducts "biz_1" "prod_a" == 10)%Q)
        by (vm_compute; reflexivity).
      rewrite <- Hten. exact Hle.
Defined.

(** With a negative limit [slice] drops entries from the end of the
    ranking: of three products, a limit of [-1] returns two. *)
Lemma negative_limit_returns_entries :
  map productId (getTopProducts threeProducts "biz_1" (-1)) = ["prod_b"; "prod_c"]
  /\ ~ (Z.of_nat (List.length (getTopProducts threeProducts "biz_1" (-1))) <= -1).
Proof.
  split; [vm_compute; reflexivity|]. vm_compute. intros Hle. apply Hle. reflexivity.
Qed.

Example time_series_of_the_example :
  getRevenueTimeSeries (H := utc) aCache "biz_1" 30 t0
  = [{| date := "2023-11-10"; point_value := 19.99 |};
     {| date := "2023-11-12"; point_value := 9.99 |}].
Proof. vm_compute. reflexivity. Qed.

Example revenue_of_the_example :
  calculateRevenue (H := utc) aCache "biz_1" (t0 - 4 * day) t0
  = {| value := 9.99; change := ((999 - 1999) / 1999 * 100)%Q |}.
Proof. vm_compute. reflexivity. Qed.

Lemma revenue_time_series_witness :
  List.length (getRevenueTimeSeries (H := utc) aCache "biz_1" 30 t0) = 2%nat.
Proof.
  destruct (revenue_time_series_is_sparse_and_sorted (H := utc)
              aCache "biz_1" 30 t0) as (_ & _ & _ & Htwo).
  apply (Htwo "2023-11-10" "2023-11-12").
  - discriminate.
  - exists firstPayment. split; [left; reflexivity|].
    exists (t0 - 5 * day). split; reflexivity.
  - exists secondPayment. split; [right; left; reflexivity|].
    exists (t0 - 3 * day). split; reflexivity.
  - intros d (p & Hp & t & Ht & Hd).
    destruct Hp as [<-|[<-|[]]]; inversion Ht; subst t; subst d; auto.
Defined.


Lemma segmentation_witness :
  Forall (fun s => (seg_count s <= 1)%nat)
    (getCustomerSegmentation (H := utc) aCache "biz_1" t0).
Proof.
  destruct (segmentation_has_four_rows_bounded_by_customers (H := utc)
              aCache "biz_1" t0) as (_ & _ & Hle & _).
  exact Hle.
Defined.


End CalculatorFacts.

(* ================================================================== *)
(** * From the upstream amount to the reported revenue *)

Module RoundTrip.
Import Store Sync Calculator Fixtures Status.

Lemma fold_left_amounts rows : forall a,
  fold_left (fun sum p => sum + amountOrZero (pay_final_amount p)) rows a
  = a + totalMinor rows.
Proof.
  induction rows as [|p rows IH]; intros a; cbn [fold_left totalMinor fold_right].
  - lia.
  - rewrite IH. fold (totalMinor rows). lia.
Qed.

Lemma periodRevenue_total db cid s e :
  periodRevenue db cid s e = totalMinor (periodRows db cid s e).
Proof.
  unfold periodRevenue, periodRows, sumAmounts.
  destruct (select db payments (paidBetween cid s e)); [|reflexivity].
  apply fold_left_amounts.
Qed.

Lemma Qfloor_half z : Qfloor (inject_Z z + (1 # 2)) = z.
Proof.
  unfold Qfloor, Qplus, inject_Z. cbn [Qnum Qden].
  change (Z.pos (1 * 2)) with 2.
  rewrite Z.mul_1_l. replace (z * 2 + 1) with (1 + z * 2) by lia.
  rewrite Z.div_add by lia. reflexivity.
Qed.

Lemma Qfloor_scaled sm e :
  Qfloor (inject_Z sm * 2 ^ e + (1 # 2))
  = if 0 <=? e then sm * 2 ^ e else (2 * sm + 2 ^ (- e)) / 2 ^ (1 - e).
Proof.
  destruct (Z.leb_spec 0 e) as [He|He].
  - rewrite <- (Zpower_Qpower 2 e He), <- inject_Z_mult. apply Qfloor_half.
  - assert (Hk : 0 <= - e) by lia.
    assert (Hpos : 0 < 2 ^ (- e)) by (apply Z.pow_pos_nonneg; lia).
    replace e with (- (- e)) at 1 by lia.
    rewrite Qpower_opp, <- (Zpower_Qpower 2 (- e) Hk).
    replace (1 - e) with (Z.succ (- e)) by lia. rewrite Z.pow_succ_r by lia.
    rewrite Zdiv_Qdiv. apply Qfloor_comp.
    rewrite !inject_Z_plus, !inject_Z_mult.
    assert (Hq : ~ inject_Z (2 ^ (- e)) == 0).
    { intros H.
      pose proof (proj1 (inject_Z_injective (2 ^ (- e)) 0) H) as H0. lia. }
    field. exact Hq.
Qed.

(** [Math.round] can be computed on the bits. *)
Lemma Math_round_bits_correct x : Math_round x = Math_round_bits x.
Proof.
  unfold Math_round, Math_round_bits, exactValue.
  destruct (Prim2SF x) as [s|s| |s m e]; cbn [option_map]; try reflexivity.
  f_equal. apply Qfloor_scaled.
Qed.

(** Every amount of whole cents up to 1000.00, given upstream as the
    nearest binary64 number, is stored as exactly that many cents. *)
Lemma two_decimal_amounts_are_stored_exactly c :
  0 <= c <= 100000 -> minorUnits (Some (ofCents c)) = Some c.
Proof.
  intros Hc.
  assert (Hall : allBelow 100001 storedAs = true) by (vm_compute; reflexivity).
  pose proof (CalculatorFacts.allBelow_spec _ _ Hall c) as Hone.
  unfold storedAs in Hone. unfold minorUnits.
  rewrite Math_round_bits_correct.
  destruct (Math_round_bits _) as [c'|]; [|discriminate Hone; cbn; lia].
  f_equal. apply Z.eqb_eq. apply Hone. cbn. lia.
Qed.

(** C2.  Every receipt whose time values a [Date] can hold is
    normalised, and its row stores [Math.round] of the upstream amount
    times 100, that is the integer [floor (x + 1/2)] of the binary64
    product [x]; [calculateRevenue] reports the sum of the stored
    amounts of the period divided by 100.  A receipt whose upstream
    amount is the double 19.99 is stored as 1999, a revenue query that
    covers only the row of that receipt reports 1999 / 100 = 19.99,
    and the binary64 quotient of 1999 by 100 is again the double 19.99.
    More generally every upstream amount of whole cents up to 1000.00
    is stored as exactly that many cents. *)
Theorem monetary_round_trip `{DateFns} :
  (forall cid p,
      formattable (Some p) = true ->
      exists row,
        formatPayment cid (Some p) = Returns row
        /\ pay_final_amount row
           = option_map (fun v => Qfloor (v + (1 # 2)))
               (exactValue (PrimFloat.mul (numberOrZero (r_finalAmount p)) 100)))
  /\ (forall cid p row,
      formatPayment cid (Some p) = Returns row ->
      pay_final_amount row
      = option_map (fun v => Qfloor (v + (1 # 2)))
          (exactValue (PrimFloat.mul (numberOrZero (r_finalAmount p)) 100)))
  /\ (forall db cid s e,
      value (calculateRevenue db cid s e)
      = (inject_Z (totalMinor (periodRows db cid s e)) / 100)%Q)
  /\ (forall cid p,
      r_finalAmount p = Some amount_19_99 ->
      formattable (Some p) = true ->
      exists row,
        formatPayment cid (Some p) = Returns row
        /\ pay_final_amount row = Some 1999)
  /\ (forall db cid s e p row,
      r_finalAmount p = Some amount_19_99 ->
      formatPayment cid (Some p) = Returns row ->
      periodRows db cid s e = [row] ->
      value (calculateRevenue db cid s e) = 19.99%Q)
  /\ ofCents 1999 = amount_19_99
  /\ (forall c cid p,
      0 <= c <= 100000 ->
      r_finalAmount p = Some (ofCents c) ->
      formattable (Some p) = true ->
      exists row,
        formatPayment cid (Some p) = Returns row
        /\ pay_final_amount row = Some c).
Proof.
  assert (Hfmt : forall cid p row,
             formatPayment cid (Some p) = Returns row ->
             pay_final_amount row = minorUnits (r_finalAmount p)).
  { intros cid p row Hrow.
    apply SyncFacts.formatPayment_fields in Hrow. tauto. }
  assert (Hval : forall db cid s e,
             value (calculateRevenue db cid s e)
             = (inject_Z (totalMinor (periodRows db cid s e)) / 100)%Q).
  { intros db cid s e. unfold calculateRevenue. cbn [value].
    rewrite periodRevenue_total. reflexivity. }
  assert (H1999 : minorUnits (Some amount_19_99) = Some 1999)
    by (vm_compute; reflexivity).
  split; [|split; [|split; [exact Hval|split; [|split; [|split]]]]].
  - intros cid p Hp.
    destruct (SyncFacts.formattable_returns cid p Hp) as (row & Hrow).
    exists row. split; [exact Hrow|]. rewrite (Hfmt _ _ _ Hrow). reflexivity.
  - intros cid p row Hrow. rewrite (Hfmt _ _ _ Hrow). reflexivity.
  - intros cid p Hamount Hp.
    destruct (SyncFacts.formattable_returns cid p Hp) as (row & Hrow).
    exists row. split; [exact Hrow|].
    rewrite (Hfmt _ _ _ Hrow), Hamount. exact H1999.
  - intros db cid s e p row Hamount Hrow Hrows. rewrite Hval, Hrows.
    cbn [totalMinor fold_right].
    rewrite (Hfmt _ _ _ Hrow), Hamount, H1999. reflexivity.
  - reflexivity.
  - intros c cid p Hc Hamount Hp.
    destruct (SyncFacts.formattable_returns cid p Hp) as (row & Hrow).
    exists row. split; [exact Hrow|].
    rewrite (Hfmt _ _ _ Hrow), Hamount.
    apply two_decimal_amounts_are_stored_exactly. exact Hc.
Qed.

(** The receipt of the example is normalised to a row of 1999 cents;
    the example sync puts that row in the cache, and the revenue of
    the day reads it back as 19.99. *)
Lemma monetary_round_trip_witness :
  let cache :=
    {| tables := store (snd (syncCompanyData anEnv "biz_1" false neverSynced));
       reachable := true |} in
  r_finalAmount aReceipt = Some amount_19_99
  /\ formattable (Some aReceipt) = true
  /\ exists row,
       formatPayment "biz_1" (Some aReceipt) = Returns row
       /\ pay_final_amount row = Some 1999
       /\ periodRows cache "biz_1" (t0 - day) t0 = [row]
       /\ value (calculateRevenue (H := utc) cache "biz_1" (t0 - day) t0)
          = 19.99%Q.
Proof.
  intros cache.
  destruct (monetary_round_trip (H := utc)) as (_ & _ & _ & Hstore & Hreport & _).
  split; [reflexivity|]. split; [reflexivity|].
  destruct (Hstore "biz_1" aReceipt eq_refl eq_refl) as (row & Hrow & Hamount).
  assert (Hrows : periodRows cache "biz_1" (t0 - day) t0 = [row]).
  { pose proof Hrow as Hrow'. vm_compute in Hrow'.
    inversion Hrow' as [Hrow'']. vm_compute. reflexivity. }
  exists row. split; [exact Hrow|]. split; [exact Hamount|].
  split; [exact Hrows|].
  apply (Hreport cache "biz_1" _ _ aReceipt row eq_refl Hrow Hrows).
Defined.

(** The same through the store: the example sync writes the receipt of
    19.99, and the revenue of the day before reads it back. *)
Example round_trip_through_the_store :
  let cache :=
    {| tables := store (snd (syncCompanyData anEnv "biz_1" false neverSynced));
       reachable := true |} in
  map pay_final_amount (payments (tables cache)) = [Some 1999; Some 500]
  /\ value (calculateRevenue (H := utc) cache "biz_1" (t0 - day) t0) = 19.99%Q.
Proof. vm_compute. split; reflexivity. Qed.

End RoundTrip.

(* ================================================================== *)
(** * Further properties of the sync coordinator *)

Module SyncCycle.
Import Store Sync Fixtures Status MoreFixtures.

Lemma fetchAll_run_world env cid w :
  snd (fetchAll env cid (ensured cid w)) = fetched cid w.
Proof.
  rewrite SyncFacts.fetchAll_world. unfold ensured, fetched.
  cbn [store trace receiptCalls]. rewrite <- app_assoc. reflexivity.
Qed.

(** The store after the three bulk upserts, whatever they answer: each
    runs to completion on its own table. *)
Lemma insertAll_store_any env rows mrows prows w :
  store (snd (insertAll env rows mrows prows w)) =
    with_products
      (upserted same_product (bulkInsertProducts_error (faults env)) prows
         (products (store w)))
      (with_memberships
         (upserted same_membership (bulkInsertMemberships_error (faults env))
            mrows (memberships (store w)))
         (with_payments
            (upserted same_payment (bulkInsertPayments_error (faults env))
               rows (payments (store w)))
            (store w))).
Proof.
  unfold insertAll, Promise_all3, bulkInsertPayments, bulkInsertMemberships,
    bulkInsertProducts, request, failing, throw, modifyStore, upserted.
  destruct w as [[cs ps ms qs] tr k].
  destruct rows, mrows, prows;
    cbn [bind ret Async_Monad store trace receiptCalls rejections fst snd];
    SyncFacts.case_faults; cbn; reflexivity.
Qed.

(** [fullSync], step by step. *)
Lemma fullSync_run env cid w :
  fullSync env cid w =
  match upsertCompany_error (faults env) with
  | Some e => (Throws e, logged (UpsertCompany cid) w)
  | None =>
      match fst (fetchAll env cid (ensured cid w)) with
      | Throws e => (Throws e, fetched cid w)
      | Returns (payments, members, products) =>
          match mapM (formatPayment cid) payments with
          | Throws e => (Throws e, fetched cid w)
          | Returns rows =>
              match mapM (formatMembership cid) (filter hasId members) with
              | Throws e => (Throws e, fetched cid w)
              | Returns mrows =>
                  let prows := map (formatProduct env cid) products in
                  match insertAll env rows mrows prows (fetched cid w) with
                  | (Throws e, w4) => (Throws e, w4)
                  | (Returns _, w4) =>
                      match updateLastSync_error (faults env) with
                      | Some e =>
                          (Throws e,
                           logged (UpdateLastSync cid (atUpdate (clock env))) w4)
                      | None =>
                          (Returns {| success := true;
                                      paymentsCount := List.length payments;
                                      membershipsCount := List.length members;
                                      productsCount := List.length products;
                                      syncedAt := atReturn (clock env);
                                      error := None |},
                           {| store := setLastSync cid (atUpdate (clock env))
                                         (store w4);
                              trace := trace w4
                                       ++ [UpdateLastSync cid (atUpdate (clock env))];
                              receiptCalls := receiptCalls w4 |})
                      end
                  end
              end
          end
      end
  end.
Proof.
  unfold fullSync. cbn [bind Async_Monad].
  rewrite SyncFacts.upsertCompany_run.
  destruct (upsertCompany_error (faults env)); [reflexivity|].
  fold (ensured cid w).
  pose proof (fetchAll_run_world env cid w) as Hw.
  destruct (fetchAll env cid (ensured cid w)) as [o w2].
  cbn [fst snd] in *. subst w2.
  destruct o as [[[payments members] products]|]; [|reflexivity].
  unfold liftOutcome.
  destruct (mapM (formatPayment cid) payments) as [rows|]; [|reflexivity].
  destruct (mapM (formatMembership cid) (filter hasId members)) as [mrows|];
    [|reflexivity].
  cbv zeta.
  destruct (insertAll env rows mrows (map (formatProduct env cid) products)
              (fetched cid w)) as [[x|e] w4]; [|reflexivity].
  rewrite SyncFacts.updateLastSync_run.
  destruct (updateLastSync_error (faults env)); reflexivity.
Qed.


(** *** Upserts *)

Section UpsertFacts.
Context {R : Type} (same_key : R -> R -> bool).

Lemma upsert1_In r table : In r (upsert1 same_key r table).
Proof.
  induction table as [|x table IH]; cbn [upsert1]; [left; reflexivity|].
  destruct (same_key r x); [left; reflexivity|right; exact IH].
Qed.

Lemma upsert1_keeps r table x :
  In x table -> same_key r x = false -> In x (upsert1 same_key r table).
Proof.
  induction table as [|y table IH]; cbn [upsert1]; intros Hin Hk; [destruct Hin|].
  destruct Hin as [->|Hin].
  - rewrite Hk. left; reflexivity.
  - destruct (same_key r y); [right; exact Hin|right; apply IH; assumption].
Qed.

Lemma upsert1_from r table x :
  In x (upsert1 same_key r table) -> x = r \/ In x table.
Proof.
  induction table as [|y table IH]; cbn [upsert1]; intros Hin.
  - destruct Hin as [<-|[]]. left; reflexivity.
  - destruct (same_key r y).
    + destruct Hin as [<-|Hin]; [left; reflexivity|right; right; exact Hin].
    + destruct Hin as [<-|Hin]; [right; left; reflexivity|].
      destruct (IH Hin) as [->|H]; [left; reflexivity|right; right; exact H].
Qed.

(** A stored row keeps its place: it stays, or the row with its key
    takes it. *)
Lemma upsert1_key_kept r table x :
  In x table ->
  In x (upsert1 same_key r table)
  \/ (same_key r x = true /\ In r (upsert1 same_key r table)).
Proof.
  intros Hin. destruct (same_key r x) eqn:Hk.
  - right. split; [reflexivity|apply upsert1_In].
  - left. apply upsert1_keeps; assumption.
Qed.

Lemma upsert1_length r table :
  (List.length table <= List.length (upsert1 same_key r table))%nat.
Proof.
  induction table as [|y table IH]; cbn [upsert1 List.length]; [lia|].
  destruct (same_key r y); cbn [List.length]; lia.
Qed.

Lemma upsert1_filter (keep : R -> bool) r table :
  keep r = false ->
  (forall x, same_key r x = true -> keep x = false) ->
  filter keep (upsert1 same_key r table) = filter keep table.
Proof.
  intros Hr Hsame.
  induction table as [|y table IH]; cbn [upsert1 filter].
  - rewrite Hr. reflexivity.
  - destruct (same_key r y) eqn:Hk; cbn [filter].
    + rewrite Hr, (Hsame _ Hk). reflexivity.
    + rewrite IH. reflexivity.
Qed.

Lemma upsert_nil table : upsert same_key [] table = table.
Proof. reflexivity. Qed.

Lemma upsert_cons r rows table :
  upsert same_key (r :: rows) table
  = upsert same_key rows (upsert1 same_key r table).
Proof. reflexivity. Qed.

Lemma upsert_from rows : forall table x,
  In x (upsert same_key rows table) -> In x rows \/ In x table.
Proof.
  induction rows as [|r rows IH]; intros table x; [right; assumption|].
  rewrite upsert_cons. intros Hin.
  destruct (IH _ _ Hin) as [H|H]; [left; right; exact H|].
  destruct (upsert1_from _ _ _ H) as [->|H']; [left; left; reflexivity|].
  right; exact H'.
Qed.

Lemma upsert_keeps rows : forall table x,
  In x table -> Forall (fun r => same_key r x = false) rows ->
  In x (upsert same_key rows table).
Proof.
  induction rows as [|r rows IH]; intros table x Hin Hall; [exact Hin|].
  rewrite upsert_cons. inversion Hall; subst.
  apply IH; [apply upsert1_keeps; assumption|assumption].
Qed.

(** Rows with pairwise distinct keys are all in the table after their
    upsert. *)
Lemma upsert_In rows : forall table x,
  ForallOrdPairs (fun a b => same_key b a = false) rows ->
  In x rows -> In x (upsert same_key rows table).
Proof.
  induction rows as [|r rows IH]; intros table x Hd Hin; [destruct Hin|].
  rewrite upsert_cons. inversion Hd; subst.
  destruct Hin as [->|Hin].
  - apply upsert_keeps; [apply upsert1_In|assumption].
  - apply IH; assumption.
Qed.

Lemma upsert_length rows : forall table,
  (List.length table <= List.length (upsert same_key rows table))%nat.
Proof.
  induction rows as [|r rows IH]; intros table; [cbn; lia|].
  rewrite upsert_cons. pose proof (upsert1_length r table).
  specialize (IH (upsert1 same_key r table)). lia.
Qed.

Lemma upsert_filter (keep : R -> bool) rows : forall table,
  Forall (fun r => keep r = false
                   /\ forall x, same_key r x = true -> keep x = false) rows ->
  filter keep (upsert same_key rows table) = filter keep table.
Proof.
  induction rows as [|r rows IH]; intros table Hall; [reflexivity|].
  rewrite upsert_cons. inversion Hall as [|? ? [Hr Hs] Hrest]; subst.
  rewrite IH by assumption. apply upsert1_filter; assumption.
Qed.

(** The key of a stored row is still there after an upsert, when
    having the same key is an equivalence. *)
Lemma upsert_key_kept rows :
  (forall a, same_key a a = true) ->
  (forall a b c, same_key a b = true -> same_key b c = true ->
                 same_key a c = true) ->
  forall table x, In x table ->
  exists x', In x' (upsert same_key rows table) /\ same_key x' x = true.
Proof.
  intros Hrefl Htrans.
  assert (Hgen : forall rows table x x0,
             In x0 table -> same_key x0 x = true ->
             exists x', In x' (upsert same_key rows table)
                        /\ same_key x' x = true).
  { clear rows. induction rows as [|r rows IH]; intros table x x0 Hin Hk.
    - exists x0. split; assumption.
    - rewrite upsert_cons.
      destruct (upsert1_key_kept r table x0 Hin) as [H|[Hs H]].
      + apply (IH _ x x0); assumption.
      + apply (IH _ x r); [exact H|]. apply (Htrans _ x0); assumption. }
  intros table x Hin. apply (Hgen rows table x x); [exact Hin|apply Hrefl].
Qed.

End UpsertFacts.

Lemma upserted_from {R : Type} (same_key : R -> R -> bool) err rows table x :
  In x (upserted same_key err rows table) -> In x rows \/ In x table.
Proof.
  unfold upserted. destruct err; [right; assumption|apply upsert_from].
Qed.

Lemma upserted_length {R : Type} (same_key : R -> R -> bool) err rows table :
  (List.length table <= List.length (upserted same_key err rows table))%nat.
Proof.
  unfold upserted. destruct err; [lia|apply upsert_length].
Qed.

Lemma upserted_filter {R : Type} (same_key : R -> R -> bool) keep err rows table :
  Forall (fun r => keep r = false
                   /\ forall x, same_key r x = true -> keep x = false) rows ->
  filter keep (upserted same_key err rows table) = filter keep table.
Proof.
  unfold upserted. destruct err; [reflexivity|apply upsert_filter].
Qed.

Lemma upserted_key_kept {R : Type} (same_key : R -> R -> bool) err rows table x :
  (forall a, same_key a a = true) ->
  (forall a b c, same_key a b = true -> same_key b c = true ->
                 same_key a c = true) ->
  In x table ->
  exists x', In x' (upserted same_key err rows table) /\ same_key x' x = true.
Proof.
  intros Hrefl Htrans Hin. unfold upserted. destruct err.
  - exists x. split; [exact Hin|apply Hrefl].
  - apply upsert_key_kept; assumption.
Qed.

Lemma tables_ensured cid (st : Store.t) :
  payments (insertCompanyIfAbsent cid st) = payments st
  /\ memberships (insertCompanyIfAbsent cid st) = memberships st
  /\ products (insertCompanyIfAbsent cid st) = products st.
Proof.
  unfold insertCompanyIfAbsent. destruct (find_company cid st); auto.
Qed.

Lemma productRowsWritten_app tr tr' :
  productRowsWritten (tr ++ tr')
  = productRowsWritten tr ++ productRowsWritten tr'.
Proof.
  induction tr as [|ev tr IH]; [reflexivity|].
  destruct ev; cbn [app productRowsWritten]; rewrite IH, ?app_assoc; reflexivity.
Qed.

Lemma productRowsWritten_upsertRequests rows mrows prows :
  productRowsWritten (upsertRequests rows mrows prows) = prows.
Proof.
  destruct rows, mrows, prows; cbn; rewrite ?app_nil_r; reflexivity.
Qed.

Lemma mapM_Forall {A B : Type} (f : A -> Outcome B) l l' :
  mapM f l = Returns l' ->
  Forall (fun y => exists x, In x l /\ f x = Returns y) l'.
Proof.
  intros H. apply Forall_forall. intros y Hy.
  apply (SyncFacts.mapM_In f l l' y H Hy).
Qed.

Lemma formatMembership_of_record cid x row :
  formatMembership cid x = Returns row ->
  exists m, x = Some m /\ formatMembership cid (Some m) = Returns row.
Proof. destruct x as [m|]; [eauto|discriminate]. Qed.

(** *** The products of a receipts listing *)


Lemma extractProducts_fold receipts :
  extractProducts receipts = fold_left addProduct receipts [].
Proof. reflexivity. Qed.

Lemma existsb_id id (l : list UpProduct) :
  existsb (fun q => String.eqb (p_id q) id) l = true <-> In id (map p_id l).
Proof.
  rewrite existsb_exists, in_map_iff. split.
  - intros (q & Hq & E). apply String.eqb_eq in E. eauto.
  - intros (q & E & Hq). exists q. split; [exact Hq|]. apply String.eqb_eq. exact E.
Qed.

Lemma fold_addProduct receipts : forall acc,
  NoDup (map p_id acc) ->
  let products := fold_left addProduct receipts acc in
  NoDup (map p_id products)
  /\ (forall q, In q products <->
        In q acc
        \/ (~ In (p_id q) (map p_id acc)
            /\ exists receipt, firstCarrying (p_id q) receipts = Some receipt
                               /\ productOf receipt = Some q))
  /\ (List.length products <= List.length acc + List.length receipts)%nat.
Proof.
  induction receipts as [|receipt receipts IH]; intros acc Hnd; cbn zeta.
  - cbn [fold_left firstCarrying find List.length]. split; [exact Hnd|]. split; [|lia].
    intros q. split; [auto|]. intros [H|(_ & x & Hx & _)]; [exact H|discriminate].
  - cbn [fold_left List.length].
    assert (Hstep : NoDup (map p_id (addProduct acc receipt))).
    { unfold addProduct. destruct (productOf receipt) as [product|]; [|exact Hnd].
      destruct (existsb _ acc) eqn:E; [exact Hnd|].
      rewrite map_app. cbn [map].
      apply NoDup_app; [exact Hnd|repeat constructor; intros []|].
      intros a Ha [<-|[]]. apply existsb_id in Ha. congruence. }
    destruct (IH _ Hstep) as (IHnd & IHin & IHlen). clear IH.
    split; [exact IHnd|]. split.
    + intros q. rewrite IHin. clear IHin IHnd IHlen.
      unfold firstCarrying. cbn [find]. fold (firstCarrying (p_id q) receipts).
      unfold addProduct in *.
      destruct (productOf receipt) as [product|] eqn:Hp.
      * destruct (existsb (fun q0 => String.eqb (p_id q0) (p_id product)) acc) eqn:E.
        -- apply existsb_id in E.
           destruct (String.eqb (p_id product) (p_id q)) eqn:Eq.
           ++ apply String.eqb_eq in Eq. rewrite <- Eq.
              split; intros [H|(Hn & _)]; auto; contradiction.
           ++ reflexivity.
        -- assert (Hn : ~ In (p_id product) (map p_id acc)).
           { intros Hin. apply existsb_id in Hin. congruence. }
           destruct (String.eqb (p_id product) (p_id q)) eqn:Eq.
           ++ apply String.eqb_eq in Eq. split.
              ** intros [H|(Hnq & _)].
                 --- apply in_app_iff in H. destruct H as [H|[<-|[]]]; [left; exact H|].
                     right. split; [exact Hn|].
                     exists receipt. split; [reflexivity|exact Hp].
                 --- exfalso. apply Hnq. rewrite map_app, in_app_iff.
                     right. left. exact Eq.
              ** intros [H|(Hnq & x & Hx & Hq)].
                 --- left. apply in_app_iff. left; exact H.
                 --- inversion Hx; subst x. rewrite Hp in Hq. inversion Hq; subst.
                     left. apply in_app_iff. right. left; reflexivity.
           ++ assert (Hne : p_id product <> p_id q).
              { intros E'. apply String.eqb_eq in E'. congruence. }
              split.
              ** intros [H|(Hnq & Hx)].
                 --- apply in_app_iff in H. destruct H as [H|[<-|[]]];
                       [left; exact H|contradiction].
                 --- right. split; [|exact Hx]. intros Hin. apply Hnq.
                     rewrite map_app, in_app_iff. left; exact Hin.
              ** intros [H|(Hnq & Hx)].
                 --- left. apply in_app_iff. left; exact H.
                 --- right. split; [|exact Hx]. rewrite map_app, in_app_iff.
                     intros [Hin|[Hin|[]]]; [contradiction|]. cbn in Hin. contradiction.
      * reflexivity.
    + unfold addProduct in *.
      destruct (productOf receipt) as [product|]; [|lia].
      destruct (existsb _ acc); [lia|].
      rewrite length_app in IHlen. cbn [List.length] in IHlen. lia.
Qed.

Lemma productOf_Some receipt q :
  productOf receipt = Some q ->
  exists r ap,
    receipt = Some r /\ r_accessPass r = Some ap /\ ap_id ap = Some (p_id q)
    /\ p_id q <> ""
    /\ q = {| p_id := p_id q; p_title := None;
              p_name := Some (orElse (ap_name ap) "Unnamed Product");
              p_visibility := ap_visibility ap; p_stock := ap_stock ap;
              p_initialStock := ap_initialStock ap |}.
Proof.
  unfold productOf. destruct receipt as [r|]; [|discriminate].
  destruct (r_accessPass r) as [ap|] eqn:Hap; [|discriminate].
  destruct (ap_id ap) as [id|] eqn:Hid; [|discriminate].
  destruct id as [|c id]; cbn; intros H; [discriminate|].
  inversion H; subst q; clear H. cbn [p_id].
  exists r, ap. split; [reflexivity|]. split; [exact Hap|].
  split; [exact Hid|]. split; [discriminate|reflexivity].
Qed.

Lemma firstCarrying_Some id receipts receipt :
  firstCarrying id receipts = Some receipt ->
  In receipt receipts
  /\ exists q, productOf receipt = Some q /\ p_id q = id.
Proof.
  unfold firstCarrying. intros H. apply find_some in H. destruct H as (Hin & Hq).
  split; [exact Hin|]. destruct (productOf receipt) as [q|]; [|discriminate].
  exists q. split; [reflexivity|]. apply String.eqb_eq. exact Hq.
Qed.

Lemma orElse_nonempty s d : d <> "" -> orElse s d <> "".
Proof.
  intros Hd. unfold orElse. destruct s as [[|c s]|]; auto. discriminate.
Qed.

Lemma extracted_fromAccessPass env cid receipts :
  Forall (fromAccessPass env cid)
    (map (formatProduct env cid) (extractProducts receipts)).
Proof.
  apply Forall_forall. intros row Hrow. apply in_map_iff in Hrow.
  destruct Hrow as (q & <- & Hq).
  rewrite extractProducts_fold in Hq.
  destruct (fold_addProduct receipts [] (NoDup_nil _)) as (_ & Hin & _).
  apply Hin in Hq. destruct Hq as [[]|(_ & receipt & Hfirst & Hp)].
  apply productOf_Some in Hp.
  destruct Hp as (r & ap & _ & Hap & Hid & Hne & Hq).
  exists r, ap, (p_id q). split; [exact Hap|]. split; [exact Hid|].
  split; [exact Hne|].
  unfold formatProduct. rewrite Hq. cbn [p_id p_title p_name p_visibility p_stock
                                          p_initialStock orNull truthy].
  f_equal. unfold orElse at 1.
  pose proof (orElse_nonempty (ap_name ap) "Unnamed Product") as Hn.
  destruct (orElse (ap_name ap) "Unnamed Product") as [|c s]; [|reflexivity].
  exfalso. apply Hn; [discriminate|reflexivity].
Qed.

Lemma formatted_fromReceipt cid payments rows :
  mapM (formatPayment cid) payments = Returns rows ->
  Forall (fromReceipt cid) rows.
Proof.
  intros H. apply mapM_Forall in H. eapply Forall_impl; [|exact H].
  intros row (x & _ & Hx). apply SyncFacts.formatPayment_of_record in Hx.
  destruct Hx as (p & _ & Hp). exists p. exact Hp.
Qed.

Lemma formatted_fromMember cid members mrows :
  mapM (formatMembership cid) (filter hasId members) = Returns mrows ->
  Forall (fromMember cid) mrows.
Proof.
  intros H. apply mapM_Forall in H. eapply Forall_impl; [|exact H].
  intros row (x & Hin & Hx). apply filter_In in Hin. destruct Hin as (_ & Hid).
  apply formatMembership_of_record in Hx. destruct Hx as (m & -> & Hm).
  exists m. split; [exact Hid|exact Hm].
Qed.

(** *** What a sync sends and stores, however it ends *)


Lemma fullSync_writes env cid w :
  let o := fst (fullSync env cid w) in
  let w' := snd (fullSync env cid w) in
  exists rows mrows prows,
    Forall (fromReceipt cid) rows
    /\ Forall (fromMember cid) mrows
    /\ Forall (fromAccessPass env cid) prows
    /\ paymentRowsWritten (trace w') = paymentRowsWritten (trace w) ++ rows
    /\ membershipRowsWritten (trace w')
       = membershipRowsWritten (trace w) ++ mrows
    /\ productRowsWritten (trace w') = productRowsWritten (trace w) ++ prows
    /\ payments (store w')
       = upserted same_payment (bulkInsertPayments_error (faults env)) rows
           (payments (store w))
    /\ memberships (store w')
       = upserted same_membership (bulkInsertMemberships_error (faults env))
           mrows (memberships (store w))
    /\ products (store w')
       = upserted same_product (bulkInsertProducts_error (faults env)) prows
           (products (store w))
    /\ (companies (store w') = companies (store w)
        \/ companies (store w') = stamped o cid (atUpdate (clock env)) (store w)).
Proof.
  cbv zeta.
  assert (Hnone : forall o w', 
    paymentRowsWritten (trace w') = paymentRowsWritten (trace w) ->
    membershipRowsWritten (trace w') = membershipRowsWritten (trace w) ->
    productRowsWritten (trace w') = productRowsWritten (trace w) ->
    payments (store w') = payments (store w) ->
    memberships (store w') = memberships (store w) ->
    products (store w') = products (store w) ->
    (companies (store w') = companies (store w)
     \/ companies (store w') = stamped o cid (atUpdate (clock env)) (store w)) ->
    exists rows mrows prows,
    Forall (fromReceipt cid) rows
    /\ Forall (fromMember cid) mrows
    /\ Forall (fromAccessPass env cid) prows
    /\ paymentRowsWritten (trace w') = paymentRowsWritten (trace w) ++ rows
    /\ membershipRowsWritten (trace w')
       = membershipRowsWritten (trace w) ++ mrows
    /\ productRowsWritten (trace w') = productRowsWritten (trace w) ++ prows
    /\ payments (store w')
       = upserted same_payment (bulkInsertPayments_error (faults env)) rows
           (payments (store w))
    /\ memberships (store w')
       = upserted same_membership (bulkInsertMemberships_error (faults env))
           mrows (memberships (store w))
    /\ products (store w')
       = upserted same_product (bulkInsertProducts_error (faults env)) prows
           (products (store w))
    /\ (companies (store w') = companies (store w)
        \/ companies (store w') = stamped o cid (atUpdate (clock env)) (store w))).
  { intros o w' H1 H2 H3 H4 H5 H6 H7. exists [], [], [].
    rewrite !app_nil_r. unfold upserted.
    repeat (split; [first [constructor|assumption
                          |destruct (bulkInsertPayments_error (faults env)); assumption
                          |destruct (bulkInsertMemberships_error (faults env)); assumption
                          |destruct (bulkInsertProducts_error (faults env)); assumption]|]).
    exact H7. }
  assert (Hfetched :
    paymentRowsWritten (trace (fetched cid w)) = paymentRowsWritten (trace w)
    /\ membershipRowsWritten (trace (fetched cid w)) = membershipRowsWritten (trace w)
    /\ productRowsWritten (trace (fetched cid w)) = productRowsWritten (trace w)).
  { unfold fetched. cbn [trace].
    rewrite SyncFacts.paymentRowsWritten_app, SyncFacts.membershipRowsWritten_app,
      productRowsWritten_app. cbn. rewrite !app_nil_r. auto. }
  destruct Hfetched as (Hf1 & Hf2 & Hf3).
  destruct (tables_ensured cid (store w)) as (He1 & He2 & He3).
  rewrite fullSync_run.
  destruct (upsertCompany_error (faults env)).
  { apply Hnone; cbn [fst snd logged trace store];
      rewrite ?SyncFacts.paymentRowsWritten_app, ?SyncFacts.membershipRowsWritten_app,
        ?productRowsWritten_app; cbn; rewrite ?app_nil_r; auto. }
  destruct (fst (fetchAll env cid (ensured cid w))) as [[[payments members] products]|] eqn:Hfetch.
  2:{ apply Hnone; cbn [fst snd]; auto. }
  destruct (mapM (formatPayment cid) payments) as [rows|] eqn:Hrows.
  2:{ apply Hnone; cbn [fst snd]; auto. }
  destruct (mapM (formatMembership cid) (filter hasId members)) as [mrows|] eqn:Hmrows.
  2:{ apply Hnone; cbn [fst snd]; auto. }
  cbv zeta.
  apply SyncFacts.fetchAll_returns in Hfetch.
  destruct Hfetch as (p & m & rc & _ & _ & _ & Hx). inversion Hx; subst; clear Hx.
  pose proof (insertAll_store_any env rows mrows
                (map (formatProduct env cid) (extractProducts rc)) (fetched cid w)) as Hs.
  pose proof (SyncFacts.insertAll_trace env rows mrows
                (map (formatProduct env cid) (extractProducts rc)) (fetched cid w)) as [Ht _].
  destruct (insertAll env rows mrows (map (formatProduct env cid) (extractProducts rc))
              (fetched cid w)) as [oi w4].
  cbn [fst snd] in Hs, Ht.
  assert (Hw4 :
    paymentRowsWritten (trace w4) = paymentRowsWritten (trace w) ++ rows
    /\ membershipRowsWritten (trace w4) = membershipRowsWritten (trace w) ++ mrows
    /\ productRowsWritten (trace w4)
       = productRowsWritten (trace w)
         ++ map (formatProduct env cid) (extractProducts rc)).
  { rewrite Ht, SyncFacts.paymentRowsWritten_app, SyncFacts.membershipRowsWritten_app,
      productRowsWritten_app, Hf1, Hf2, Hf3,
      SyncFacts.paymentRowsWritten_upsertRequests,
      SyncFacts.membershipRowsWritten_upsertRequests,
      productRowsWritten_upsertRequests. auto. }
  destruct Hw4 as (Hp4 & Hm4 & Hq4).
  assert (Hstore4 :
    payments (store w4)
    = upserted same_payment (bulkInsertPayments_error (faults env)) rows
        (payments (store w))
    /\ memberships (store w4)
       = upserted same_membership (bulkInsertMemberships_error (faults env))
           mrows (memberships (store w))
    /\ products (store w4)
       = upserted same_product (bulkInsertProducts_error (faults env))
           (map (formatProduct env cid) (extractProducts rc))
           (products (store w))
    /\ companies (store w4) = companies (insertCompanyIfAbsent cid (store w))).
  { rewrite Hs. unfold fetched. cbn [store with_products with_memberships
      with_payments payments memberships products companies].
    rewrite He1, He2, He3. auto. }
  destruct Hstore4 as (Hsp & Hsm & Hsq & Hsc).
  assert (Hdone : forall o w',
    paymentRowsWritten (trace w') = paymentRowsWritten (trace w4) ->
    membershipRowsWritten (trace w') = membershipRowsWritten (trace w4) ->
    productRowsWritten (trace w') = productRowsWritten (trace w4) ->
    payments (store w') = payments (store w4) ->
    memberships (store w') = memberships (store w4) ->
    products (store w') = products (store w4) ->
    companies (store w') = stamped o cid (atUpdate (clock env)) (store w) ->
    exists rows mrows prows,
    Forall (fromReceipt cid) rows
    /\ Forall (fromMember cid) mrows
    /\ Forall (fromAccessPass env cid) prows
    /\ paymentRowsWritten (trace w') = paymentRowsWritten (trace w) ++ rows
    /\ membershipRowsWritten (trace w')
       = membershipRowsWritten (trace w) ++ mrows
    /\ productRowsWritten (trace w') = productRowsWritten (trace w) ++ prows
    /\ payments (store w')
       = upserted same_payment (bulkInsertPayments_error (faults env)) rows
           (payments (store w))
    /\ memberships (store w')
       = upserted same_membership (bulkInsertMemberships_error (faults env))
           mrows (memberships (store w))
    /\ products (store w')
       = upserted same_product (bulkInsertProducts_error (faults env)) prows
           (products (store w))
    /\ (companies (store w') = companies (store w)
        \/ companies (store w') = stamped o cid (atUpdate (clock env)) (store w))).
  { intros o w' H1 H2 H3 H4 H5 H6 H7.
    exists rows, mrows, (map (formatProduct env cid) (extractProducts rc)).
    split; [eapply formatted_fromReceipt; eassumption|].
    split; [eapply formatted_fromMember; eassumption|].
    split; [apply extracted_fromAccessPass|].
    rewrite H1, H2, H3, H4, H5, H6. auto 10. }
  destruct oi as [x|e].
  - destruct (updateLastSync_error (faults env)).
    + apply Hdone; cbn [fst snd logged trace store stamped];
        rewrite ?SyncFacts.paymentRowsWritten_app, ?SyncFacts.membershipRowsWritten_app,
          ?productRowsWritten_app; cbn; rewrite ?app_nil_r; auto.
    + apply Hdone; cbn [fst snd logged trace store stamped];
        rewrite ?SyncFacts.paymentRowsWritten_app, ?SyncFacts.membershipRowsWritten_app,
          ?productRowsWritten_app; cbn; rewrite ?app_nil_r; auto.
      unfold setLastSync, with_companies. cbn [companies]. rewrite Hsc. reflexivity.
  - apply Hdone; cbn [fst snd stamped]; auto.
Qed.

Lemma logged_rows ev w :
  match ev with
  | UpsertPayments _ | UpsertMemberships _ | UpsertProducts _ => False
  | _ => True
  end ->
  paymentRowsWritten (trace (logged ev w)) = paymentRowsWritten (trace w)
  /\ membershipRowsWritten (trace (logged ev w)) = membershipRowsWritten (trace w)
  /\ productRowsWritten (trace (logged ev w)) = productRowsWritten (trace w).
Proof.
  intros Hev. unfold logged. cbn [trace].
  rewrite SyncFacts.paymentRowsWritten_app, SyncFacts.membershipRowsWritten_app,
    productRowsWritten_app.
  destruct ev; try contradiction; cbn; rewrite !app_nil_r; auto.
Qed.

(** What [syncCompanyData] sends and stores, however it ends. *)
Lemma sync_writes env cid force w :
  let run := syncCompanyData env cid force w in
  let w' := snd run in
  exists rows mrows prows,
    Forall (fromReceipt cid) rows
    /\ Forall (fromMember cid) mrows
    /\ Forall (fromAccessPass env cid) prows
    /\ paymentRowsWritten (trace w') = paymentRowsWritten (trace w) ++ rows
    /\ membershipRowsWritten (trace w')
       = membershipRowsWritten (trace w) ++ mrows
    /\ productRowsWritten (trace w') = productRowsWritten (trace w) ++ prows
    /\ payments (store w')
       = upserted same_payment (bulkInsertPayments_error (faults env)) rows
           (payments (store w))
    /\ memberships (store w')
       = upserted same_membership (bulkInsertMemberships_error (faults env))
           mrows (memberships (store w))
    /\ products (store w')
       = upserted same_product (bulkInsertProducts_error (faults env)) prows
           (products (store w))
    /\ (companies (store w') = companies (store w)
        \/ companies (store w') = companies (insertCompanyIfAbsent cid (store w))
        \/ ((exists r, fst run = Returns r /\ success r = true)
            /\ companies (store w')
               = companies (setLastSync cid (atUpdate (clock env))
                              (insertCompanyIfAbsent cid (store w))))).
Proof.
  cbv zeta.
  assert (Hnone :
    snd (syncCompanyData env cid force w) = logged (SelectLastSync cid) w ->
    exists rows mrows prows,
    Forall (fromReceipt cid) rows
    /\ Forall (fromMember cid) mrows
    /\ Forall (fromAccessPass env cid) prows
    /\ paymentRowsWritten (trace (snd (syncCompanyData env cid force w)))
       = paymentRowsWritten (trace w) ++ rows
    /\ membershipRowsWritten (trace (snd (syncCompanyData env cid force w)))
       = membershipRowsWritten (trace w) ++ mrows
    /\ productRowsWritten (trace (snd (syncCompanyData env cid force w)))
       = productRowsWritten (trace w) ++ prows
    /\ payments (store (snd (syncCompanyData env cid force w)))
       = upserted same_payment (bulkInsertPayments_error (faults env)) rows
           (payments (store w))
    /\ memberships (store (snd (syncCompanyData env cid force w)))
       = upserted same_membership (bulkInsertMemberships_error (faults env))
           mrows (memberships (store w))
    /\ products (store (snd (syncCompanyData env cid force w)))
       = upserted same_product (bulkInsertProducts_error (faults env)) prows
           (products (store w))
    /\ (companies (store (snd (syncCompanyData env cid force w)))
        = companies (store w)
        \/ companies (store (snd (syncCompanyData env cid force w)))
           = companies (insertCompanyIfAbsent cid (store w))
        \/ ((exists r, fst (syncCompanyData env cid force w) = Returns r
                       /\ success r = true)
            /\ companies (store (snd (syncCompanyData env cid force w)))
               = companies (setLastSync cid (atUpdate (clock env))
                              (insertCompanyIfAbsent cid (store w)))))).
  { intros ->. exists [], [], []. rewrite !app_nil_r.
    destruct (logged_rows (SelectLastSync cid) w I) as (H1 & H2 & H3).
    unfold upserted.
    destruct (bulkInsertPayments_error (faults env)),
      (bulkInsertMemberships_error (faults env)),
      (bulkInsertProducts_error (faults env)); auto 15. }
  rewrite SyncFacts.syncCompanyData_run, SyncFacts.syncBody_run in *.
  destruct (getLastSync_error (faults env)); [apply Hnone; reflexivity|].
  destruct (freshSince env force (storedLastSync cid (store w)));
    [apply Hnone; reflexivity|].
  clear Hnone.
  destruct (fullSync_writes env cid (logged (SelectLastSync cid) w))
    as (rows & mrows & prows & H1 & H2 & H3 & H4 & H5 & H6 & H7 & H8 & H9 & H10).
  destruct (logged_rows (SelectLastSync cid) w I) as (L1 & L2 & L3).
  rewrite L1 in H4. rewrite L2 in H5. rewrite L3 in H6.
  cbn [logged store] in H7, H8, H9, H10.
  pose proof (SyncFacts.fullSync_returns env cid (logged (SelectLastSync cid) w))
    as Hret.
  destruct (fullSync env cid (logged (SelectLastSync cid) w)) as [[r|e] w'];
    cbn [fst snd] in *; exists rows, mrows, prows;
    (repeat (split; [assumption|])).
  - destruct H10 as [H10|H10]; [left; exact H10|right; right].
    split; [|exact H10]. exists r. split; [reflexivity|].
    destruct (Hret r w' eq_refl)
      as (p & m & rc & rws & mrws & _ & _ & _ & _ & _ & Hr & _).
    subst r. reflexivity.
  - destruct H10 as [H10|H10]; [left; exact H10|right; left; exact H10].
Qed.

(** *** The company rows *)

Lemma storedLastSync_companies c (st st' : Store.t) :
  companies st = companies st' -> storedLastSync c st = storedLastSync c st'.
Proof.
  intros H. unfold storedLastSync, find_company. rewrite H. reflexivity.
Qed.

Lemma storedLastSync_ensured c cid (st : Store.t) :
  storedLastSync c (insertCompanyIfAbsent cid st) = storedLastSync c st.
Proof.
  unfold insertCompanyIfAbsent.
  destruct (find_company cid st) as [x|] eqn:E; [reflexivity|].
  unfold storedLastSync, find_company, with_companies in *. cbn [companies].
  induction (companies st) as [|c0 cs IH]; cbn [find app] in *.
  - cbn [c_id]. destruct (String.eqb cid c); reflexivity.
  - destruct (String.eqb (c_id c0) cid) eqn:E0; [discriminate|].
    destruct (String.eqb (c_id c0) c); [reflexivity|]. apply IH. exact E.
Qed.

Lemma storedLastSync_stamped c cid t (st : Store.t) :
  c <> cid -> storedLastSync c (setLastSync cid t st) = storedLastSync c st.
Proof.
  intros Hne. unfold storedLastSync, find_company, setLastSync, with_companies.
  cbn [companies].
  induction (companies st) as [|c0 cs IH]; cbn [find map]; [reflexivity|].
  destruct (String.eqb (c_id c0) cid) eqn:E0; cbn [c_id].
  - apply String.eqb_eq in E0.
    destruct (String.eqb (c_id c0) c) eqn:E1.
    + apply String.eqb_eq in E1. congruence.
    + exact IH.
  - destruct (String.eqb (c_id c0) c); [reflexivity|exact IH].
Qed.

Lemma same_payment_refl a : same_payment a a = true.
Proof. unfold same_payment. rewrite !String.eqb_refl. reflexivity. Qed.

Lemma same_payment_trans a b c :
  same_payment a b = true -> same_payment b c = true -> same_payment a c = true.
Proof.
  unfold same_payment. rewrite !andb_true_iff, !String.eqb_eq.
  intros (-> & ->) (-> & ->). auto.
Qed.

Lemma same_membership_refl a : same_membership a a = true.
Proof. unfold same_membership. rewrite !String.eqb_refl. reflexivity. Qed.

Lemma same_membership_trans a b c :
  same_membership a b = true -> same_membership b c = true ->
  same_membership a c = true.
Proof.
  unfold same_membership. rewrite !andb_true_iff, !String.eqb_eq.
  intros (-> & ->) (-> & ->). auto.
Qed.

Lemma same_product_refl a : same_product a a = true.
Proof. unfold same_product. apply String.eqb_refl. Qed.

Lemma same_product_trans a b c :
  same_product a b = true -> same_product b c = true -> same_product a c = true.
Proof. unfold same_product. rewrite !String.eqb_eq. congruence. Qed.

Lemma formatMembership_fields cid m row :
  formatMembership cid (Some m) = Returns row ->
  mem_id row = orElse (m_id m) ""
  /\ mem_company_id row = cid
  /\ mem_status row = orElse (m_status m) "unknown"
  /\ mem_valid row = boolOr (m_valid m) false
  /\ mem_user_id row = orNull (m_user_id m).
Proof.
  unfold formatMembership. cbn [bind ret Outcome_Monad].
  destruct (isoOrNull (m_createdAt m)); [|discriminate].
  destruct (isoOrNull (m_expiresAt m)); [|discriminate].
  destruct (isoOrNull (m_renewalPeriodStart m)); [|discriminate].
  destruct (isoOrNull (m_renewalPeriodEnd m)); [|discriminate].
  intros H; inversion H; subst; cbn. auto.
Qed.

Lemma fromReceipt_company cid row : fromReceipt cid row -> pay_company_id row = cid.
Proof.
  intros (p & Hp). apply SyncFacts.formatPayment_fields in Hp. tauto.
Qed.

Lemma fromMember_company cid row : fromMember cid row -> mem_company_id row = cid.
Proof.
  intros (m & _ & Hm). apply formatMembership_fields in Hm. tauto.
Qed.

Lemma getSyncStatus_run env sc cid w :
  getSyncStatus env sc cid w =
  match getLastSync_error (faults env) with
  | Some e => (Throws e, logged (SelectLastSync cid) w)
  | None =>
      (Returns
         {| lastSync := storedLastSync cid (store w);
            needsSync :=
              match storedLastSync cid (store w) with
              | None => true
              | Some t => t <? atThreshold sc - 60 * 60 * 1000
              end;
            minutesSinceSync :=
              match storedLastSync cid (store w) with
              | Some t => Some ((atElapsed sc - t) / (1000 * 60))
              | None => None
              end |},
       logged (SelectLastSync cid) w)
  end.
Proof.
  unfold getSyncStatus. cbn [bind Async_Monad].
  rewrite SyncFacts.getLastSync_run.
  destruct (getLastSync_error (faults env)); reflexivity.
Qed.

Lemma sync_run_cases env cid force w :
  getLastSync_error (faults env) = None ->
  syncCompanyData env cid force w =
  match freshSince env force (storedLastSync cid (store w)) with
  | Some t => (Returns (skipResult t), logged (SelectLastSync cid) w)
  | None => try_catch (fullSync env cid) (syncFailed env)
              (logged (SelectLastSync cid) w)
  end.
Proof.
  intros Hl. unfold syncCompanyData, try_catch at 1.
  rewrite SyncFacts.syncBody_run, Hl.
  destruct (freshSince env force (storedLastSync cid (store w))); reflexivity.
Qed.

(** X1.  [getSyncStatus] and [syncCompanyData] read the same timestamp
    against the same threshold, the one with [<], the other with [>].
    When the status says that a sync is needed, a sync that is not
    forced runs the full cycle.  When it says that none is needed, the
    sync skips, except for a timestamp exactly one hour old: then the
    status reports [needsSync = false] and the sync runs in full. *)
Theorem status_and_sync_differ_at_one_hour env sc cid w status w' :
  atThreshold sc = atCheck (clock env) ->
  getSyncStatus env sc cid w = (Returns status, w') ->
  let run := syncCompanyData env cid false w in
  let full := try_catch (fullSync env cid) (syncFailed env)
                (logged (SelectLastSync cid) w) in
  lastSync status = storedLastSync cid (store w)
  /\ (needsSync status = true -> run = full)
  /\ (needsSync status = false ->
      exists t,
        lastSync status = Some t
        /\ ((atCheck (clock env) - t < 60 * 60 * 1000
             /\ run = (Returns (skipResult t), logged (SelectLastSync cid) w))
            \/ (t = atCheck (clock env) - 60 * 60 * 1000 /\ run = full))).
Proof.
  intros Hclock Hstatus run full. subst run full.
  rewrite getSyncStatus_run in Hstatus.
  destruct (getLastSync_error (faults env)) eqn:Hl; [discriminate|].
  inversion Hstatus; subst status w'; clear Hstatus. cbn [lastSync needsSync].
  rewrite (sync_run_cases _ _ _ _ Hl), Hclock.
  split; [reflexivity|].
  destruct (storedLastSync cid (store w)) as [t|].
  - destruct (freshSince env false (Some t)) as [t'|] eqn:E.
    + apply SyncFacts.freshSince_Some in E. destruct E as (_ & Ht' & Hlt).
      inversion Ht'; subst t'. split.
      * intros H. apply Z.ltb_lt in H. lia.
      * intros _. exists t. split; [reflexivity|]. left. split; [lia|reflexivity].
    + assert (Hstale : ~ atCheck (clock env) - t < 60 * 60 * 1000).
      { intros Hlt.
        assert (freshSince env false (Some t) = Some t)
          by (apply SyncFacts.freshSince_Some; auto).
        congruence. }
      split; [reflexivity|].
      intros H. apply Z.ltb_ge in H. exists t. split; [reflexivity|].
      right. split; [lia|reflexivity].
  - split; [reflexivity|discriminate].
Qed.

Lemma status_and_sync_differ_at_one_hour_witness :
  fst (getSyncStatus anEnv aStatusClock "biz_1" (syncedAt_ (t0 - hour)))
  = Returns {| lastSync := Some (t0 - hour); needsSync := false;
               minutesSinceSync := Some 60 |}
  /\ syncCompanyData anEnv "biz_1" false (syncedAt_ (t0 - hour))
     = try_catch (fullSync anEnv "biz_1") (syncFailed anEnv)
         (logged (SelectLastSync "biz_1") (syncedAt_ (t0 - hour))).
Proof.
  split; [reflexivity|].
  destruct (status_and_sync_differ_at_one_hour anEnv aStatusClock "biz_1"
              (syncedAt_ (t0 - hour)) _ _ eq_refl eq_refl)
    as (_ & _ & Hno).
  destruct (Hno eq_refl) as (t & Ht & [(Hlt & _)|(_ & Hfull)]).
  - exfalso. inversion Ht; subst t. vm_compute in Hlt. discriminate.
  - exact Hfull.
Defined.

(** X2.  [getSyncStatus] only reads: it sends the one lookup and leaves
    the store as it is.  It has no [try]: an error of the lookup is
    thrown to the caller, where [syncCompanyData] returns a failure
    result.  For a company without a stored timestamp it answers
    [needsSync = true] with no [lastSync] and no [minutesSinceSync]. *)
Theorem status_reads_only_and_throws env sc cid w :
  let run := getSyncStatus env sc cid w in
  snd run = logged (SelectLastSync cid) w
  /\ (forall e, getLastSync_error (faults env) = Some e ->
      fst run = Throws e
      /\ fst (syncCompanyData env cid false w)
         = Returns {| success := false; paymentsCount := 0;
                      membershipsCount := 0; productsCount := 0;
                      syncedAt := atReturn (clock env);
                      error := Some (errorText e) |})
  /\ (getLastSync_error (faults env) = None ->
      storedLastSync cid (store w) = None ->
      fst run = Returns {| lastSync := None; needsSync := true;
                           minutesSinceSync := None |})
  /\ (forall status t, fst run = Returns status -> lastSync status = Some t ->
      exists m, minutesSinceSync status = Some m
                /\ 60000 * m <= atElapsed sc - t < 60000 * (m + 1)).
Proof.
  cbv zeta. rewrite getSyncStatus_run.
  destruct (getLastSync_error (faults env)) eqn:Hl; cbn [fst snd].
  - split; [reflexivity|]. split; [|split].
    + intros e H; inversion H; subst. split; [reflexivity|].
      rewrite SyncFacts.syncCompanyData_run, SyncFacts.syncBody_run, Hl.
      reflexivity.
    + discriminate.
    + discriminate.
  - split; [reflexivity|]. split; [discriminate|]. split.
    + intros _ ->. reflexivity.
    + intros status t H Ht. inversion H; subst status; clear H.
      cbn [lastSync minutesSinceSync] in *. rewrite Ht.
      eexists. split; [reflexivity|].
      match goal with
      | |- context [?a / ?b] =>
          pose proof (Z.div_mod a b ltac:(lia));
          pose proof (Z.mod_pos_bound a b ltac:(lia))
      end.
      lia.
Qed.

(** X3.  A sync that reports a failure has not touched the [last_sync]
    of any company: the next call finds the data as stale as before. *)
Theorem failed_sync_keeps_last_sync env cid force w r :
  fst (syncCompanyData env cid force w) = Returns r ->
  success r = false ->
  forall c,
    storedLastSync c (store (snd (syncCompanyData env cid force w)))
    = storedLastSync c (store w).
Proof.
  intros Hr Hfail c.
  destruct (sync_writes env cid force w)
    as (_ & _ & _ & _ & _ & _ & _ & _ & _ & _ & _ & _ & Hc).
  destruct Hc as [Hc|[Hc|((r' & Hr' & Hs) & _)]].
  - apply storedLastSync_companies. exact Hc.
  - rewrite (storedLastSync_companies c _ _ Hc). apply storedLastSync_ensured.
  - rewrite Hr in Hr'. inversion Hr'; subst. congruence.
Qed.

Lemma failed_sync_keeps_last_sync_witness :
  storedLastSync "biz_1"
    (store (snd (syncCompanyData whopDown "biz_1" true syncedTenMinutesAgo)))
  = Some (t0 - 600000).
Proof.
  rewrite (failed_sync_keeps_last_sync whopDown "biz_1" true syncedTenMinutesAgo
             {| success := false; paymentsCount := 0; membershipsCount := 0;
                productsCount := 0; syncedAt := t0 + 950;
                error := Some "Failed to fetch members from Whop API" |}
             eq_refl eq_refl).
  reflexivity.
Defined.

(** X4.  A sync of one company leaves the payments and the memberships
    of every other company, and the [last_sync] of every other
    company, exactly as they were, however the sync ends. *)
Theorem sync_leaves_other_companies_alone env cid force w :
  let st' := store (snd (syncCompanyData env cid force w)) in
  paymentsOfOthers cid st' = paymentsOfOthers cid (store w)
  /\ membershipsOfOthers cid st' = membershipsOfOthers cid (store w)
  /\ (forall c, c <> cid -> storedLastSync c st' = storedLastSync c (store w)).
Proof.
  cbv zeta.
  destruct (sync_writes env cid force w)
    as (rows & mrows & prows & Hrows & Hmrows & _ & _ & _ & _ & Hp & Hm & _ & Hc).
  split; [|split].
  - unfold paymentsOfOthers. rewrite Hp. apply upserted_filter.
    eapply Forall_impl; [|exact Hrows]. intros row Hrow.
    apply fromReceipt_company in Hrow. split.
    + rewrite Hrow, String.eqb_refl. reflexivity.
    + intros x Hx. unfold same_payment in Hx.
      apply andb_true_iff in Hx. destruct Hx as (Hx & _).
      apply String.eqb_eq in Hx. rewrite <- Hx, Hrow, String.eqb_refl. reflexivity.
  - unfold membershipsOfOthers. rewrite Hm. apply upserted_filter.
    eapply Forall_impl; [|exact Hmrows]. intros row Hrow.
    apply fromMember_company in Hrow. split.
    + rewrite Hrow, String.eqb_refl. reflexivity.
    + intros x Hx. unfold same_membership in Hx.
      apply andb_true_iff in Hx. destruct Hx as (Hx & _).
      apply String.eqb_eq in Hx. rewrite <- Hx, Hrow, String.eqb_refl. reflexivity.
  - intros c Hne. destruct Hc as [Hc|[Hc|(_ & Hc)]].
    + apply storedLastSync_companies. exact Hc.
    + rewrite (storedLastSync_companies c _ _ Hc). apply storedLastSync_ensured.
    + rewrite (storedLastSync_companies c _ _ Hc).
      rewrite storedLastSync_stamped by exact Hne. apply storedLastSync_ensured.
Qed.

Lemma companies_ensured cid (st : Store.t) c :
  In c (companies st) -> In c (companies (insertCompanyIfAbsent cid st)).
Proof.
  unfold insertCompanyIfAbsent. destruct (find_company cid st); [auto|].
  cbn [with_companies companies]. intros H. apply in_app_iff. left; exact H.
Qed.

Lemma companies_stamped cid t (st : Store.t) c :
  In c (companies st) ->
  exists c', In c' (companies (setLastSync cid t st)) /\ c_id c' = c_id c.
Proof.
  unfold setLastSync, with_companies. cbn [companies]. intros H.
  exists (if String.eqb (c_id c) cid
          then {| c_id := c_id c; c_last_sync := Some t |} else c).
  split.
  - apply in_map_iff. exists c. split; [reflexivity|exact H].
  - destruct (String.eqb (c_id c) cid); reflexivity.
Qed.

(** X5.  A sync only upserts: every key that had a row in one of the
    four tables still has one afterwards, and no table gets shorter.
    A record that has disappeared upstream stays in the cache. *)
Theorem sync_never_deletes env cid force w :
  let st := store w in
  let st' := store (snd (syncCompanyData env cid force w)) in
  (forall p, In p (payments st) ->
     exists p', In p' (payments st') /\ same_payment p' p = true)
  /\ (forall m, In m (memberships st) ->
        exists m', In m' (memberships st') /\ same_membership m' m = true)
  /\ (forall q, In q (products st) ->
        exists q', In q' (products st') /\ same_product q' q = true)
  /\ (forall c, In c (companies st) ->
        exists c', In c' (companies st') /\ c_id c' = c_id c)
  /\ (List.length (payments st) <= List.length (payments st'))%nat
  /\ (List.length (memberships st) <= List.length (memberships st'))%nat
  /\ (List.length (products st) <= List.length (products st'))%nat.
Proof.
  cbv zeta.
  destruct (sync_writes env cid force w)
    as (rows & mrows & prows & _ & _ & _ & _ & _ & _ & Hp & Hm & Hq & Hc).
  rewrite Hp, Hm, Hq.
  split; [|split; [|split; [|split; [|split; [|split]]]]].
  - intros p Hin. apply upserted_key_kept;
      [apply same_payment_refl|apply same_payment_trans|exact Hin].
  - intros m Hin. apply upserted_key_kept;
      [apply same_membership_refl|apply same_membership_trans|exact Hin].
  - intros q Hin. apply upserted_key_kept;
      [apply same_product_refl|apply same_product_trans|exact Hin].
  - intros c Hin. destruct Hc as [Hc|[Hc|(_ & Hc)]]; rewrite Hc.
    + exists c. auto.
    + exists c. split; [apply companies_ensured; exact Hin|reflexivity].
    + apply companies_stamped, companies_ensured. exact Hin.
  - apply upserted_length.
  - apply upserted_length.
  - apply upserted_length.
Qed.

Lemma truthy_nonempty s : truthy (Some s) = true -> s <> "".
Proof. destruct s; [discriminate|discriminate]. Qed.

Lemma orElse_truthy s d : truthy s = true -> exists v, s = Some v /\ orElse s d = v /\ v <> "".
Proof.
  destruct s as [[|c v]|]; try discriminate. intros _.
  eexists. split; [reflexivity|]. split; [reflexivity|discriminate].
Qed.

Lemma paymentStatus_nonempty status : paymentStatus status <> "".
Proof.
  destruct (SyncFacts.paymentStatus_cases status)
    as [(_ & ->)|[(_ & ->)|(s & _ & _ & Hne & ->)]];
    [discriminate|discriminate|exact Hne].
Qed.

Lemma formatPayment_texts cid p row :
  formatPayment cid (Some p) = Returns row ->
  pay_currency row = orElse (r_currency p) "usd"
  /\ pay_created_at row = millisOrNull (r_createdAt p)
  /\ pay_paid_at row = millisOrNull (r_paidAt p)
  /\ pay_refunded_at row = millisOrNull (r_refundedAt p)
  /\ formattable (Some p) = true.
Proof.
  assert (Hiso : forall s t, isoOrNull s = Returns t ->
                             t = millisOrNull s /\ inDateRange s = true).
  { intros s t. unfold isoOrNull, millisOrNull, inDateRange, toISOString.
    destruct s as [s|]; [|intros H; inversion H; auto].
    destruct (s =? 0) eqn:E0.
    - intros H; inversion H. split; [reflexivity|].
      apply Z.eqb_eq in E0. subst s. reflexivity.
    - destruct (Z.abs (s * 1000) <=? 8640000000000000); [|discriminate].
      intros H; inversion H; auto. }
  unfold formatPayment. cbn [bind ret Outcome_Monad formattable].
  destruct (isoOrNull (r_createdAt p)) as [a|] eqn:Ea; [|discriminate].
  destruct (isoOrNull (r_paidAt p)) as [b|] eqn:Eb; [|discriminate].
  destruct (isoOrNull (r_refundedAt p)) as [c|] eqn:Ec; [|discriminate].
  intros H; inversion H; subst row; clear H. cbn.
  destruct (Hiso _ _ Ea) as (-> & ->), (Hiso _ _ Eb) as (-> & ->),
    (Hiso _ _ Ec) as (-> & ->). auto.
Qed.

(** X6.  Whatever a sync sends to the store carries the company it was
    called for.  A membership row has a non-empty id, a payment row a
    non-empty status and currency, and a product row a non-empty id
    and name and, as its creation date, the time of this sync. *)
Theorem rows_sent_are_well_formed env cid force w :
  let tr := trace w in
  let tr' := trace (snd (syncCompanyData env cid force w)) in
  exists rows mrows prows,
    paymentRowsWritten tr' = paymentRowsWritten tr ++ rows
    /\ membershipRowsWritten tr' = membershipRowsWritten tr ++ mrows
    /\ productRowsWritten tr' = productRowsWritten tr ++ prows
    /\ Forall (fun row => pay_company_id row = cid
                          /\ pay_status row <> "" /\ pay_currency row <> "") rows
    /\ Forall (fun row => mem_company_id row = cid
                          /\ mem_id row <> "" /\ mem_status row <> "") mrows
    /\ Forall (fun row => prod_company_id row = cid
                          /\ prod_id row <> "" /\ prod_name row <> ""
                          /\ prod_created_at row = atTransform (clock env)) prows.
Proof.
  cbv zeta.
  destruct (sync_writes env cid force w)
    as (rows & mrows & prows & Hrows & Hmrows & Hprows & H1 & H2 & H3 & _).
  exists rows, mrows, prows.
  split; [exact H1|]. split; [exact H2|]. split; [exact H3|].
  split; [|split].
  - eapply Forall_impl; [|exact Hrows]. intros row (p & Hp).
    pose proof (SyncFacts.formatPayment_fields _ _ _ Hp) as (_ & Hc & Hs & _).
    pose proof (formatPayment_texts _ _ _ Hp) as (Hcur & _).
    split; [exact Hc|]. split.
    + rewrite Hs. apply paymentStatus_nonempty.
    + rewrite Hcur. apply orElse_nonempty. discriminate.
  - eapply Forall_impl; [|exact Hmrows]. intros row (m & Hid & Hm).
    apply formatMembership_fields in Hm. destruct Hm as (Hi & Hc & Hs & _).
    split; [exact Hc|]. split.
    + rewrite Hi. destruct (orElse_truthy _ "" Hid) as (v & _ & -> & Hv). exact Hv.
    + rewrite Hs. apply orElse_nonempty. discriminate.
  - eapply Forall_impl; [|exact Hprows].
    intros row (r & ap & id & _ & _ & Hne & ->). cbn.
    split; [reflexivity|]. split; [exact Hne|]. split; [|reflexivity].
    apply orElse_nonempty. discriminate.
Qed.

(** *** Failures of the fetches *)

Lemma nth_mod_In {A : Type} (l : list A) n d :
  l <> [] -> In (nth (Nat.modulo n (List.length l)) l d) l.
Proof.
  intros Hl. apply nth_In. apply Nat.mod_upper_bound.
  destruct l; [contradiction|discriminate].
Qed.

Lemma fetchAll_throws env cid w e :
  fst (fetchAll env cid w) = Throws e ->
  (e = ErrorInstance "Failed to fetch receipts from Whop API"
   /\ receiptsOf env (receiptCalls w) cid = None)
  \/ (e = ErrorInstance "Failed to fetch members from Whop API"
      /\ membersOf env cid = None)
  \/ (e = ErrorInstance "Failed to fetch products from Whop API"
      /\ receiptsOf env (S (receiptCalls w)) cid = None).
Proof.
  unfold fetchAll, Promise_all3, fetchAllProducts, fetchAllPayments,
    fetchAllMemberships, try_catch, request, throw, receiptsOf, membersOf.
  cbn [bind ret Async_Monad store trace receiptCalls].
  destruct (listReceiptsForCompany (upstream env) (receiptCalls w) cid);
    destruct (listMembers (upstream env) cid);
    cbn [bind ret Async_Monad store trace receiptCalls];
    destruct (listReceiptsForCompany (upstream env) (S (receiptCalls w)) cid);
    cbn [rejections fst snd app]; intros H; try discriminate;
    match type of H with
    | Throws (nth (Nat.modulo ?n (List.length ?l)) ?l ?d) = _ =>
        pose proof (nth_mod_In l n d ltac:(discriminate)) as Hin;
        remember (nth (Nat.modulo n (List.length l)) l d) as x eqn:Hx;
        clear Hx; injection H as ->
    end;
    cbn [In] in Hin;
    repeat match goal with
    | H : _ \/ _ |- _ => destruct H
    | H : False |- _ => destruct H
    end; subst e; auto.
Qed.

(** X7.  When a call of the Whop API fails, the sync reports one of
    three fixed texts, and the text names a fetch that did fail; what
    the API answered is not passed on.  No row is sent to the store and
    no [last_sync] changes. *)
Theorem failed_fetch_is_reported_by_a_fixed_text env cid force w :
  getLastSync_error (faults env) = None ->
  freshSince env force (storedLastSync cid (store w)) = None ->
  upsertCompany_error (faults env) = None ->
  receiptsOf env (receiptCalls w) cid = None
  \/ membersOf env cid = None
  \/ receiptsOf env (S (receiptCalls w)) cid = None ->
  let run := syncCompanyData env cid force w in
  exists message,
    fst run = Returns {| success := false; paymentsCount := 0;
                         membershipsCount := 0; productsCount := 0;
                         syncedAt := atReturn (clock env);
                         error := Some message |}
    /\ In message fetchErrors
    /\ (message = "Failed to fetch receipts from Whop API" ->
        receiptsOf env (receiptCalls w) cid = None)
    /\ (message = "Failed to fetch members from Whop API" ->
        membersOf env cid = None)
    /\ (message = "Failed to fetch products from Whop API" ->
        receiptsOf env (S (receiptCalls w)) cid = None)
    /\ snd run = fetched cid (logged (SelectLastSync cid) w).
Proof.
  intros Hl Hstale Hu Hdown. cbv zeta.
  rewrite SyncFacts.syncCompanyData_run, SyncFacts.syncBody_run, Hl, Hstale,
    fullSync_run, Hu.
  destruct (fst (fetchAll env cid (ensured cid (logged (SelectLastSync cid) w))))
    as [[[payments members] products]|e] eqn:Hf.
  - exfalso. apply SyncFacts.fetchAll_returns in Hf.
    destruct Hf as (p & m & rc & Hp & Hm & Hrc & _).
    cbn [ensured logged receiptCalls] in Hp, Hrc.
    destruct Hdown as [H|[H|H]]; congruence.
  - apply fetchAll_throws in Hf. cbn [ensured logged receiptCalls] in Hf.
    cbn [fst snd].
    destruct Hf as [(-> & H)|[(-> & H)|(-> & H)]]; cbn [errorText];
      eexists; (split; [reflexivity|]); unfold fetchErrors; cbn [In];
      (split; [tauto|]); repeat split; try (intros; exact H); discriminate.
Qed.

Lemma failed_fetch_witness :
  exists message,
    fst (syncCompanyData whopDown "biz_1" true syncedTenMinutesAgo)
    = Returns {| success := false; paymentsCount := 0; membershipsCount := 0;
                 productsCount := 0; syncedAt := t0 + 950;
                 error := Some message |}
    /\ In message fetchErrors.
Proof.
  destruct (failed_fetch_is_reported_by_a_fixed_text whopDown "biz_1" true
              syncedTenMinutesAgo eq_refl eq_refl eq_refl (or_introl eq_refl))
    as (message & Hrun & Hin & _).
  exists message. split; [exact Hrun|exact Hin].
Defined.

Lemma successful_full_sync env cid force w r w' :
  syncCompanyData env cid force w = (Returns r, w') ->
  success r = true ->
  freshSince env force (storedLastSync cid (store w)) = None ->
  fullSync env cid (logged (SelectLastSync cid) w) = (Returns r, w').
Proof.
  intros Hrun Hs Hstale.
  rewrite SyncFacts.syncCompanyData_run, SyncFacts.syncBody_run in Hrun.
  destruct (getLastSync_error (faults env)).
  { inversion Hrun; subst r. discriminate. }
  rewrite Hstale in Hrun.
  destruct (fullSync env cid (logged (SelectLastSync cid) w)) as [[r'|e] w''].
  - exact Hrun.
  - inversion Hrun; subst r. discriminate.
Qed.

(** X8.  After a sync that ran the full cycle with success, a call that
    is not forced and reads the clock less than one hour after the
    timestamp update of that sync skips.  The [syncedAt] it returns is
    the time of that update, which is what the store holds, while the
    first call reported the time of its return. *)
Theorem second_sync_within_the_hour_skips env env' cid force w r w' :
  syncCompanyData env cid force w = (Returns r, w') ->
  success r = true ->
  freshSince env force (storedLastSync cid (store w)) = None ->
  getLastSync_error (faults env') = None ->
  atCheck (clock env') - atUpdate (clock env) < 60 * 60 * 1000 ->
  syncedAt r = atReturn (clock env)
  /\ syncCompanyData env' cid false w'
     = (Returns (skipResult (atUpdate (clock env))),
        logged (SelectLastSync cid) w').
Proof.
  intros Hrun Hs Hstale Hl Hsoon.
  apply successful_full_sync in Hrun; [|exact Hs|exact Hstale].
  apply SyncFacts.fullSync_returns in Hrun.
  destruct Hrun as (p & m & rc & rows & mrows & _ & _ & _ & _ & _ & Hr & _ & _
                    & Hstored & _).
  split; [subst r; reflexivity|].
  rewrite (sync_run_cases _ _ _ _ Hl), Hstored.
  assert (Hfresh : freshSince env' false (Some (atUpdate (clock env)))
                   = Some (atUpdate (clock env)))
    by (apply SyncFacts.freshSince_Some; auto).
  rewrite Hfresh. reflexivity.
Qed.

Lemma second_sync_witness :
  fst (syncCompanyData tenMinutesLater "biz_1" false
         (snd (syncCompanyData anEnv "biz_1" false neverSynced)))
  = Returns (skipResult (t0 + 900)).
Proof.
  assert (Hrun : syncCompanyData anEnv "biz_1" false neverSynced
                 = (Returns {| success := true; paymentsCount := 2;
                               membershipsCount := 2; productsCount := 1;
                               syncedAt := t0 + 950; error := None |},
                    snd (syncCompanyData anEnv "biz_1" false neverSynced)))
    by (vm_compute; reflexivity).
  destruct (second_sync_within_the_hour_skips anEnv tenMinutesLater "biz_1"
              false neverSynced _ _ Hrun eq_refl eq_refl eq_refl)
    as (_ & Hskip).
  - vm_compute. reflexivity.
  - rewrite Hskip. reflexivity.
Defined.

(** *** What a successful sync leaves in the tables *)

Lemma fullSync_returns_tables env cid w r w' :
  fullSync env cid w = (Returns r, w') ->
  exists fetchedPayments fetchedMembers receipts rows mrows,
    receiptsOf env (receiptCalls w) cid = Some fetchedPayments
    /\ membersOf env cid = Some fetchedMembers
    /\ receiptsOf env (S (receiptCalls w)) cid = Some receipts
    /\ mapM (formatPayment cid) fetchedPayments = Returns rows
    /\ mapM (formatMembership cid) (filter hasId fetchedMembers) = Returns mrows
    /\ payments (store w') = upsert same_payment rows (payments (store w))
    /\ memberships (store w')
       = upsert same_membership mrows (memberships (store w))
    /\ products (store w')
       = upsert same_product
           (map (formatProduct env cid) (extractProducts receipts))
           (products (store w)).
Proof.
  rewrite fullSync_run.
  destruct (upsertCompany_error (faults env)); [discriminate|].
  destruct (fst (fetchAll env cid (ensured cid w)))
    as [[[payments members] products]|] eqn:Hf; [|discriminate].
  apply SyncFacts.fetchAll_returns in Hf.
  destruct Hf as (p & m & rc & Hp & Hm & Hrc & Hx). inversion Hx; subst; clear Hx.
  cbn [ensured receiptCalls] in Hp, Hrc.
  destruct (mapM (formatPayment cid) p) as [rows|] eqn:Hrows; [|discriminate].
  destruct (mapM (formatMembership cid) (filter hasId m)) as [mrows|] eqn:Hmrows;
    [|discriminate].
  cbv zeta.
  pose proof (SyncFacts.insertAll_store env rows mrows
                (map (formatProduct env cid) (extractProducts rc)) (fetched cid w))
    as Hs.
  destruct (insertAll env rows mrows
              (map (formatProduct env cid) (extractProducts rc)) (fetched cid w))
    as [[[[[] []] []]|e] w4]; [|discriminate].
  cbn [fst snd] in Hs. specialize (Hs eq_refl).
  destruct (updateLastSync_error (faults env)); [discriminate|].
  intros H; inversion H; subst r w'; clear H.
  exists p, m, rc, rows, mrows.
  destruct (tables_ensured cid (store w)) as (He1 & He2 & He3).
  repeat (split; [assumption|]).
  cbn [store setLastSync with_companies payments memberships products].
  rewrite Hs. unfold fetched.
  cbn [store with_products with_memberships with_payments payments memberships
         products].
  rewrite He1, He2, He3. auto.
Qed.

(** C1, as amended.  When the last-sync lookup answers,
    [syncCompanyData] skips, that is returns the success result with
    zero counts and the stored timestamp, calls the Whop API not once,
    sends nothing but the lookup and leaves the store as it is, if and
    only if [force] is false, a timestamp is stored for the company and
    it is less than one hour older than the clock.  In every other
    case it runs the full cycle [fullSync] under the [catch]: it
    issues the three fetches as soon as the company row is ensured.
    When no step fails it sends the normalised payments, memberships
    and products to the store, which upserts them, stores the new
    timestamp and returns success with the numbers of fetched records.
    When a step fails it returns a failure and the stored timestamp is
    the one it was. *)
Theorem sync_skips_iff_fresh env cid force w :
  getLastSync_error (faults env) = None ->
  let run := syncCompanyData env cid force w in
  let fresh :=
    force = false /\
    exists t, storedLastSync cid (store w) = Some t
              /\ atCheck (clock env) - t < 60 * 60 * 1000 in
  ((exists t, storedLastSync cid (store w) = Some t
              /\ fst run = Returns (skipResult t))
   /\ upstreamCalls (trace (snd run)) = upstreamCalls (trace w)
   /\ store (snd run) = store w
   <-> fresh)
  /\ (fresh -> trace (snd run) = trace w ++ [SelectLastSync cid])
  /\ (~ fresh ->
      run = try_catch (fullSync env cid) (syncFailed env)
              (logged (SelectLastSync cid) w))
  /\ (~ fresh -> upsertCompany_error (faults env) = None ->
      upstreamCalls (trace (snd run)) = (upstreamCalls (trace w) + 3)%nat)
  /\ (~ fresh -> stepsSucceed env cid w ->
      exists fetchedPayments fetchedMembers receipts rows mrows,
        receiptsOf env (receiptCalls w) cid = Some fetchedPayments
        /\ membersOf env cid = Some fetchedMembers
        /\ receiptsOf env (S (receiptCalls w)) cid = Some receipts
        /\ mapM (formatPayment cid) fetchedPayments = Returns rows
        /\ mapM (formatMembership cid) (filter hasId fetchedMembers)
           = Returns mrows
        /\ fst run
           = Returns {| success := true;
                        paymentsCount := List.length fetchedPayments;
                        membershipsCount := List.length fetchedMembers;
                        productsCount := List.length (extractProducts receipts);
                        syncedAt := atReturn (clock env);
                        error := None |}
        /\ trace (snd run)
           = trace w
             ++ [SelectLastSync cid]
             ++ [UpsertCompany cid; ListReceipts cid; ListMembers cid;
                 ListReceipts cid]
             ++ upsertRequests rows mrows
                  (map (formatProduct env cid) (extractProducts receipts))
             ++ [UpdateLastSync cid (atUpdate (clock env))]
        /\ payments (store (snd run))
           = upsert same_payment rows (payments (store w))
        /\ memberships (store (snd run))
           = upsert same_membership mrows (memberships (store w))
        /\ products (store (snd run))
           = upsert same_product
               (map (formatProduct env cid) (extractProducts receipts))
               (products (store w))
        /\ storedLastSync cid (store (snd run)) = Some (atUpdate (clock env)))
  /\ (~ fresh -> ~ stepsSucceed env cid w ->
      (exists message,
         fst run = Returns {| success := false; paymentsCount := 0;
                              membershipsCount := 0; productsCount := 0;
                              syncedAt := atReturn (clock env);
                              error := Some message |})
      /\ storedLastSync cid (store (snd run)) = storedLastSync cid (store w)).
Proof.
  intros Hl run fresh.
  pose proof (sync_run_cases env cid force w Hl) as Hrun. fold run in Hrun.
  assert (Hfresh : fresh <->
            exists t, freshSince env force (storedLastSync cid (store w)) = Some t).
  { subst fresh. split.
    - intros (Hf & t & Hs & Hlt). exists t. apply SyncFacts.freshSince_Some. auto.
    - intros (t & Ht). apply SyncFacts.freshSince_Some in Ht.
      destruct Ht as (Hf & Hs & Hlt). eauto. }
  assert (Hcalls : upstreamCalls (trace (logged (SelectLastSync cid) w))
                   = upstreamCalls (trace w)).
  { cbn [logged trace]. rewrite SyncFacts.upstreamCalls_app. cbn. lia. }
  destruct (freshSince env force (storedLastSync cid (store w))) as [t|] eqn:Ef.
  - (* the data is fresh *)
    assert (Hyes : fresh) by (apply Hfresh; eauto).
    split; [|split; [|split; [|split; [|split]]; intros Hno; contradiction]].
    + split; [intros _; exact Hyes|intros _].
      rewrite Hrun. cbn [fst snd]. repeat split.
      * exists t. split; [|reflexivity].
        apply SyncFacts.freshSince_Some in Ef. tauto.
      * exact Hcalls.
    + intros _. rewrite Hrun. reflexivity.
  - (* a full sync *)
    assert (Hno : ~ fresh).
    { intros Hyes. apply Hfresh in Hyes. destruct Hyes as (t & Ht). discriminate. }
    assert (H3 : upsertCompany_error (faults env) = None ->
                 upstreamCalls (trace (snd run))
                 = (upstreamCalls (trace w) + 3)%nat).
    { intros Hu. rewrite Hrun. unfold try_catch, syncFailed.
      pose proof (SyncFacts.fullSync_upstreamCalls env cid
                    (logged (SelectLastSync cid) w) Hu) as Hc.
      destruct (fullSync env cid (logged (SelectLastSync cid) w)) as [[r|e] w'];
        cbn [snd ret Async_Monad] in *; rewrite Hc, Hcalls; reflexivity. }
    split; [|split; [|split; [|split; [|split]]]].
    + split; [|intros Hyes; contradiction].
      intros ((t & Hs & Hr) & Hc & _). exfalso.
      destruct (upsertCompany_error (faults env)) as [e|] eqn:Hu.
      * rewrite Hrun in Hr. unfold try_catch in Hr.
        rewrite (SyncFacts.fullSync_upsert_fails _ _ _ _ Hu) in Hr.
        cbn in Hr. discriminate.
      * rewrite (H3 eq_refl) in Hc. lia.
    + intros Hyes. contradiction.
    + intros _. exact Hrun.
    + intros _. exact H3.
    + intros _ Hsteps. rewrite Hrun. unfold try_catch.
      destruct (SyncFacts.fullSync_complete env cid
                  (logged (SelectLastSync cid) w) Hsteps) as (r & w' & Hfull).
      rewrite Hfull. cbn [fst snd].
      pose proof (SyncFacts.fullSync_returns _ _ _ _ _ Hfull)
        as (p & m & rc & rows & mrows
            & Hp & Hm & Hrc & Hrows & Hmrows & Hr & Htrace & _ & Hstored & _).
      pose proof (fullSync_returns_tables _ _ _ _ _ Hfull)
        as (p' & m' & rc' & rows' & mrows'
            & Hp' & Hm' & Hrc' & Hrows' & Hmrows' & Hsp & Hsm & Hsq).
      cbn [logged receiptCalls store trace] in *.
      rewrite Hp in Hp'. inversion Hp'; subst p'.
      rewrite Hm in Hm'. inversion Hm'; subst m'.
      rewrite Hrc in Hrc'. inversion Hrc'; subst rc'.
      rewrite Hrows in Hrows'. inversion Hrows'; subst rows'.
      rewrite Hmrows in Hmrows'. inversion Hmrows'; subst mrows'.
      exists p, m, rc, rows, mrows.
      repeat (split; [assumption|]).
      split; [rewrite Hr; reflexivity|].
      split; [rewrite Htrace, <- app_assoc; reflexivity|].
      auto.
    + intros _ Hsteps.
      assert (Hfail : exists message,
                fst run = Returns {| success := false; paymentsCount := 0;
                                     membershipsCount := 0; productsCount := 0;
                                     syncedAt := atReturn (clock env);
                                     error := Some message |}).
      { rewrite Hrun. unfold try_catch, syncFailed.
        destruct (fullSync env cid (logged (SelectLastSync cid) w))
          as [[r|e] w'] eqn:Hfull.
        - exfalso. apply Hsteps.
          apply SyncFacts.fullSync_returns in Hfull.
          destruct Hfull as (p & m & rc & rows & mrows
                             & _ & _ & _ & _ & _ & _ & _ & _ & _ & Hok).
          exact Hok.
        - exists (errorText e). reflexivity. }
      split; [exact Hfail|].
      destruct Hfail as (message & Hr).
      destruct (sync_writes env cid force w)
        as (_ & _ & _ & _ & _ & _ & _ & _ & _ & _ & _ & _ & Hc).
      fold run in Hc.
      destruct Hc as [Hc|[Hc|((r' & Hr' & Hs) & _)]].
      * apply storedLastSync_companies. exact Hc.
      * rewrite (storedLastSync_companies cid _ _ Hc). apply storedLastSync_ensured.
      * rewrite Hr in Hr'. inversion Hr'; subst. discriminate.
Qed.

Lemma sync_skips_iff_fresh_witness :
  getLastSync_error (faults anEnv) = None
  /\ fst (syncCompanyData anEnv "biz_1" false syncedTenMinutesAgo)
     = Returns (skipResult (t0 - 600000))
  /\ upstreamCalls
       (trace (snd (syncCompanyData anEnv "biz_1" true syncedTenMinutesAgo)))
     = 3%nat
  /\ map pay_id
       (payments
          (store (snd (syncCompanyData anEnv "biz_1" true syncedTenMinutesAgo))))
     = ["pay_1"; "pay_2"]
  /\ storedLastSync "biz_1"
       (store (snd (syncCompanyData anEnv "biz_1" true syncedTenMinutesAgo)))
     = Some (t0 + 900).
Proof.
  split; [reflexivity|]. split; [|split].
  - destruct (sync_skips_iff_fresh anEnv "biz_1" false syncedTenMinutesAgo eq_refl)
      as [[_ Hskip] _].
    destruct Hskip as [(t & Ht & Hr) _].
    + split; [reflexivity|]. exists (t0 - 600000). split; [reflexivity|].
      vm_compute. reflexivity.
    + rewrite Hr. inversion Ht. reflexivity.
  - destruct (sync_skips_iff_fresh anEnv "biz_1" true syncedTenMinutesAgo eq_refl)
      as (_ & _ & _ & H3 & _).
    apply H3; [|reflexivity]. intros (Hf & _). discriminate.
  - destruct (sync_skips_iff_fresh anEnv "biz_1" true syncedTenMinutesAgo eq_refl)
      as (_ & _ & _ & _ & Hfull & _).
    assert (Hsteps : stepsSucceed anEnv "biz_1" syncedTenMinutesAgo).
    { assert (Hrun : fullSync anEnv "biz_1" syncedTenMinutesAgo
                     = (Returns {| success := true; paymentsCount := 2;
                                   membershipsCount := 2; productsCount := 1;
                                   syncedAt := t0 + 950; error := None |},
                        snd (fullSync anEnv "biz_1" syncedTenMinutesAgo)))
        by (vm_compute; reflexivity).
      apply SyncFacts.fullSync_returns in Hrun.
      destruct Hrun as (p & m & rc & rows & mrows
                        & _ & _ & _ & _ & _ & _ & _ & _ & _ & Hok).
      exact Hok. }
    destruct Hfull as (p & m & rc & rows & mrows & Hp & _ & _ & Hrows & _ & _ & _
                       & Hpay & _ & _ & Hstored).
    + intros (Hf & _). discriminate.
    + exact Hsteps.
    + split; [|exact Hstored].
      rewrite Hpay. inversion Hp; subst p. vm_compute in Hrows.
      inversion Hrows; subst rows. reflexivity.
Defined.

(** A forced sync while the Whop API is down sends no row to the store
    and leaves the timestamp as it was; and a sync whose lookup of the
    timestamp fails does not skip, although the data is ten minutes
    old and the sync is not forced. *)
Lemma forced_sync_stops_when_a_step_fails :
  let run := syncCompanyData whopDown "biz_1" true syncedTenMinutesAgo in
  let blind := syncCompanyData storeDown "biz_1" false syncedTenMinutesAgo in
  (exists r, fst run = Returns r /\ success r = false)
  /\ paymentRowsWritten (trace (snd run)) = []
  /\ membershipRowsWritten (trace (snd run)) = []
  /\ productRowsWritten (trace (snd run)) = []
  /\ payments (store (snd run)) = []
  /\ storedLastSync "biz_1" (store (snd run)) = Some (t0 - 600000)
  /\ storedLastSync "biz_1" (store syncedTenMinutesAgo) = Some (t0 - 600000)
  /\ atCheck (clock storeDown) - (t0 - 600000) < 60 * 60 * 1000
  /\ (exists r, fst blind = Returns r /\ success r = false)
  /\ fst blind <> Returns (skipResult (t0 - 600000)).
Proof.
  cbv zeta. split; [eexists; split; vm_compute; reflexivity|].
  repeat (split; [vm_compute; reflexivity|]).
  split; [eexists; split; vm_compute; reflexivity|].
  vm_compute. discriminate.
Qed.

Lemma distinct_payment_keys rows :
  NoDup (map pay_id rows) ->
  ForallOrdPairs (fun a b => same_payment b a = false) rows.
Proof.
  induction rows as [|r rows IH]; cbn [map]; intros Hnd; [constructor|].
  inversion Hnd as [|? ? Hnotin Hnd']; subst. constructor; [|apply IH; exact Hnd'].
  apply Forall_forall. intros b Hb. unfold same_payment.
  destruct (String.eqb (pay_id b) (pay_id r)) eqn:E; [|apply andb_false_r].
  apply String.eqb_eq in E. exfalso. apply Hnotin. rewrite <- E.
  apply in_map. exact Hb.
Qed.

Lemma distinct_membership_keys rows :
  NoDup (map mem_id rows) ->
  ForallOrdPairs (fun a b => same_membership b a = false) rows.
Proof.
  induction rows as [|r rows IH]; cbn [map]; intros Hnd; [constructor|].
  inversion Hnd as [|? ? Hnotin Hnd']; subst. constructor; [|apply IH; exact Hnd'].
  apply Forall_forall. intros b Hb. unfold same_membership.
  destruct (String.eqb (mem_id b) (mem_id r)) eqn:E; [|apply andb_false_r].
  apply String.eqb_eq in E. exfalso. apply Hnotin. rewrite <- E.
  apply in_map. exact Hb.
Qed.

(** X9.  After a successful sync the cache holds the normalised form of
    every fetched receipt and of every fetched member that carries an
    id, provided their ids are pairwise distinct; and every row of the
    two tables is such a row or was there before. *)
Theorem successful_sync_caches_what_it_fetched env cid force w r w' :
  syncCompanyData env cid force w = (Returns r, w') ->
  success r = true ->
  freshSince env force (storedLastSync cid (store w)) = None ->
  exists fetchedPayments fetchedMembers rows mrows,
    receiptsOf env (receiptCalls w) cid = Some fetchedPayments
    /\ membersOf env cid = Some fetchedMembers
    /\ mapM (formatPayment cid) fetchedPayments = Returns rows
    /\ mapM (formatMembership cid) (filter hasId fetchedMembers) = Returns mrows
    /\ (NoDup (map pay_id rows) -> incl rows (payments (store w')))
    /\ (NoDup (map mem_id mrows) -> incl mrows (memberships (store w')))
    /\ (forall row, In row (payments (store w')) ->
          In row rows \/ In row (payments (store w)))
    /\ (forall row, In row (memberships (store w')) ->
          In row mrows \/ In row (memberships (store w))).
Proof.
  intros Hrun Hs Hstale.
  apply successful_full_sync in Hrun; [|exact Hs|exact Hstale].
  apply fullSync_returns_tables in Hrun.
  destruct Hrun as (p & m & rc & rows & mrows & Hp & Hm & _ & Hrows & Hmrows
                    & Hsp & Hsm & _).
  cbn [logged receiptCalls store] in *.
  exists p, m, rows, mrows.
  repeat (split; [assumption|]).
  rewrite Hsp, Hsm. split; [|split; [|split]].
  - intros Hnd row Hin. apply upsert_In; [apply distinct_payment_keys|]; assumption.
  - intros Hnd row Hin. apply upsert_In; [apply distinct_membership_keys|]; assumption.
  - intros row. apply upsert_from.
  - intros row. apply upsert_from.
Qed.

Lemma successful_sync_witness :
  exists rows,
    mapM (formatPayment "biz_1") [Some aReceipt; Some openReceipt] = Returns rows
    /\ (NoDup (map pay_id rows) ->
        incl rows
          (payments (store (snd (syncCompanyData anEnv "biz_1" false neverSynced))))).
Proof.
  assert (Hrun : syncCompanyData anEnv "biz_1" false neverSynced
                 = (Returns {| success := true; paymentsCount := 2;
                               membershipsCount := 2; productsCount := 1;
                               syncedAt := t0 + 950; error := None |},
                    snd (syncCompanyData anEnv "biz_1" false neverSynced)))
    by (vm_compute; reflexivity).
  destruct (successful_sync_caches_what_it_fetched anEnv "biz_1" false
              neverSynced _ _ Hrun eq_refl eq_refl)
    as (p & m & rows & mrows & Hp & _ & Hrows & _ & Hin & _).
  inversion Hp; subst p; clear Hp.
  exists rows. split; [exact Hrows|exact Hin].
Defined.

(** X10.  [fetchAllProducts] keeps one product for each non-empty
    access-pass id among the receipts: the ids of the result are
    pairwise distinct, each product is built from the first receipt
    that carries its id, every carried id is represented, and there
    are at most as many products as receipts. *)
Theorem extracted_products_are_unique receipts :
  let products := extractProducts receipts in
  NoDup (map p_id products)
  /\ (forall q, In q products <->
        exists receipt, firstCarrying (p_id q) receipts = Some receipt
                        /\ productOf receipt = Some q)
  /\ (forall r ap id,
        In (Some r) receipts -> r_accessPass r = Some ap ->
        ap_id ap = Some id -> id <> "" ->
        In id (map p_id products))
  /\ (List.length products <= List.length receipts)%nat.
Proof.
  cbv zeta. rewrite extractProducts_fold.
  destruct (fold_addProduct receipts [] (NoDup_nil _)) as (Hnd & Hin & Hlen).
  split; [exact Hnd|]. split; [|split; [|exact Hlen]].
  - intros q. rewrite Hin. split.
    + intros [[]|(_ & H)]. exact H.
    + intros H. right. split; [intros []|exact H].
  - intros r ap id Hr Hap Hid Hne.
    assert (Hq : exists q, productOf (Some r) = Some q /\ p_id q = id).
    { unfold productOf. rewrite Hap, Hid.
      destruct id as [|c id]; [contradiction|]. cbn. eauto. }
    destruct Hq as (q & Hq & Hqid).
    destruct (firstCarrying id receipts) as [receipt|] eqn:Hfirst.
    + destruct (firstCarrying_Some _ _ _ Hfirst) as (_ & q' & Hq' & Hid').
      apply in_map_iff. exists q'. split; [exact Hid'|].
      apply Hin. right. split; [intros []|]. exists receipt.
      rewrite Hid'. split; assumption.
    + exfalso. unfold firstCarrying in Hfirst.
      pose proof (find_none _ _ Hfirst _ Hr) as Hnone. cbv beta in Hnone.
      rewrite Hq, Hqid, String.eqb_refl in Hnone. discriminate.
Qed.

Lemma mapM_all_return {A B : Type} (f : A -> Outcome B) l l' :
  mapM f l = Returns l' -> Forall (fun x => exists y, f x = Returns y) l.
Proof.
  revert l'. induction l as [|x l IH]; intros l'; cbn [mapM]; [constructor|].
  destruct (f x) as [y|] eqn:E; [|discriminate].
  destruct (mapM f l) as [ys|]; [|discriminate].
  intros _. constructor; [eauto|]. apply (IH ys). reflexivity.
Qed.

Lemma formattable_iff cid x :
  (exists row, formatPayment cid x = Returns row) <-> formattable x = true.
Proof.
  split.
  - intros (row & Hrow). destruct x as [p|]; [|discriminate].
    apply formatPayment_texts in Hrow. tauto.
  - destruct x as [p|]; [apply SyncFacts.formattable_returns|discriminate].
Qed.

(** X11.  [formatPayment] fails exactly on a [null] node and on a
    receipt with a time value that a [Date] cannot hold; whatever it
    throws is an [Error].  When it succeeds the three timestamps are
    the epoch seconds times 1000, and a missing or zero time value is
    stored as [null]. *)
Theorem formatPayment_fails_on_null_and_out_of_range cid x :
  ((exists row, formatPayment cid x = Returns row) <-> formattable x = true)
  /\ (forall e, formatPayment cid x = Throws e ->
        exists message, e = ErrorInstance message)
  /\ (forall p row, x = Some p -> formatPayment cid x = Returns row ->
        pay_created_at row = millisOrNull (r_createdAt p)
        /\ pay_paid_at row = millisOrNull (r_paidAt p)
        /\ pay_refunded_at row = millisOrNull (r_refundedAt p)).
Proof.
  split; [apply formattable_iff|split].
  - intros e. destruct x as [p|]; [|intros H; inversion H; eauto].
    unfold formatPayment, isoOrNull, toISOString. cbn [bind ret Outcome_Monad].
    repeat match goal with
    | |- context [match ?s with Some _ => _ | None => _ end] =>
        destruct s; cbn [bind ret Outcome_Monad]
    | |- context [if ?b then _ else _] =>
        destruct b; cbn [bind ret Outcome_Monad]
    end; intros H; inversion H; eauto.
  - intros p row -> Hrow. apply formatPayment_texts in Hrow. tauto.
Qed.

(** X12.  One receipt that cannot be normalised stops the whole sync
    once the three fetches are done: the result is a failure, no batch
    is sent to the store, not even the memberships and the products,
    and the tables and the [last_sync] stay as they were. *)
Theorem one_bad_receipt_stops_the_sync env cid force w fetchedPayments :
  getLastSync_error (faults env) = None ->
  freshSince env force (storedLastSync cid (store w)) = None ->
  upsertCompany_error (faults env) = None ->
  receiptsOf env (receiptCalls w) cid = Some fetchedPayments ->
  membersOf env cid <> None ->
  receiptsOf env (S (receiptCalls w)) cid <> None ->
  Exists (fun x => formattable x = false) fetchedPayments ->
  let run := syncCompanyData env cid force w in
  (exists r, fst run = Returns r /\ success r = false)
  /\ snd run = fetched cid (logged (SelectLastSync cid) w).
Proof.
  intros Hl Hstale Hu Hp Hm Hrc Hbad. cbv zeta.
  rewrite SyncFacts.syncCompanyData_run, SyncFacts.syncBody_run, Hl, Hstale,
    fullSync_run, Hu.
  destruct (membersOf env cid) as [m|] eqn:Em; [|contradiction].
  destruct (receiptsOf env (S (receiptCalls w)) cid) as [rc|] eqn:Erc;
    [|contradiction].
  pose proof (SyncFacts.fetchAll_complete env cid
                (ensured cid (logged (SelectLastSync cid) w)) _ _ _ Hp Em Erc) as Hf.
  rewrite Hf.
  destruct (mapM (formatPayment cid) fetchedPayments) as [rows|e] eqn:Hrows.
  - exfalso. apply mapM_all_return in Hrows.
    apply Exists_exists in Hbad. destruct Hbad as (x & Hin & Hx).
    rewrite Forall_forall in Hrows. specialize (Hrows x Hin).
    apply formattable_iff in Hrows. congruence.
  - cbn [fst snd]. split; [|reflexivity]. eexists. split; reflexivity.
Qed.

Lemma one_bad_receipt_witness :
  (exists r, fst (syncCompanyData holedEnv "biz_1" false neverSynced) = Returns r
             /\ success r = false)
  /\ payments (store (snd (syncCompanyData holedEnv "biz_1" false neverSynced)))
     = [].
Proof.
  destruct (one_bad_receipt_stops_the_sync holedEnv "biz_1" false neverSynced
              [Some aReceipt; None] eq_refl eq_refl eq_refl eq_refl
              ltac:(discriminate) ltac:(discriminate)
              (Exists_cons_tl _ (Exists_cons_hd _ None [] eq_refl)))
    as (Hr & Hw).
  split; [exact Hr|]. rewrite Hw. reflexivity.
Defined.

End SyncCycle.

(* ================================================================== *)
(** * Further properties of the metrics engine *)

Module ReportFacts.
Import Store Calculator Fixtures Reports MoreFixtures.

(** *** Counting and summing over permutations *)

Lemma countWhere_perm {R : Type} (f : R -> bool) l l' :
  Permutation l l' -> countWhere f l = countWhere f l'.
Proof.
  unfold countWhere. induction 1; cbn [filter]; try congruence.
  - destruct (f x); cbn [List.length]; congruence.
  - destruct (f x), (f y); reflexivity.
Qed.

Lemma totalMinor_perm l l' :
  Permutation l l' -> totalMinor l = totalMinor l'.
Proof.
  unfold totalMinor. induction 1; cbn [fold_right]; lia.
Qed.

Lemma filter_perm {R : Type} (f : R -> bool) l l' :
  Permutation l l' -> Permutation (filter f l) (filter f l').
Proof.
  induction 1; cbn [filter].
  - constructor.
  - destruct (f x); [constructor|]; assumption.
  - destruct (f x), (f y); try apply Permutation_refl. constructor.
  - eapply Permutation_trans; eassumption.
Qed.

Lemma sumValues_perm l l' :
  Permutation l l' -> (sumValues l == sumValues l')%Q.
Proof.
  unfold sumValues. induction 1; cbn [fold_right].
  - reflexivity.
  - rewrite IHPermutation. reflexivity.
  - ring.
  - etransitivity; eassumption.
Qed.

Lemma sumValues_app l l' :
  (sumValues (l ++ l') == sumValues l + sumValues l')%Q.
Proof.
  unfold sumValues. induction l as [|x l IH]; cbn [app fold_right].
  - ring.
  - rewrite IH. ring.
Qed.

(** *** Dictionaries of counters *)

Section Counters.
Context `{DateFns}.

Lemma total_update key (d : Dict nat) :
  totalCount (update key (fun old => S (match old with Some v => v | None => O end)) d)
  = S (totalCount d).
Proof.
  unfold totalCount, list_sum. induction d as [|[k v] d IH]; cbn [update].
  - reflexivity.
  - destruct (String.eqb k key); cbn in *; lia.
Qed.

Lemma countOnDate_keys (acc : Dict nat) m :
  NoDup (keys acc) -> NoDup (keys (countOnDate acc m)).
Proof.
  intros Hacc. unfold countOnDate. destruct (mem_created_at m); [|exact Hacc].
  apply CalculatorFacts.keys_update_NoDup. exact Hacc.
Qed.

Lemma countOnDate_lookup (acc : Dict nat) m d :
  lookup d (countOnDate acc m)
  = if createdOn d m
    then Some (S (match lookup d acc with Some v => v | None => O end))
    else lookup d acc.
Proof.
  unfold countOnDate, createdOn. destruct (mem_created_at m) as [t|]; [|reflexivity].
  rewrite CalculatorFacts.lookup_update.
  destruct (String.eqb (format_yyyy_MM_dd t) d) eqn:E; [|reflexivity].
  apply String.eqb_eq in E. subst d. reflexivity.
Qed.

Lemma countOnDate_total (acc : Dict nat) m :
  totalCount (countOnDate acc m)
  = (totalCount acc + if notNull (mem_created_at m) then 1 else 0)%nat.
Proof.
  unfold countOnDate. destruct (mem_created_at m); cbn [notNull]; [|lia].
  rewrite total_update. lia.
Qed.

Lemma groupByCreationDate_gen (data : list MembershipRow) : forall acc,
  NoDup (keys acc) ->
  NoDup (keys (fold_left countOnDate data acc))
  /\ (forall d, lookup d (fold_left countOnDate data acc)
                = match countWhere (createdOn d) data, lookup d acc with
                  | O, old => old
                  | S n, Some v => Some (S n + v)%nat
                  | S n, None => Some (S n)
                  end)
  /\ totalCount (fold_left countOnDate data acc)
     = (totalCount acc
        + countWhere (fun m => notNull (mem_created_at m)) data)%nat.
Proof.
  induction data as [|m data IH]; intros acc Hacc; cbn [fold_left].
  - split; [exact Hacc|]. split; [reflexivity|]. cbn. lia.
  - destruct (IH _ (countOnDate_keys acc m Hacc)) as (Hn & Hl & Ht).
    split; [exact Hn|]. split.
    + intros d. rewrite Hl, countOnDate_lookup. unfold countWhere. cbn [filter].
      destruct (createdOn d m); cbn [List.length].
      * destruct (List.length (filter (createdOn d) data)), (lookup d acc);
          f_equal; lia.
      * reflexivity.
    + rewrite Ht, countOnDate_total. unfold countWhere. cbn [filter].
      destruct (notNull (mem_created_at m)); cbn [List.length]; lia.
Qed.

Lemma In_lookup_iff {V : Type} key (v : V) (d : Dict V) :
  NoDup (keys d) -> (In (key, v) d <-> lookup key d = Some v).
Proof.
  intros Hn. split; [apply CalculatorFacts.In_lookup; exact Hn|].
  clear Hn. induction d as [|[k0 v0] d IH]; cbn [lookup]; [discriminate|].
  destruct (String.eqb k0 key) eqn:E.
  - apply String.eqb_eq in E. intros H'; inversion H'; subst. left; reflexivity.
  - intros H'. right. apply IH. exact H'.
Qed.

Lemma growth_series (db : Db) cid days now :
  getMemberGrowthTimeSeries db cid days now
  = Array_sort byDate
      (map toCountPoint
         (Object_entries
            (groupByCreationDate
               (Array_sort (byTimestamp mem_created_at)
                  (growthRows db cid days now))))).
Proof.
  unfold getMemberGrowthTimeSeries, growthRows.
  destruct (select db memberships (createdSince cid (subDays now days)))
    as [[|m rows]|]; reflexivity.
Qed.

Lemma growthRows_dated (db : Db) cid days now m :
  In m (growthRows db cid days now) -> notNull (mem_created_at m) = true.
Proof.
  unfold growthRows, select. destruct (reachable db); [|intros []].
  intros Hin. apply filter_In in Hin. destruct Hin as (_ & Hf).
  unfold createdSince in Hf. apply andb_true_iff in Hf. tauto.
Qed.

Lemma countWhere_all {R : Type} (f : R -> bool) l :
  (forall x, In x l -> f x = true) -> countWhere f l = List.length l.
Proof.
  unfold countWhere. induction l as [|x l IH]; intros Hall; [reflexivity|].
  cbn [filter]. rewrite (Hall x (or_introl eq_refl)). cbn [List.length].
  rewrite IH; [reflexivity|]. intros y Hy. apply Hall. right; exact Hy.
Qed.

Lemma sumValues_counts (d : Dict nat) :
  (sumValues (map toCountPoint d) == inject_Z (Z.of_nat (totalCount d)))%Q.
Proof.
  unfold sumValues, totalCount. induction d as [|[k v] d IH].
  - reflexivity.
  - cbn [map fold_right]. rewrite IH. cbn [toCountPoint point_value snd list_sum].
    change (list_sum (v :: map snd d)) with (v + list_sum (map snd d))%nat.
    rewrite Nat2Z.inj_add, inject_Z_plus. reflexivity.
Qed.

(** X13.  [getMemberGrowthTimeSeries] counts every membership of the
    window exactly once: the dates are strictly ascending, the value of
    a point is the number of memberships of the window created on that
    date, which is at least one, every membership of the window falls
    on a date of the series, and the values add up to the number of
    memberships of the window.  The values are the new memberships of
    each day, not a running total. *)
Theorem member_growth_counts_each_membership_once (db : Db) cid days now :
  let series := getMemberGrowthTimeSeries db cid days now in
  let rows := growthRows db cid days now in
  StronglySorted (fun a b => String.compare (date a) (date b) = Lt) series
  /\ (forall pt, In pt series ->
        point_value pt
        = inject_Z (Z.of_nat (countWhere (createdOn (date pt)) rows))
        /\ (1 <= countWhere (createdOn (date pt)) rows)%nat)
  /\ (forall m, In m rows ->
        exists pt, In pt series /\ createdOn (date pt) m = true)
  /\ (sumValues series == inject_Z (Z.of_nat (List.length rows)))%Q.
Proof.
  intros series rows.
  set (data := Array_sort (byTimestamp mem_created_at) rows).
  set (grouped := groupByCreationDate data).
  assert (Hdata : Permutation data rows) by apply CalculatorFacts.Array_sort_perm.
  assert (Hseries : series = Array_sort byDate (map toCountPoint (Object_entries grouped)))
    by apply growth_series.
  destruct (groupByCreationDate_gen data [] (NoDup_nil _)) as (Hn & Hl & Ht).
  fold (groupByCreationDate data) in Hn, Hl, Ht. fold grouped in Hn, Hl, Ht.
  assert (Hperm : Permutation series (map toCountPoint grouped)).
  { rewrite Hseries.
    eapply Permutation_trans; [apply CalculatorFacts.Array_sort_perm|].
    apply Permutation_map, CalculatorFacts.Object_entries_perm. }
  assert (Hentry : forall pt, In pt series <->
            exists n, lookup (date pt) grouped = Some n
                      /\ pt = toCountPoint (date pt, n)).
  { intros pt. split.
    - intros Hin. apply (Permutation_in _ Hperm) in Hin.
      apply in_map_iff in Hin. destruct Hin as ([k n] & <- & Hin).
      exists n. cbn [toCountPoint date fst]. split; [|reflexivity].
      apply CalculatorFacts.In_lookup; assumption.
    - intros (n & Hlook & ->).
      apply (Permutation_in _ (Permutation_sym Hperm)).
      apply in_map_iff. exists (date pt, n). split; [reflexivity|].
      apply In_lookup_iff; assumption. }
  assert (Hcount : forall d, countWhere (createdOn d) data
                             = countWhere (createdOn d) rows)
    by (intros d; apply countWhere_perm; exact Hdata).
  split; [|split; [|split]].
  - apply CalculatorFacts.Sorted_strict.
    + rewrite Hseries. apply CalculatorFacts.Array_sort_sorted.
      intros a b. apply CalculatorFacts.string_compare_asym.
    + eapply Permutation_NoDup.
      * apply Permutation_map, Permutation_sym, Hperm.
      * rewrite map_map. cbn [toCountPoint date]. exact Hn.
  - intros pt Hin. apply Hentry in Hin. destruct Hin as (n & Hlook & Hpt).
    rewrite Hl, Hcount in Hlook. cbn [lookup] in Hlook.
    destruct (countWhere (createdOn (date pt)) rows) as [|k]; [discriminate|].
    inversion Hlook; subst n. rewrite Hpt. cbn [toCountPoint point_value snd].
    split; [reflexivity|lia].
  - intros m Hm.
    pose proof (growthRows_dated db cid days now m Hm) as Hdated.
    destruct (mem_created_at m) as [t|] eqn:Et; [|discriminate].
    set (d := format_yyyy_MM_dd t).
    assert (Hon : createdOn d m = true).
    { unfold createdOn. rewrite Et. apply String.eqb_refl. }
    assert (Hpos : (1 <= countWhere (createdOn d) rows)%nat).
    { unfold countWhere.
      assert (Hin : In m (filter (createdOn d) rows))
        by (apply filter_In; split; assumption).
      destruct (filter (createdOn d) rows); [destruct Hin|cbn; lia]. }
    specialize (Hl d). rewrite Hcount in Hl. cbn [lookup] in Hl.
    destruct (countWhere (createdOn d) rows) as [|k] eqn:Ek; [lia|].
    exists (toCountPoint (d, S k)). split; [|exact Hon].
    apply Hentry. exists (S k). cbn [toCountPoint date fst]. auto.
  - rewrite (sumValues_perm _ _ Hperm), sumValues_counts, Ht.
    unfold totalCount at 1. cbn [map list_sum].
    rewrite (countWhere_perm _ _ _ Hdata).
    rewrite countWhere_all by (apply growthRows_dated). reflexivity.
Qed.

End Counters.

Section Series.
Context `{DateFns}.

Lemma round2_cents (v : Q) (c : Z) :
  (v == inject_Z c / 100)%Q -> round2 v = (inject_Z c / 100)%Q.
Proof.
  intros Hv. unfold round2. f_equal. f_equal.
  assert (E : (v * 100 + (1 # 2) == inject_Z c + (1 # 2))%Q)
    by (rewrite Hv; field).
  rewrite E.
  assert (Hlo : (inject_Z c <= inject_Z c + (1 # 2))%Q) by lra.
  assert (Hhi : (inject_Z c + (1 # 2) < inject_Z (c + 1))%Q)
    by (rewrite inject_Z_plus; change (inject_Z 1) with 1%Q; lra).
  pose proof (Qfloor_le (inject_Z c + (1 # 2))) as H1.
  pose proof (Qlt_floor (inject_Z c + (1 # 2))) as H2.
  assert (H3 : (inject_Z (Qfloor (inject_Z c + (1 # 2))) < inject_Z (c + 1))%Q)
    by (eapply Qle_lt_trans; eassumption).
  assert (H4 : (inject_Z c < inject_Z (Qfloor (inject_Z c + (1 # 2)) + 1))%Q)
    by (eapply Qle_lt_trans; eassumption).
  rewrite <- Zlt_Qlt in H3, H4. lia.
Qed.

Lemma totalMinor_cons p rows :
  totalMinor (p :: rows) = amountOrZero (pay_final_amount p) + totalMinor rows.
Proof. reflexivity. Qed.

Lemma addToDate_lookup (acc : Dict Q) p d :
  lookup d (addToDate acc p)
  = if paidOn d p then Some (orZero (lookup d acc) + major p)%Q
    else lookup d acc.
Proof.
  unfold addToDate, paidOn. destruct (pay_paid_at p) as [t|]; [|reflexivity].
  rewrite CalculatorFacts.lookup_update.
  destruct (String.eqb (format_yyyy_MM_dd t) d) eqn:E; [|reflexivity].
  apply String.eqb_eq in E. subst d. destruct (lookup _ acc); reflexivity.
Qed.

Lemma Qtotal_update key x (d : Dict Q) :
  (Qtotal (update key
             (fun old : option Q =>
                ((match old with Some v => v | None => 0 end) + x)%Q) d)
   == Qtotal d + x)%Q.
Proof.
  unfold Qtotal. induction d as [|[k v] d IH]; cbn [update fold_right snd].
  - ring.
  - destruct (String.eqb k key); cbn [fold_right snd]; [ring|].
    rewrite IH. ring.
Qed.

Lemma groupByDate_gen (data : list PaymentRow) : forall acc : Dict Q,
  (forall d,
     match lookup d (fold_left addToDate data acc) with
     | Some v =>
         (v == orZero (lookup d acc)
               + inject_Z (totalMinor (filter (paidOn d) data)) / 100)%Q
     | None => True
     end)
  /\ (Qtotal (fold_left addToDate data acc)
      == Qtotal acc
         + inject_Z (totalMinor
                       (filter (fun p => notNull (pay_paid_at p)) data)) / 100)%Q.
Proof.
  induction data as [|p data IH]; intros acc; cbn [fold_left filter].
  - split.
    + intros d. destruct (lookup d acc); [|exact I]. cbn. field.
    + cbn. field.
  - destruct (IH (addToDate acc p)) as (Hl & Ht). split.
    + intros d. specialize (Hl d).
      destruct (lookup d (fold_left addToDate data (addToDate acc p))) as [v|];
        [|exact I].
      rewrite Hl, addToDate_lookup.
      destruct (paidOn d p); [|reflexivity].
      rewrite totalMinor_cons, inject_Z_plus. cbn [orZero]. unfold major. field.
    + rewrite Ht. unfold addToDate at 1.
      destruct (pay_paid_at p) as [t|]; cbn [notNull]; [|reflexivity].
      rewrite Qtotal_update, totalMinor_cons, inject_Z_plus. field.
Qed.

Lemma windowRows_paid (db : Db) cid days now p :
  In p (windowRows db cid days now) -> notNull (pay_paid_at p) = true.
Proof.
  unfold windowRows, select. destruct (reachable db); [|intros []].
  intros Hin. apply filter_In in Hin. destruct Hin as (_ & Hf).
  unfold inWindow in Hf. apply andb_true_iff in Hf. tauto.
Qed.

Lemma filter_all {R : Type} (f : R -> bool) l :
  (forall x, In x l -> f x = true) -> filter f l = l.
Proof.
  induction l as [|x l IH]; intros Hall; [reflexivity|]. cbn [filter].
  rewrite (Hall x (or_introl eq_refl)), IH; [reflexivity|].
  intros y Hy. apply Hall. right; exact Hy.
Qed.

Lemma revenue_series (db : Db) cid days now :
  getRevenueTimeSeries db cid days now
  = Array_sort byDate
      (map toPoint
         (Object_entries
            (groupByDate
               (Array_sort (byTimestamp pay_paid_at)
                  (windowRows db cid days now))))).
Proof.
  unfold getRevenueTimeSeries, windowRows.
  destruct (select db payments (inWindow cid (subDays now days)))
    as [[|p rows]|]; reflexivity.
Qed.

(** X14.  The value of a point of [getRevenueTimeSeries] is the sum of
    the stored amounts of the payments of the window paid on that
    date, divided by 100, and the values of the series add up to the
    sum of the stored amounts of the whole window divided by 100: no
    payment of the window is lost or counted twice. *)
Theorem revenue_series_adds_up (db : Db) cid days now :
  let series := getRevenueTimeSeries db cid days now in
  let rows := windowRows db cid days now in
  (forall pt, In pt series ->
     point_value pt
     = (inject_Z (totalMinor (filter (paidOn (date pt)) rows)) / 100)%Q)
  /\ (sumValues series == inject_Z (totalMinor rows) / 100)%Q.
Proof.
  intros series rows.
  set (data := Array_sort (byTimestamp pay_paid_at) rows).
  set (grouped := groupByDate data).
  assert (Hdata : Permutation data rows) by apply CalculatorFacts.Array_sort_perm.
  assert (Hperm : Permutation series (map toPoint grouped)).
  { unfold series. rewrite revenue_series. fold rows. fold data. fold grouped.
    eapply Permutation_trans; [apply CalculatorFacts.Array_sort_perm|].
    apply Permutation_map, CalculatorFacts.Object_entries_perm. }
  destruct (groupByDate_gen data []) as (Hl & Ht).
  fold (groupByDate data) in Hl, Ht. fold grouped in Hl, Ht.
  destruct (CalculatorFacts.groupByDate_keys data) as (Hn & _).
  fold grouped in Hn.
  assert (Hvalue : forall k v, In (k, v) grouped ->
            (v == inject_Z (totalMinor (filter (paidOn k) rows)) / 100)%Q).
  { intros k v Hin. apply CalculatorFacts.In_lookup in Hin; [|exact Hn].
    specialize (Hl k). rewrite Hin in Hl. rewrite Hl. cbn [lookup orZero].
    rewrite (totalMinor_perm _ _ (filter_perm (paidOn k) _ _ Hdata)). field. }
  split.
  - intros pt Hin. apply (Permutation_in _ Hperm) in Hin.
    apply in_map_iff in Hin. destruct Hin as ([k v] & <- & Hin).
    cbn [toPoint point_value date fst snd]. apply round2_cents.
    apply Hvalue. exact Hin.
  - rewrite (sumValues_perm _ _ Hperm).
    assert (Hsum : (sumValues (map toPoint grouped) == Qtotal grouped)%Q).
    { clear Hl Ht Hn Hperm.
      induction grouped as [|[k v] g IH]; [reflexivity|].
      cbn [map sumValues Qtotal fold_right toPoint point_value snd].
      fold (sumValues (map toPoint g)). fold (Qtotal g).
      rewrite IH by (intros k' v' Hin; apply Hvalue; right; exact Hin).
      rewrite (round2_cents v _ (Hvalue k v (or_introl eq_refl))).
      rewrite <- (Hvalue k v (or_introl eq_refl)). reflexivity. }
    rewrite Hsum, Ht. cbn [Qtotal fold_right].
    rewrite (totalMinor_perm _ _
               (filter_perm (fun p => notNull (pay_paid_at p)) _ _ Hdata)).
    rewrite filter_all by (apply windowRows_paid). field.
Qed.

End Series.

Section Metrics.
Context `{DateFns}.

Lemma totalMinor_filters (f g f' g' : PaymentRow -> bool) rows :
  (forall p, In p rows ->
     (if f p then 1 else 0) + (if g p then 1 else 0)
     = (if f' p then 1 else 0) + (if g' p then 1 else 0)) ->
  totalMinor (filter f rows) + totalMinor (filter g rows)
  = totalMinor (filter f' rows) + totalMinor (filter g' rows).
Proof.
  induction rows as [|p rows IH]; intros Hall; [reflexivity|].
  assert (IH' := IH (fun q Hq => Hall q (or_intror Hq))).
  specialize (Hall p (or_introl eq_refl)). cbn [filter].
  destruct (f p), (g p), (f' p), (g' p); try lia;
    rewrite ?totalMinor_cons; lia.
Qed.

(** X15.  Both ends of a period count: two periods that share an
    instant both count the payments paid at that instant.  For
    [a <= b <= c] the revenue of [a, b] plus the revenue of [b, c] is
    the revenue of [a, c] plus the revenue of the instant [b]. *)
Theorem periods_share_their_boundary (db : Db) cid a b c :
  a <= b <= c ->
  periodRevenue db cid a b + periodRevenue db cid b c
  = periodRevenue db cid a c + periodRevenue db cid b b.
Proof.
  intros Habc. rewrite !RoundTrip.periodRevenue_total.
  unfold periodRows, select. destruct (reachable db); [|reflexivity].
  apply totalMinor_filters. intros p _. unfold paidBetween, gte, lte.
  destruct (String.eqb (pay_company_id p) cid && String.eqb (pay_status p) "paid");
    cbn [andb]; [|reflexivity].
  destruct (pay_paid_at p) as [t|]; [|reflexivity].
  destruct (Z.leb_spec a t), (Z.leb_spec t b), (Z.leb_spec b t), (Z.leb_spec t c);
    cbn [andb]; lia.
Qed.

End Metrics.

Lemma periods_share_their_boundary_witness :
  periodRevenue aCache "biz_1" (t0 - 6 * day) (t0 - 5 * day)
  + periodRevenue aCache "biz_1" (t0 - 5 * day) t0
  = 1999 + 999 + 1999.
Proof.
  rewrite (periods_share_their_boundary aCache "biz_1"
             (t0 - 6 * day) (t0 - 5 * day) t0); [reflexivity|].
  vm_compute. split; discriminate.
Defined.

Lemma countWhere_exclusive {R : Type} (f g : R -> bool) l :
  (forall x, f x = true -> g x = false) ->
  (countWhere f l + countWhere g l <= List.length l)%nat.
Proof.
  intros Hex. unfold countWhere. induction l as [|x l IH]; [cbn; lia|].
  cbn [filter List.length]. specialize (Hex x).
  destruct (f x), (g x); cbn [List.length]; try lia.
Qed.

Lemma percentOf_range n total :
  (n <= total)%nat -> (0 <= percentOf n total)%Q /\ (percentOf n total <= 100)%Q.
Proof.
  intros Hle. unfold percentOf. destruct total as [|k]; [split; lra|].
  assert (Hpos : (0 < inject_Z (Z.of_nat (S k)))%Q)
    by (apply CalculatorFacts.inject_nat_pos; lia).
  assert (Hn : (0 <= inject_Z (Z.of_nat n))%Q)
    by (change 0%Q with (inject_Z 0); rewrite <- Zle_Qle; lia).
  assert (Hnk : (inject_Z (Z.of_nat n) <= inject_Z (Z.of_nat (S k)))%Q)
    by (rewrite <- Zle_Qle; lia).
  split.
  - apply Qmult_le_0_compat; [|lra]. apply Qle_shift_div_l; [exact Hpos|lra].
  - assert (Hq : (inject_Z (Z.of_nat n) / inject_Z (Z.of_nat (S k)) <= 1)%Q)
      by (apply Qle_shift_div_r; [exact Hpos|lra]).
    lra.
Qed.

Section Segments.
Context `{DateFns}.

Lemma new_excludes_active t m : isNew t m = true -> isActive t m = false.
Proof.
  unfold isNew, isActive. destruct (mem_created_at m) as [c|]; [|discriminate].
  rewrite andb_true_iff. intros (Hlt & _). apply Z.ltb_lt in Hlt.
  destruct (Z.leb_spec c t); [lia|]. apply andb_false_r.
Qed.

Lemma active_excludes_churned t m : isActive t m = true -> isChurned m = false.
Proof.
  unfold isActive, isChurned. rewrite !andb_true_iff.
  intros ((Hv & Hs) & _). rewrite Hv. apply String.eqb_eq in Hs. rewrite Hs.
  reflexivity.
Qed.

(** X16.  The four segments overlap, but not all of them: no customer
    is both new and active, and none is both active and churned, so
    that new + active and active + churned are each at most the number
    of unique paying customers.  Every percentage lies between 0 and
    100. *)
Theorem segments_shares_and_exclusive_pairs (db : Db) cid now :
  let segments := getCustomerSegmentation db cid now in
  let total := List.length (uniqueCustomerIdsOf (paidRows db cid)) in
  Forall (fun s => (0 <= percentage s)%Q /\ (percentage s <= 100)%Q) segments
  /\ exists n a r c,
       map seg_count segments = [n; a; r; c]
       /\ (n + a <= total)%nat /\ (a + c <= total)%nat.
Proof.
  intros segments total.
  assert (Hzero : forall t,
    Forall (fun s => (0 <= percentage s)%Q /\ (percentage s <= 100)%Q) zeroSegments
    /\ exists n a r c,
         map seg_count zeroSegments = [n; a; r; c]
         /\ (n + a <= t)%nat /\ (a + c <= t)%nat).
  { intros t. split.
    - CalculatorFacts.each_of_four ltac:(cbn; split; lra).
    - exists O, O, O, O. cbn. repeat split; lia. }
  unfold segments, total, getCustomerSegmentation, paidRows, select.
  destruct (reachable db); [|apply Hzero].
  destruct (filter _ (payments (tables db))) as [|p rows]; [apply Hzero|].
  set (ids := uniqueCustomerIdsOf (p :: rows)).
  pose proof (CalculatorFacts.uniqueCustomers_bound cid ids (memberships (tables db))
                (CalculatorFacts.Set_of_NoDup _)) as Hu.
  cbv zeta in Hu.
  destruct (filter _ (memberships (tables db))) as [|m ms]; [apply Hzero|].
  set (customers := map snd (groupByUser (m :: ms))) in *.
  split.
  - CalculatorFacts.each_of_four ltac:(cbn [percentage]; apply percentOf_range;
      eapply Nat.le_trans; [apply CalculatorFacts.countWhere_le|exact Hu]).
  - do 4 eexists. split; [reflexivity|]. split.
    + eapply Nat.le_trans; [|exact Hu].
      apply countWhere_exclusive. apply new_excludes_active.
    + eapply Nat.le_trans; [|exact Hu].
      apply countWhere_exclusive. apply active_excludes_churned.
Qed.

(** *** Churn, CLV and MRR *)





End Segments.


(** X19.  [getTopProducts] ranks every product once.  The product ids
    of the result are pairwise distinct; the result has
    [min(limit, n)] entries for a limit that is not negative and
    [max(0, n + limit)] entries for a negative one, [n] being the
    number of product ids carried by a paid payment that are not the
    name of a property inherited from [Object.prototype]; and with a
    limit of at least [n] every such product is in the result.  A
    payment whose product id is such a name, like ['toString'], is
    counted for no product. *)
Theorem top_products_rank_each_product_once db cid limit :
  let top := getTopProducts db cid limit in
  let n := Z.of_nat (List.length (rankedProducts db cid)) in
  NoDup (map productId top)
  /\ Z.of_nat (List.length top)
     = (if limit <? 0 then Z.max 0 (n + limit) else Z.min limit n)
  /\ (forall k, In k (rankedProducts db cid) <->
        exists p, In p (productRows db cid)
                  /\ orNull (pay_product_id p) = Some k
                  /\ inherited k = false)
  /\ (n <= limit -> forall k, In k (rankedProducts db cid) ->
        In k (map productId top))
  /\ (forall m, In m top -> inherited (productId m) = false).
Proof.
  intros top n. unfold top. rewrite CalculatorFacts.top_products_unfold.
  destruct (CalculatorFacts.ranking_facts db cid)
    as (Hids & Hn & _ & _ & Hranked).
  assert (Hlen : Z.of_nat (List.length (ranking db cid)) = n).
  { unfold n. rewrite <- (Permutation_length Hids), length_map. reflexivity. }
  destruct (CalculatorFacts.slice0_firstn (ranking db cid) limit)
    as (k & -> & Hkn).
  split; [|split; [|split; [|split]]].
  - rewrite <- firstn_map. apply CalculatorFacts.NoDup_firstn.
    eapply Permutation_NoDup; [symmetry; exact Hids|exact Hn].
  - rewrite length_firstn. rewrite Hlen in Hkn.
    destruct (Z.ltb_spec limit 0); lia.
  - exact Hranked.
  - intros Hall k' Hin. rewrite firstn_all2.
    + apply (Permutation_in _ (Permutation_sym Hids)). exact Hin.
    + rewrite Hlen in Hkn. destruct (Z.ltb_spec limit 0); lia.
  - intros m Hm. apply CalculatorFacts.firstn_In in Hm.
    assert (Hin : In (productId m) (rankedProducts db cid)).
    { apply (Permutation_in _ Hids). apply in_map. exact Hm. }
    apply Hranked in Hin. destruct Hin as (p & _ & _ & Hi). exact Hi.
Qed.

(** The payment of 90.00 for the product ['toString'] is in no entry. *)
Example inherited_product_id_is_not_ranked :
  map productId (getTopProducts threeProducts "biz_1" 5)
  = ["prod_b"; "prod_c"; "prod_a"].
Proof. vm_compute. reflexivity. Qed.

Section Dashboard.
Context `{DateFns}.

Lemma windowRows_In (db : Db) cid days now p :
  In p (windowRows db cid days now) <->
  reachable db = true /\ In p (payments (tables db))
  /\ pay_company_id p = cid /\ pay_status p = "paid"
  /\ exists t, pay_paid_at p = Some t /\ subDays now days <= t.
Proof.
  unfold windowRows, select. destruct (reachable db).
  - rewrite filter_In. unfold inWindow, gte, notNull.
    rewrite !andb_true_iff, !String.eqb_eq. split.
    + intros (Hin & ((Hc & Hs) & Hge) & Hnn).
      destruct (pay_paid_at p) as [t|]; [|discriminate].
      apply Z.leb_le in Hge. eauto 10.
    + intros (_ & Hin & Hc & Hs & t & Ht & Hge). rewrite Ht.
      apply Z.leb_le in Hge. auto 10.
  - split; [intros []|]. intros (Hr & _). discriminate.
Qed.

Lemma series_dates_iff (db : Db) cid days now d :
  In d (map date (getRevenueTimeSeries db cid days now)) <->
  exists p, In p (windowRows db cid days now) /\ hasDate d p.
Proof.
  rewrite CalculatorFacts.series_dates.
  set (data := Array_sort (byTimestamp pay_paid_at) (windowRows db cid days now)).
  assert (Hperm : Permutation
                    (map date (Array_sort byDate
                                 (map toPoint (Object_entries (groupByDate data)))))
                    (keys (groupByDate data))).
  { eapply Permutation_trans;
      [apply Permutation_map, CalculatorFacts.Array_sort_perm|].
    rewrite map_map. cbn [toPoint date].
    apply (CalculatorFacts.Object_keys_perm (groupByDate data)). }
  destruct (CalculatorFacts.groupByDate_keys data) as (_ & Hk).
  split.
  - intros Hin. apply (Permutation_in _ Hperm) in Hin. apply Hk in Hin.
    destruct Hin as (p & Hp & Hd). exists p. split; [|exact Hd].
    apply (CalculatorFacts.Array_sort_In (byTimestamp pay_paid_at)). exact Hp.
  - intros (p & Hp & Hd). apply (Permutation_in _ (Permutation_sym Hperm)).
    apply Hk. exists p. split; [|exact Hd].
    apply (CalculatorFacts.Array_sort_In (byTimestamp pay_paid_at)). exact Hp.
Qed.

(** X20.  In [getDashboardSummary] the revenue and the ARPU are
    computed for the requested range, but the time series is not: it
    shows the paid payments of the last [n] days before the current
    time, [n] being the length of the range in days, at most 365,
    whether they fall inside the range or not.  The member count, the
    churn rate, the MRR, the CLV, the top products and the segmentation
    are the same for every range. *)
Theorem summary_series_ends_now startOfMonth (db : Db) cid now
  startDate endDate :
  let s := Summary.getDashboardSummary startOfMonth db cid startDate endDate now in
  let range := rangeOf startOfMonth startDate endDate now in
  let n := Z.min 365 (daysBetween (fst range) (snd range)) in
  Summary.revenue s = calculateRevenue db cid (fst range) (snd range)
  /\ Summary.arpu s = calculateARPU db cid now (fst range) (snd range)
  /\ (forall d, In d (map date (Summary.revenueTimeSeries s)) <->
        exists p t,
          reachable db = true /\ In p (payments (tables db))
          /\ pay_company_id p = cid /\ pay_status p = "paid"
          /\ pay_paid_at p = Some t /\ subDays now n <= t
          /\ format_yyyy_MM_dd t = d)
  /\ (forall startDate' endDate',
        let s' := Summary.getDashboardSummary startOfMonth db cid
                    startDate' endDate' now in
        Summary.memberCount s' = Summary.memberCount s
        /\ Summary.churnRate s' = Summary.churnRate s
        /\ Summary.mrr s' = Summary.mrr s
        /\ Summary.clv s' = Summary.clv s
        /\ Summary.topProducts s' = Summary.topProducts s
        /\ Summary.customerSegments s' = Summary.customerSegments s)
  /\ rangeOf startOfMonth None None now = (startOfMonth now, now).
Proof.
  cbv zeta. unfold Summary.getDashboardSummary, rangeOf.
  cbn [Summary.revenue Summary.arpu Summary.revenueTimeSeries Summary.memberCount
         Summary.churnRate Summary.mrr Summary.clv Summary.topProducts
         Summary.customerSegments fst snd].
  split; [reflexivity|]. split; [reflexivity|]. split.
  { intros d.
    match goal with
    | |- context [if 365 <? ?x then _ else _] =>
        replace (if 365 <? x then 365 else x) with (Z.min 365 x)
          by (destruct (Z.ltb_spec 365 x); lia)
    end.
    rewrite series_dates_iff. split.
    - intros (p & Hp & t & Ht & Hd). apply windowRows_In in Hp.
      destruct Hp as (Hr & Hin & Hc & Hs & t' & Ht' & Hge).
      rewrite Ht in Ht'. inversion Ht'; subst t'. exists p, t. auto 10.
    - intros (p & t & Hr & Hin & Hc & Hs & Ht & Hge & Hd).
      exists p. split; [|exists t; auto]. apply windowRows_In. eauto 10. }
  split; [intros; repeat split|reflexivity].
Qed.

End Dashboard.

Lemma find_snoc {A : Type} (f : A -> bool) l x :
  find f (l ++ [x])
  = match find f l with
    | Some y => Some y
    | None => if f x then Some x else None
    end.
Proof.
  induction l as [|y l IH]; cbn [app find]; [reflexivity|].
  destruct (f y); [reflexivity|exact IH].
Qed.

Lemma find_none_iff {A : Type} (f : A -> bool) l :
  find f l = None <-> forall x, In x l -> f x = false.
Proof.
  split; [apply find_none|].
  induction l as [|y l IH]; intros Hall; [reflexivity|]. cbn [find].
  rewrite (Hall y (or_introl eq_refl)). apply IH. intros x Hx. apply Hall.
  right; exact Hx.
Qed.

Lemma lookup_snoc {V : Type} k u (v : V) (d : Dict V) :
  lookup k (d ++ [(u, v)])
  = match lookup k d with
    | Some y => Some y
    | None => if String.eqb u k then Some v else None
    end.
Proof.
  induction d as [|[k0 v0] d IH]; cbn [app lookup]; [reflexivity|].
  destruct (String.eqb k0 k); [reflexivity|exact IH].
Qed.

Lemma leb_refl s : String.leb s s = true.
Proof.
  unfold String.leb.
  pose proof (proj2 (String_as_OT.cmp_eq s s) eq_refl) as Heq.
  unfold String_as_OT.cmp in Heq. rewrite Heq. reflexivity.
Qed.

Lemma ltb_leb a b : String.ltb a b = true -> String.leb a b = true.
Proof.
  unfold String.ltb, String.leb. destruct (String.compare a b); auto.
Qed.

Lemma not_ltb_leb a b : String.ltb b a = false -> String.leb a b = true.
Proof.
  unfold String.ltb, String.leb. rewrite (String.compare_antisym a b).
  destruct (String.compare b a); cbn; auto.
Qed.

Lemma leb_trans a b c :
  String.leb a b = true -> String.leb b c = true -> String.leb a c = true.
Proof.
  unfold String.leb.
  destruct (String.compare a b) eqn:Eab; [|intros _|discriminate].
  - apply String.compare_eq_iff in Eab. subst b. auto.
  - destruct (String.compare b c) eqn:Ebc; [|intros _|discriminate].
    + apply String.compare_eq_iff in Ebc. subst c. rewrite Eab. auto.
    + rewrite (CalculatorFacts.string_lt_trans _ _ _ Eab Ebc). reflexivity.
Qed.

Lemma leb_not_ltb a b :
  String.leb a b = true -> String.ltb b a = true -> False.
Proof.
  unfold String.leb, String.ltb. rewrite (String.compare_antisym a b).
  destruct (String.compare b a); cbn; discriminate.
Qed.

Section Kept.
Context `{DateFns}.

Lemma keepMostRecent_lookup d x k :
  lookup k (keepMostRecent d x)
  = if ofUser k x
    then match lookup k d with
         | None => Some x
         | Some existing => if moreRecent x existing then Some x else Some existing
         end
    else lookup k d.
Proof.
  unfold keepMostRecent, ofUser.
  destruct (orNull (mem_user_id x)) as [u|]; [|reflexivity].
  destruct (String.eqb u k) eqn:E.
  - apply String.eqb_eq in E. subst k.
    destruct (lookup u d) as [existing|] eqn:El.
    + destruct (moreRecent x existing).
      * rewrite CalculatorFacts.lookup_update, String.eqb_refl. reflexivity.
      * exact El.
    + rewrite lookup_snoc, El, String.eqb_refl. reflexivity.
  - destruct (lookup u d) as [existing|] eqn:El.
    + destruct (moreRecent x existing); [|reflexivity].
      rewrite CalculatorFacts.lookup_update, E. reflexivity.
    + rewrite lookup_snoc, E. destruct (lookup k d); reflexivity.
Qed.

Lemma keptFor_snoc_other u m ms x :
  ofUser u x = false -> keptFor u m ms -> keptFor u m (ms ++ [x]).
Proof.
  intros Hx (Hin & Hu & first & Hfirst & Hdate).
  split; [apply in_app_iff; left; exact Hin|]. split; [exact Hu|].
  exists first. split; [rewrite find_snoc, Hfirst; reflexivity|].
  destruct (orNull (created_at first)) as [s0|]; [|exact Hdate].
  destruct Hdate as (s & Hs & Hle & Hmax). exists s.
  split; [exact Hs|]. split; [exact Hle|].
  intros m' s' Hin' Hu' Hs'. apply in_app_iff in Hin'.
  destruct Hin' as [Hin'|[<-|[]]]; [eapply Hmax; eassumption|congruence].
Qed.

Lemma moreRecent_true x existing :
  moreRecent x existing = true ->
  exists a b, orNull (created_at x) = Some a
              /\ orNull (created_at existing) = Some b
              /\ String.ltb b a = true.
Proof.
  unfold moreRecent.
  destruct (orNull (created_at x)) as [a|]; [|discriminate].
  destruct (orNull (created_at existing)) as [b|]; [|discriminate].
  intros Hlt. exists a, b. auto.
Qed.

Lemma moreRecent_false x existing a b :
  moreRecent x existing = false ->
  orNull (created_at x) = Some a ->
  orNull (created_at existing) = Some b ->
  String.leb a b = true.
Proof.
  unfold moreRecent. intros Hm Ha Hb. rewrite Ha, Hb in Hm.
  apply not_ltb_leb. exact Hm.
Qed.

Lemma groupByUser_invariant ms :
  (forall u m, lookup u (groupByUser ms) = Some m -> keptFor u m ms)
  /\ (forall u, lookup u (groupByUser ms) = None ->
        forall m, In m ms -> ofUser u m = false).
Proof.
  induction ms as [|x ms IH] using rev_ind.
  - split; [discriminate|intros u _ m []].
  - destruct IH as (IHkept & IHnone).
    unfold groupByUser in *. rewrite fold_left_app. cbn [fold_left].
    set (d := fold_left keepMostRecent ms []) in *.
    split.
    + intros u m. rewrite keepMostRecent_lookup.
      destruct (ofUser u x) eqn:Hux.
      * destruct (lookup u d) as [existing|] eqn:El.
        -- pose proof (IHkept u existing El) as (Hin & Hu & first & Hfirst & Hdate).
           destruct (moreRecent x existing) eqn:Hrecent.
           ++ intros Hm; inversion Hm; subst m; clear Hm.
              apply moreRecent_true in Hrecent.
              destruct Hrecent as (a & b & Ea & Eb & Hlt).
              split; [apply in_app_iff; right; left; reflexivity|].
              split; [exact Hux|]. exists first.
              split; [rewrite find_snoc, Hfirst; reflexivity|].
              destruct (orNull (created_at first)) as [s0|] eqn:E0.
              ** destruct Hdate as (s & Hs & Hle & Hmax).
                 rewrite Eb in Hs. inversion Hs; subst s. exists a.
                 split; [exact Ea|].
                 split; [eapply leb_trans; [exact Hle|apply ltb_leb; exact Hlt]|].
                 intros m' s' Hin' Hu' Hs'. apply in_app_iff in Hin'.
                 destruct Hin' as [Hin'|[<-|[]]].
                 --- eapply leb_trans;
                       [exact (Hmax m' s' Hin' Hu' Hs')|apply ltb_leb; exact Hlt].
                 --- rewrite Ea in Hs'. inversion Hs'. apply leb_refl.
              ** subst existing. congruence.
           ++ intros Hm; inversion Hm; subst m; clear Hm.
              split; [apply in_app_iff; left; exact Hin|].
              split; [exact Hu|]. exists first.
              split; [rewrite find_snoc, Hfirst; reflexivity|].
              destruct (orNull (created_at first)) as [s0|] eqn:E0; [|exact Hdate].
              destruct Hdate as (s & Hs & Hle & Hmax). exists s.
              split; [exact Hs|]. split; [exact Hle|].
              intros m' s' Hin' Hu' Hs'. apply in_app_iff in Hin'.
              destruct Hin' as [Hin'|[<-|[]]]; [eapply Hmax; eassumption|].
              exact (moreRecent_false _ _ _ _ Hrecent Hs' Hs).
        -- intros Hm; inversion Hm; subst m; clear Hm.
           pose proof (IHnone u El) as Hnone.
           split; [apply in_app_iff; right; left; reflexivity|].
           split; [exact Hux|]. exists x. split.
           ++ rewrite find_snoc.
              rewrite (proj2 (find_none_iff (ofUser u) ms) Hnone), Hux.
              reflexivity.
           ++ destruct (orNull (created_at x)) as [a|] eqn:Ea; [|reflexivity].
              exists a. split; [reflexivity|]. split; [apply leb_refl|].
              intros m' s' Hin' Hu' Hs'. apply in_app_iff in Hin'.
              destruct Hin' as [Hin'|[<-|[]]].
              ** rewrite (Hnone m' Hin') in Hu'. discriminate.
              ** rewrite Ea in Hs'. inversion Hs'. apply leb_refl.
      * intros Hm. apply keptFor_snoc_other; [exact Hux|]. apply IHkept. exact Hm.
    + intros u. rewrite keepMostRecent_lookup.
      destruct (ofUser u x) eqn:Hux.
      * destruct (lookup u d) as [existing|]; [|discriminate].
        destruct (moreRecent x existing); discriminate.
      * intros Hnone m Hin. apply in_app_iff in Hin.
        destruct Hin as [Hin|[<-|[]]]; [apply (IHnone u Hnone m Hin)|exact Hux].
Qed.

Lemma created_at_text ms m t :
  textsInOrder ms -> In m ms ->
  mem_created_at m = Some t -> orNull (created_at m) = Some (timestamptz t).
Proof.
  intros Horder Hin Ht. destruct (Horder m t Hin Ht) as [Hne _].
  unfold created_at. rewrite Ht. cbn [option_map].
  unfold orNull, truthy.
  destruct (timestamptz t); [contradiction|reflexivity].
Qed.

(** X21.  [getCustomerSegmentation] classifies a customer by one
    membership.  [groupByUser] keeps exactly one membership for each
    user that has one; it is a membership of that user.  The creation
    dates are compared as the texts the store returned: when the
    user's first membership carries one, no membership of the user has
    a greater text than the one kept, and when the first one carries
    none, it is the one kept, whatever the dates of the others.  Where
    the texts are in the order of the instants, the membership kept
    for a user whose first membership is dated is one that none of the
    user's memberships is more recent than. *)
Theorem one_membership_is_kept_per_user ms :
  let kept := groupByUser ms in
  NoDup (keys kept)
  /\ (forall u m, In (u, m) kept -> keptFor u m ms)
  /\ (forall u m, In m ms -> ofUser u m = true -> In u (keys kept))
  /\ (textsInOrder ms ->
      forall u m first t0,
        In (u, m) kept ->
        find (ofUser u) ms = Some first -> mem_created_at first = Some t0 ->
        exists t, mem_created_at m = Some t
                  /\ forall m' t', In m' ms -> ofUser u m' = true ->
                                   mem_created_at m' = Some t' -> t' <= t).
Proof.
  cbv zeta.
  destruct (CalculatorFacts.groupByUser_keys_gen ms [] (NoDup_nil _)) as (Hn & _).
  fold (groupByUser ms) in Hn.
  destruct (groupByUser_invariant ms) as (Hkept & Hnone).
  assert (Hfor : forall u m, In (u, m) (groupByUser ms) -> keptFor u m ms).
  { intros u m Hin. apply Hkept. apply CalculatorFacts.In_lookup; assumption. }
  split; [exact Hn|]. split; [exact Hfor|]. split.
  - intros u m Hin Hu.
    destruct (lookup u (groupByUser ms)) as [m'|] eqn:El.
    + apply (proj2 (In_lookup_iff u m' _ Hn)) in El.
      apply in_map_iff. exists (u, m'). split; [reflexivity|exact El].
    + rewrite (Hnone u El m Hin) in Hu. discriminate.
  - intros Horder u m first t0 Hin Hfirst Ht0.
    destruct (Hfor u m Hin) as (Hm & _ & first' & Hfirst' & Hdate).
    rewrite Hfirst in Hfirst'. inversion Hfirst'; subst first'; clear Hfirst'.
    apply find_some in Hfirst. destruct Hfirst as [Hfirst _].
    rewrite (created_at_text ms first t0 Horder Hfirst Ht0) in Hdate.
    destruct Hdate as (s & Hs & _ & Hmax).
    destruct (mem_created_at m) as [t|] eqn:Et.
    + exists t. split; [reflexivity|].
      intros m' t' Hin' Hu' Ht'.
      destruct (Z_le_gt_dec t' t) as [Hle|Hgt]; [exact Hle|exfalso].
      rewrite (created_at_text ms m t Horder Hm Et) in Hs. inversion Hs; subst s.
      pose proof (Hmax m' _ Hin' Hu' (created_at_text ms m' t' Horder Hin' Ht'))
        as Hleb.
      apply (leb_not_ltb _ _ Hleb).
      destruct (Horder m t Hm Et) as [_ Hmono]. apply (Hmono m' t' Hin' Ht'). lia.
    + unfold created_at in Hs. rewrite Et in Hs. discriminate.
Qed.

End Kept.

(** Of the two memberships of the example customer, the one created
    five days ago is kept, not the one created a year ago. *)
Lemma most_recent_membership_witness :
  textsInOrder (H := utc) [oldMembership; recentMembership]
  /\ groupByUser (H := utc) [oldMembership; recentMembership]
     = [("user_1", recentMembership)]
  /\ exists t, mem_created_at recentMembership = Some t /\ t0 - 365 * day <= t.
Proof.
  assert (Horder : textsInOrder (H := utc) [oldMembership; recentMembership]).
  { intros m t Hm Ht. split.
    - destruct Hm as [<-|[<-|[]]]; inversion Ht; subst t; vm_compute; discriminate.
    - intros m' t' Hm' Ht' Hlt.
      destruct Hm as [<-|[<-|[]]]; destruct Hm' as [<-|[<-|[]]];
        inversion Ht; subst t; inversion Ht'; subst t';
        solve [vm_compute; reflexivity | vm_compute in Hlt; discriminate]. }
  split; [exact Horder|]. split; [vm_compute; reflexivity|].
  destruct (one_membership_is_kept_per_user (H := utc)
              [oldMembership; recentMembership]) as (_ & _ & _ & Hrecent).
  destruct (Hrecent Horder "user_1" recentMembership oldMembership (t0 - 365 * day))
    as (t & Ht & Hmax).
  - vm_compute. left. reflexivity.
  - reflexivity.
  - reflexivity.
  - exists t. split; [exact Ht|].
    apply (Hmax oldMembership); [left; reflexivity|reflexivity|reflexivity].
Defined.

End ReportFacts.

(* ================================================================== *)
(** * Properties of the route handlers *)

Module RouteFacts.
Import Store Sync Fixtures Status MoreFixtures SyncCycle.

Lemma sync_returns env cid force w :
  exists r, fst (syncCompanyData env cid force w) = Returns r.
Proof.
  rewrite SyncFacts.syncCompanyData_run.
  destruct (syncBody env cid force w) as [[r|e] w']; cbn [fst]; eauto.
Qed.

Lemma forced_sync_runs_in_full env cid w :
  getLastSync_error (faults env) = None ->
  syncCompanyData env cid true w
  = try_catch (fullSync env cid) (syncFailed env) (logged (SelectLastSync cid) w).
Proof.
  intros Hl. rewrite (sync_run_cases _ _ _ _ Hl).
  destruct (freshSince env true (storedLastSync cid (store w))) as [t|] eqn:E;
    [|reflexivity].
  apply SyncFacts.freshSince_Some in E. destruct E as (E & _). discriminate.
Qed.

(** X22.  The webhook handler checks that a signature is present, not
    what it is: without one, or with an empty one, the answer is 401
    and neither the store nor the Whop API is touched; with any other
    text the answer is the same whatever the text and whatever the
    payload it is supposed to sign. *)
Theorem webhook_signature_is_only_checked_for_presence env body hw :
  (forall sig, truthy sig = false ->
     Webhook.POST env {| Webhook.text := Returns body; Webhook.signature := sig |} hw
     = (Webhook.InvalidSignature, hw))
  /\ (forall sig sig', truthy sig = true -> truthy sig' = true ->
        Webhook.POST env {| Webhook.text := Returns body; Webhook.signature := sig |} hw
        = Webhook.POST env
            {| Webhook.text := Returns body; Webhook.signature := sig' |} hw).
Proof.
  split.
  - intros sig Hs. unfold Webhook.POST, Webhook.verifyWebhookSignature.
    cbn [Webhook.text Webhook.signature]. rewrite Hs. reflexivity.
  - intros sig sig' Hs Hs'. unfold Webhook.POST, Webhook.verifyWebhookSignature.
    cbn [Webhook.text Webhook.signature]. rewrite Hs, Hs'. reflexivity.
Qed.

(** X23.  A signed event that names a company is acknowledged with 200
    whatever the sync does: [syncCompanyData] never throws and its
    result is not read, so a failed sync is acknowledged like a
    successful one.  The seven listed event types run a forced sync,
    which fetches even when the data is fresh; any other type runs no
    sync and leaves the cache as it is. *)
Theorem webhook_acknowledges_whatever_the_sync_does env req hw body event cid :
  Webhook.text req = Returns body ->
  truthy (Webhook.signature req) = true ->
  Webhook.JSON_parse env body = Returns (Webhook.Body event) ->
  Webhook.companyOf event = Some cid ->
  let run := Webhook.POST env req hw in
  let sync := syncCompanyData (Webhook.syncEnv env) cid true
                (Webhook.world hw) in
  fst run = Webhook.Processed (Webhook.ev_type event)
  /\ (Webhook.forcesSync (Webhook.ev_type event) = true ->
      Webhook.world (snd run) = snd sync
      /\ (getLastSync_error (faults (Webhook.syncEnv env)) = None ->
          upsertCompany_error (faults (Webhook.syncEnv env)) = None ->
          upstreamCalls (trace (Webhook.world (snd run)))
          = (upstreamCalls (trace (Webhook.world hw)) + 3)%nat))
  /\ (Webhook.forcesSync (Webhook.ev_type event) = false ->
      Webhook.world (snd run) = Webhook.world hw)
  /\ (Webhook.forcesSync (Webhook.ev_type event) = true <->
      exists ty, Webhook.ev_type event = Some ty /\ In ty Webhook.syncingEvents).
Proof.
  intros Htext Hsig Hparse Hcid. cbv zeta.
  unfold Webhook.POST, Webhook.verifyWebhookSignature.
  rewrite Htext, Hsig, Hparse, Hcid. cbn [negb].
  assert (Hworld : Webhook.world (Webhook.recordEvent env cid event hw)
                   = Webhook.world hw).
  { unfold Webhook.recordEvent. destruct (Webhook.auditFails env); reflexivity. }
  rewrite Hworld.
  destruct (sync_returns (Webhook.syncEnv env) cid true (Webhook.world hw))
    as (r & Hr).
  destruct (Webhook.forcesSync (Webhook.ev_type event)) eqn:Hforce.
  - pose proof (forced_sync_runs_in_full (Webhook.syncEnv env) cid
                  (Webhook.world hw)) as Hfull.
    pose proof (SyncFacts.fullSync_upstreamCalls (Webhook.syncEnv env) cid
                  (logged (SelectLastSync cid) (Webhook.world hw))) as Hcalls.
    destruct (syncCompanyData (Webhook.syncEnv env) cid true (Webhook.world hw))
      as [o w'] eqn:Hsync.
    cbn [fst snd] in *. subst o. cbn [fst snd Webhook.world].
    split; [reflexivity|]. split; [|split].
    + intros _. split; [reflexivity|]. intros Hl Hu.
      specialize (Hfull Hl). specialize (Hcalls Hu).
      unfold try_catch in Hfull.
      destruct (fullSync (Webhook.syncEnv env) cid
                  (logged (SelectLastSync cid) (Webhook.world hw)))
        as [[r'|e'] w''];
        cbn [fst snd] in *; inversion Hfull; subst;
        rewrite Hcalls; unfold logged; cbn [trace];
        rewrite SyncFacts.upstreamCalls_app; cbn; lia.
    + discriminate.
    + split; [intros _|reflexivity].
      unfold Webhook.forcesSync in Hforce.
      destruct (Webhook.ev_type event) as [ty|]; [|discriminate].
      exists ty. split; [reflexivity|].
      apply existsb_exists in Hforce. destruct Hforce as (x & Hx & E).
      apply String.eqb_eq in E. subst x. exact Hx.
  - cbn [fst snd]. split; [reflexivity|]. split; [discriminate|].
    split; [intros _; exact Hworld|].
    split; [discriminate|]. intros (ty & Hty & Hin).
    unfold Webhook.forcesSync in Hforce. rewrite Hty in Hforce.
    assert (existsb (String.eqb ty) Webhook.syncingEvents = true).
    { apply existsb_exists. exists ty. split; [exact Hin|apply String.eqb_refl]. }
    congruence.
Qed.

(** X24.  A webhook that is not acknowledged has changed nothing: when
    the answer is not 200 the store, the requests sent and the audit
    table are as before.  In particular an event without a company is
    answered with 400 before anything is written. *)
Theorem rejected_webhook_changes_nothing env req hw :
  let run := Webhook.POST env req hw in
  (Webhook.status (fst run) <> 200 -> snd run = hw)
  /\ (forall body event,
        Webhook.text req = Returns body ->
        truthy (Webhook.signature req) = true ->
        Webhook.JSON_parse env body = Returns (Webhook.Body event) ->
        Webhook.companyOf event = None ->
        fst run = Webhook.NoCompanyId /\ snd run = hw).
Proof.
  cbv zeta. split.
  - unfold Webhook.POST.
    destruct (Webhook.text req) as [body|e]; [|reflexivity].
    destruct (negb (Webhook.verifyWebhookSignature body (Webhook.signature req)));
      [reflexivity|].
    destruct (Webhook.JSON_parse env body) as [[|event]|e]; try reflexivity.
    destruct (Webhook.companyOf event) as [cid|]; [|reflexivity].
    destruct (Webhook.forcesSync (Webhook.ev_type event)).
    + destruct (sync_returns (Webhook.syncEnv env) cid true
                  (Webhook.world (Webhook.recordEvent env cid event hw)))
        as (r & Hr).
      destruct (syncCompanyData (Webhook.syncEnv env) cid true
                  (Webhook.world (Webhook.recordEvent env cid event hw)))
        as [o w'].
      cbn [fst] in Hr. subst o. cbn. intros Hne. contradiction.
    + cbn. intros Hne. contradiction.
  - intros body event Htext Hsig Hparse Hnone.
    unfold Webhook.POST, Webhook.verifyWebhookSignature.
    rewrite Htext, Hsig, Hparse, Hnone. split; reflexivity.
Qed.


Lemma failed_result env cid force w r :
  fst (syncCompanyData env cid force w) = Returns r ->
  success r = false ->
  syncedAt r = atReturn (clock env)
  /\ Sync.paymentsCount r = O /\ Sync.membershipsCount r = O
  /\ Sync.productsCount r = O.
Proof.
  rewrite SyncFacts.syncCompanyData_run.
  destruct (syncBody env cid force w) as [[r'|e] w'] eqn:Hbody; cbn [fst].
  - intros Hr Hs. inversion Hr; subst r'.
    apply SyncFacts.syncBody_returns_success in Hbody. congruence.
  - intros Hr _. inversion Hr; subst r. cbn. auto.
Qed.

(** X25.  The analytics route syncs before it computes anything, and a
    failed sync does not fail the request.  For a signed-in user the
    world after the request is the world after the sync; the answer is
    200 as soon as the summary is computed and the dates are valid or
    absent; its [sync] section copies the counts and [syncedAt] of the
    sync result and nothing else, so that a failed sync is reported
    with zero counts and, as [lastSynced], the time of the attempt:
    as a successful sync that fetched nothing would be. *)
Theorem analytics_route_hides_a_failed_sync env summarise req w userId r :
  AnalyticsRoute.userToken req = Returns userId ->
  truthy userId = true ->
  fst (syncCompanyData (AnalyticsRoute.syncEnv env) (AnalyticsRoute.companyId env)
         false w) = Returns r ->
  let run := AnalyticsRoute.GET env summarise req w in
  let w' := snd (syncCompanyData (AnalyticsRoute.syncEnv env)
                   (AnalyticsRoute.companyId env) false w) in
  let startDate := AnalyticsRoute.dateOf (AnalyticsRoute.Date_parse env)
                     (AnalyticsRoute.startDateParam req) in
  let endDate := AnalyticsRoute.dateOf (AnalyticsRoute.Date_parse env)
                   (AnalyticsRoute.endDateParam req) in
  snd run = w'
  /\ (exists response, fst run = Returns response)
  /\ (forall summary start_ end_,
        summarise w' startDate endDate = Returns summary ->
        AnalyticsRoute.isoOf startDate = Returns start_ ->
        AnalyticsRoute.isoOf endDate = Returns end_ ->
        fst run
        = Returns
            (AnalyticsRoute.Analytics summary
               {| AnalyticsRoute.lastSynced := syncedAt r;
                  AnalyticsRoute.paymentsCount := Sync.paymentsCount r;
                  AnalyticsRoute.membershipsCount := Sync.membershipsCount r;
                  AnalyticsRoute.productsCount := Sync.productsCount r |}
               (start_, end_) (AnalyticsRoute.atResponse env)))
  /\ (success r = false ->
      forall summary info range generatedAt,
        fst run = Returns (AnalyticsRoute.Analytics summary info range generatedAt) ->
        info = {| AnalyticsRoute.lastSynced :=
                    atReturn (clock (AnalyticsRoute.syncEnv env));
                  AnalyticsRoute.paymentsCount := O;
                  AnalyticsRoute.membershipsCount := O;
                  AnalyticsRoute.productsCount := O |}).
Proof.
  intros Htoken Huser Hsync. cbv zeta.
  pose proof (failed_result _ _ _ _ _ Hsync) as Hfailed.
  unfold AnalyticsRoute.GET. rewrite Htoken, Huser. cbn [negb].
  destruct (syncCompanyData (AnalyticsRoute.syncEnv env)
              (AnalyticsRoute.companyId env) false w) as [o w'].
  cbn [fst snd] in *. subst o.
  destruct (summarise w' _ _) as [summary|e] eqn:Hsummary.
  - destruct (AnalyticsRoute.isoOf
                (AnalyticsRoute.dateOf (AnalyticsRoute.Date_parse env)
                   (AnalyticsRoute.startDateParam req))) as [s|es] eqn:Es;
      destruct (AnalyticsRoute.isoOf
                  (AnalyticsRoute.dateOf (AnalyticsRoute.Date_parse env)
                     (AnalyticsRoute.endDateParam req))) as [e|ee] eqn:Ee;
      cbn [fst snd].
    + split; [reflexivity|]. split; [eauto|]. split.
      * intros summary' s' e' H1 H2 H3.
        inversion H1; inversion H2; inversion H3; subst. reflexivity.
      * intros Hfail summary' info range g Hresp.
        inversion Hresp; subst.
        destruct (Hfailed Hfail) as (-> & -> & -> & ->). reflexivity.
    + split; [reflexivity|]. split; [eauto|]. split.
      * intros summary' s' e' H1 H2 H3. discriminate.
      * intros Hfail summary' info range g Hresp. discriminate.
    + split; [reflexivity|]. split; [eauto|]. split.
      * intros summary' s' e' H1 H2 H3. discriminate.
      * intros Hfail summary' info range g Hresp. discriminate.
    + split; [reflexivity|]. split; [eauto|]. split.
      * intros summary' s' e' H1 H2 H3. discriminate.
      * intros Hfail summary' info range g Hresp. discriminate.
  - cbn [fst snd]. split; [reflexivity|]. split; [eauto|]. split.
    + intros summary s e' H1. discriminate.
    + intros _ summary info range g Hresp. discriminate.
Qed.

(** X26.  The analytics route throws only when the verification of the
    user token throws, and then nothing has been done.  Without a user
    id the answer is 401, and again there is no sync and no query:
    the world is as before. *)
Theorem analytics_route_needs_a_user env summarise req w :
  let run := AnalyticsRoute.GET env summarise req w in
  (forall e, fst run = Throws e <-> AnalyticsRoute.userToken req = Throws e)
  /\ (forall e, AnalyticsRoute.userToken req = Throws e -> snd run = w)
  /\ (forall userId, AnalyticsRoute.userToken req = Returns userId ->
        truthy userId = false ->
        run = (Returns AnalyticsRoute.Unauthorized, w)).
Proof.
  cbv zeta. unfold AnalyticsRoute.GET.
  destruct (AnalyticsRoute.userToken req) as [userId|e0].
  - split; [|split]; try discriminate; try reflexivity.
    + intros e. split; [|discriminate].
      destruct (negb (truthy userId)); [discriminate|].
      destruct (sync_returns (AnalyticsRoute.syncEnv env)
                  (AnalyticsRoute.companyId env) false w) as (r & Hr).
      destruct (syncCompanyData _ _ false w) as [o w'].
      cbn [fst] in Hr. subst o.
      destruct (summarise w' _ _); [|discriminate].
      repeat match goal with
      | |- context [match AnalyticsRoute.isoOf ?d with _ => _ end] =>
          destruct (AnalyticsRoute.isoOf d)
      end; discriminate.
    + intros userId' H Ht. inversion H; subst. rewrite Ht. reflexivity.
  - split; [|split]; try discriminate; try reflexivity.
    intros e. cbn [fst]. split; intros H; inversion H; reflexivity.
Qed.

Lemma webhook_acknowledges_witness :
  fst (Webhook.POST aHandlerEnv aWebhook freshCache)
  = Webhook.Processed (Some "payment.succeeded")
  /\ fst (syncCompanyData whopDown "biz_1" true syncedTenMinutesAgo)
     = Returns {| success := false; paymentsCount := 0; membershipsCount := 0;
                  productsCount := 0; syncedAt := t0 + 950;
                  error := Some "Failed to fetch members from Whop API" |}
  /\ upstreamCalls (trace (Webhook.world (snd (Webhook.POST aHandlerEnv aWebhook
                                                 freshCache))))
     = 3%nat.
Proof.
  destruct (webhook_acknowledges_whatever_the_sync_does aHandlerEnv aWebhook
              freshCache "event-1" paymentEvent "biz_1"
              eq_refl eq_refl eq_refl eq_refl)
    as (Hack & Hforced & _).
  split; [exact Hack|]. split; [reflexivity|].
  destruct (Hforced eq_refl) as (_ & Hcalls).
  rewrite (Hcalls eq_refl eq_refl). reflexivity.
Defined.

Lemma analytics_route_witness :
  exists summary,
    fst (AnalyticsRoute.GET aRouteEnv
           (AnalyticsRoute.summaryOf (H := utc) aRouteEnv) aRequest neverSynced)
    = Returns
        (AnalyticsRoute.Analytics summary
           {| AnalyticsRoute.lastSynced := t0 + 950;
              AnalyticsRoute.paymentsCount := 0;
              AnalyticsRoute.membershipsCount := 0;
              AnalyticsRoute.productsCount := 0 |}
           (None, None) (t0 + 2000)).
Proof.
  destruct (analytics_route_hides_a_failed_sync aRouteEnv
              (AnalyticsRoute.summaryOf (H := utc) aRouteEnv) aRequest neverSynced
              (Some "user_1")
              {| success := false; paymentsCount := 0; membershipsCount := 0;
                 productsCount := 0; syncedAt := t0 + 950;
                 error := Some "Failed to fetch members from Whop API" |}
              eq_refl eq_refl eq_refl)
    as (_ & _ & Hresp & _).
  eexists. apply Hresp; reflexivity.
Defined.

End RouteFacts.
